(** * todo-tracker: a shallow embedding of the task tracker and its properties

    The development follows the layout of the Python package [todo]:
    - [Py]       the Python values and built-in operations the package uses;
    - [Joplin]   [todo/joplin.py]: note format, task parser, ingestion pipeline;
    - [Api]      [todo/api.py]: the task table and its HTTP handlers;
    - [Cli]      [todo/cli.py]: the server lifecycle manager;
    - [Settings] [todo/settings.py]: defaults and the settings merge. *)

From Stdlib Require Import ZArith NArith List String Ascii Bool Lia.
From Stdlib Require Import Sorting.Sorted Sorting.Permutation Numbers.DecimalString.
From Stdlib Require DecimalZ DecimalPos.
From stdpp Require Import base option list gmap.
Import ListNotations.

Set Warnings "-register-all".
Local Open Scope N_scope.

(* ===================================================================== *)
(** * Python values and built-ins *)
(* ===================================================================== *)

Module Py.

(** A Python [str] is a sequence of Unicode code points. *)
Definition char := N.
Definition str := list char.

(** [u "abc"] is the [str] literal with the same (ASCII) characters. *)
Definition u (s : string) : str := List.map N_of_ascii (list_ascii_of_string s).

Definition LF : char := 10.
Definition CR : char := 13.

Definition is_empty (s : str) : bool :=
  match s with [] => true | _ => false end.

(** [str.isspace] on one character (Py_UNICODE_ISSPACE), which is also the
    class [\s] of the [re] module on [str] patterns. *)
Definition is_space (c : char) : bool :=
  ((9 <=? c) && (c <=? 13)) || ((28 <=? c) && (c <=? 32))
  || (c =? 133) || (c =? 160) || (c =? 5760)
  || ((8192 <=? c) && (c <=? 8202))
  || (c =? 8232) || (c =? 8233) || (c =? 8239) || (c =? 8287) || (c =? 12288).

(** The line boundaries of [str.splitlines]. *)
Definition is_linebreak (c : char) : bool :=
  ((10 <=? c) && (c <=? 13)) || ((28 <=? c) && (c <=? 30))
  || (c =? 133) || (c =? 8232) || (c =? 8233).

Fixpoint lstrip_by (p : char -> bool) (s : str) : str :=
  match s with
  | [] => []
  | c :: r => if p c then lstrip_by p r else s
  end.

Definition rstrip_by (p : char -> bool) (s : str) : str :=
  rev (lstrip_by p (rev s)).

(** [s.strip()] *)
Definition strip (s : str) : str := rstrip_by is_space (lstrip_by is_space s).

(** [s.startswith(p)] *)
Fixpoint startswith (p s : str) : bool :=
  match p, s with
  | [], _ => true
  | a :: p', b :: s' => (a =? b) && startswith p' s'
  | _ :: _, [] => false
  end.

(** [s.endswith(p)] *)
Definition endswith (p s : str) : bool := startswith (rev p) (rev s).

(** [s.split(sep)] for a one-character separator: never an empty list. *)
Fixpoint split_on (sep : char) (s : str) : list str :=
  match s with
  | [] => [[]]
  | c :: r =>
      if c =? sep then [] :: split_on sep r
      else match split_on sep r with
           | f :: fs => (c :: f) :: fs
           | [] => [[c]]
           end
  end.

(** [sep.join(parts)] *)
Fixpoint join (sep : str) (parts : list str) : str :=
  match parts with
  | [] => []
  | [p] => p
  | p :: rest => p ++ sep ++ join sep rest
  end.

(** [s.splitlines()]: [cur] is the current line, reversed.  A carriage
    return directly followed by a line feed is one boundary, and a boundary
    at the very end opens no further line. *)
Fixpoint splitlines_from (cur : str) (s : str) : list str :=
  match s with
  | [] => match cur with [] => [] | _ => [rev cur] end
  | c :: r =>
      if is_linebreak c then
        rev cur ::
          match r with
          | c' :: r' =>
              if (c =? CR) && (c' =? LF) then splitlines_from [] r'
              else splitlines_from [] r
          | [] => splitlines_from [] r
          end
      else splitlines_from (c :: cur) r
  end.

Definition splitlines (s : str) : list str := splitlines_from [] s.

(** Lexicographic comparison of two [str] by code point ([<] on [str]). *)
Fixpoint str_ltb (a b : str) : bool :=
  match a, b with
  | [], [] => false
  | [], _ :: _ => true
  | _ :: _, [] => false
  | x :: a', y :: b' => (x <? y) || ((x =? y) && str_ltb a' b')
  end.

Definition str_leb (a b : str) : bool := negb (str_ltb b a).

(** [a == b] on two [str] *)
Fixpoint str_eqb (a b : str) : bool :=
  match a, b with
  | [], [] => true
  | x :: a', y :: b' => (x =? y) && str_eqb a' b'
  | _, _ => false
  end.

(** No line feed occurs in [s]. *)
Definition single_line (s : str) : bool := forallb (fun c => negb (c =? LF)) s.

(** [re.search] for a pattern given by its test at one position: the start
    of the leftmost match, counted from [i]. *)
Fixpoint search_from (here : str -> bool) (s : str) (i : nat) : option nat :=
  if here s then Some i
  else match s with
       | [] => None
       | _ :: r => search_from here r (S i)
       end.

(** [s.index(sub)]: the lowest index where [sub] occurs; [None] stands for
    the ValueError of a missing substring. *)
Definition str_index (sub s : str) : option nat := search_from (startswith sub) s 0.

(** [line.split(sep, 1)] when [sep in line]: the text before and after the
    first separator; [None] when the separator does not occur. *)
Fixpoint break_at (sep : char) (s : str) : option (str * str) :=
  match s with
  | [] => None
  | c :: r =>
      if c =? sep then Some ([], r)
      else match break_at sep r with
           | Some (a, b) => Some (c :: a, b)
           | None => None
           end
  end.

(** [s.rsplit(sep, 1)] when [sep in s]: the text before and after the last
    separator. *)
Definition rbreak_at (sep : char) (s : str) : option (str * str) :=
  match break_at sep (rev s) with
  | Some (b, a) => Some (rev a, rev b)
  | None => None
  end.

(** Decimal value of a character.  Python's [int] and the class [\d] also
    read the decimal digits of other scripts; the data handled here (type
    codes, process ids, dates) is written with the ASCII digits. *)
Definition digit_val (c : char) : option Z :=
  if (48 <=? c) && (c <=? 57) then Some (Z.of_N (c - 48)) else None.

Definition is_digit (c : char) : bool := (48 <=? c) && (c <=? 57).

(** Zero-padded decimal fields, as [%02d] and [%04d] print them. *)
Definition digit (n : N) : char := 48 + n mod 10.
Definition two_digits (n : N) : str := [digit (n / 10); digit n].
Definition four_digits (n : N) : str :=
  [digit (n / 1000); digit (n / 100); digit (n / 10); digit n].

(** [str(n)] for an integer *)
Definition str_of_Z (n : Z) : str :=
  List.map N_of_ascii (list_ascii_of_string (NilEmpty.string_of_int (Z.to_int n))).

(** The digits of an [int] literal: single underscores may separate
    digits. *)
Fixpoint int_digits (acc : Z) (after_digit : bool) (s : str) : option Z :=
  match s with
  | [] => if after_digit then Some acc else None
  | c :: r =>
      if c =? 95 then (if after_digit then int_digits acc false r else None)
      else match digit_val c with
           | Some d => int_digits (10 * acc + d) true r
           | None => None
           end
  end.

(** [int(s)] in base ten: surrounding white space and one sign are
    allowed; [None] stands for the ValueError of an invalid literal. *)
Definition py_int (s : str) : option Z :=
  match strip s with
  | [] => None
  | c :: r =>
      if c =? 43 then int_digits 0 false r
      else if c =? 45 then Z.opp <$> int_digits 0 false r
      else int_digits 0 false (c :: r)
  end.

(** Exceptions, by class.  [URLError] is a subclass of [OSError], and
    [JSONDecodeError] and [UnicodeDecodeError] are subclasses of
    [ValueError]; each constructor stands for an instance whose most
    specific class is the one named. *)
Inductive exn :=
| URLError
| OSError
| ValueError
| JSONDecodeError
| UnicodeDecodeError
| KeyError
| AttributeError
| TypeError
| OverflowError
| RuntimeError.

(** [isinstance(e, OSError)] *)
Definition is_OSError (e : exn) : bool :=
  match e with URLError | OSError => true | _ => false end.

(** The result of running a piece of code: a value, a raised exception, or
    no result within the given number of loop iterations. *)
Inductive outcome (A : Type) :=
| Ret (a : A)
| Raise (e : exn)
| OutOfFuel.
Arguments Ret {A} a.
Arguments Raise {A} e.
Arguments OutOfFuel {A}.

(** [bytes]: a sequence of byte values. *)
Definition bytes := list N.

(** Decoded JSON documents.  A [dict] keeps its keys in insertion order; a
    float is kept as its literal, with whether it is non-zero. *)
Inductive json :=
| JNull
| JBool (b : bool)
| JInt (z : Z)
| JFloat (nonzero : bool) (lit : str)
| JStr (s : str)
| JArr (l : list json)
| JObj (d : list (str * json)).

(** [d[k]] on an association list *)
Fixpoint assoc {V : Type} (k : str) (d : list (str * V)) : option V :=
  match d with
  | [] => None
  | (k', v) :: r => if str_eqb k' k then Some v else assoc k r
  end.

(** [d[k] = v]: an existing key keeps its place, a new one goes last. *)
Fixpoint dict_set {V : Type} (k : str) (v : V) (d : list (str * V)) : list (str * V) :=
  match d with
  | [] => [(k, v)]
  | (k', v') :: r => if str_eqb k' k then (k, v) :: r else (k', v') :: dict_set k v r
  end.

(** Truth value of a decoded document ([if v], [not v]). *)
Definition truthy (v : json) : bool :=
  match v with
  | JNull => false
  | JBool b => b
  | JInt z => negb (z =? 0)%Z
  | JFloat nz _ => nz
  | JStr s => negb (is_empty s)
  | JArr l => match l with [] => false | _ => true end
  | JObj d => match d with [] => false | _ => true end
  end.

(** [v.get(key, dflt)]: only a dict has the method. *)
Definition dict_get (v : json) (key : string) (dflt : json) : outcome json :=
  match v with
  | JObj d => Ret (default dflt (assoc (u key) d))
  | _ => Raise AttributeError
  end.

(** [v[key]] for a string key *)
Definition subscript (v : json) (key : string) : outcome json :=
  match v with
  | JObj d =>
      match assoc (u key) d with
      | Some x => Ret x
      | None => Raise KeyError
      end
  | _ => Raise TypeError
  end.

(** The elements [list.extend(v)] appends: a list gives its elements, a
    string its characters, a dict its keys; nothing else is iterable. *)
Definition iterate (v : json) : outcome (list json) :=
  match v with
  | JArr l => Ret l
  | JStr s => Ret (List.map (fun c => JStr [c]) s)
  | JObj d => Ret (List.map (fun kv => JStr (fst kv)) d)
  | _ => Raise TypeError
  end.

(** A stable sort by a strict order on the elements, as [list.sort] is:
    each element is put before the first one of the sorted rest that is not
    smaller than it. *)
Fixpoint insert_sorted {A : Type} (ltb : A -> A -> bool) (x : A) (l : list A) : list A :=
  match l with
  | [] => [x]
  | y :: r => if ltb y x then y :: insert_sorted ltb x r else x :: y :: r
  end.

Definition sort_by {A : Type} (ltb : A -> A -> bool) (l : list A) : list A :=
  foldr (insert_sorted ltb) [] l.

End Py.

Import Py.

(* ===================================================================== *)
(** * todo/joplin.py *)
(* ===================================================================== *)

Module Joplin.

(** ** Task parser *)

(** One parsed entry: the dict with keys ["date"], ["headline"], ["context"]. *)
Record entry := Entry { date : str; headline : str; context : str }.

(** The body of the [for] loop of [parse_tasks]: every [continue] leaves the
    list as it is, the last statement appends. *)
Definition parse_tasks_step (entries : list entry) (line0 : str) : list entry :=
  let line := strip line0 in
  if is_empty line || startswith (u "#") line then entries
  else
    let parts := List.map strip (split_on 59 line) in
    if (length parts <? 2)%nat then entries
    else
      let date_str := nth 0 parts [] in
      let headline := nth 1 parts [] in
      if is_empty date_str || is_empty headline then entries
      else
        let context := if (3 <=? length parts)%nat then nth 2 parts [] else [] in
        entries ++ [Entry date_str headline context].

Definition parse_tasks (text : str) : list entry :=
  fold_left parse_tasks_step (splitlines text) [].

(** The task mini-language as the specification words it. *)
Definition is_task_line (line : str) : bool :=
  negb (is_empty (strip line)) && negb (startswith (u "#") (strip line)).

Definition fields_of (line : str) : list str :=
  List.map strip (split_on 59 (strip line)).

Definition entry_of_fields (fields : list str) : option entry :=
  match fields with
  | d :: h :: rest =>
      if is_empty d || is_empty h then None
      else Some (Entry d h (match rest with c :: _ => c | [] => [] end))
  | _ => None
  end.

Definition parse_tasks_spec (text : str) : list entry :=
  omap entry_of_fields (List.map fields_of (List.filter is_task_line (splitlines text))).

(** ** Sync-item format *)

Definition is_hex_lower (c : char) : bool :=
  ((48 <=? c) && (c <=? 57)) || ((97 <=? c) && (c <=? 102)).

(** [re.match(r'^id: [a-f0-9]{32}\s*$', line)]: the prefix, exactly 32
    lower-case hexadecimal digits, then nothing but white space. *)
Definition is_id_line (line : str) : bool :=
  startswith (u "id: ") line
  && (let r := drop 4 line in
      (32 <=? length r)%nat
      && forallb is_hex_lower (take 32 r)
      && forallb is_space (drop 32 r)).

(** The parsed item: the dict returned by [_parse_joplin_item]. *)
Record item := Item {
  title : str;
  body : str;
  item_type : Z;
  item_id : str;
  parent_id : str;
  metadata_lines : list str
}.

(** [for i in range(1, len(lines))] with its [break]: [ls] are the lines
    from index [i] on. *)
Fixpoint find_id_line (i : nat) (ls : list str) : option nat :=
  match ls with
  | [] => None
  | l :: r => if is_id_line l then Some i else find_id_line (S i) r
  end.

Definition find_metadata_start (lines : list str) : nat :=
  default (length lines) (find_id_line 1 (tail lines)).

(** One metadata line: [metadata[key.strip()] = value.strip()] when the
    line holds a colon. *)
Definition metadata_step (metadata : gmap str str) (line : str) : gmap str str :=
  match break_at 58 line with
  | Some (key, value) => <[strip key := strip value]> metadata
  | None => metadata
  end.

(** The two [while] loops that trim blank lines around the body; [n] bounds
    the number of iterations (the length of [lines] is always enough, see
    [body_start_loop_exit] and [body_end_loop_exit]). *)
Fixpoint body_start_loop (n : nat) (lines : list str)
    (metadata_start body_start : nat) : nat :=
  match n with
  | O => body_start
  | S n' =>
      if (body_start <? metadata_start)%nat
         && is_empty (strip (nth body_start lines []))
      then body_start_loop n' lines metadata_start (body_start + 1)
      else body_start
  end.

Fixpoint body_end_loop (n : nat) (lines : list str)
    (body_start body_end : nat) : nat :=
  match n with
  | O => body_end
  | S n' =>
      if (body_start <? body_end)%nat
         && is_empty (strip (nth (body_end - 1) lines []))
      then body_end_loop n' lines body_start (body_end - 1)
      else body_end
  end.

(** [metadata.get(key, default)] *)
Definition meta_get (metadata : gmap str str) (key : string) (dflt : string) : str :=
  default (u dflt) (metadata !! u key).

(** The [for] loop that fills [metadata] from the metadata lines. *)
Definition metadata_of (lines : list str) : gmap str str :=
  fold_left metadata_step lines ∅.

(** [metadata.get('type_', '0') or '0'] *)
Definition type_field (metadata : gmap str str) : str :=
  let type_text := meta_get metadata "type_" "0" in
  if is_empty type_text then u "0" else type_text.

Definition _parse_joplin_item (content : str) : outcome item :=
  let lines := split_on LF (rstrip_by (N.eqb LF) content) in
  let title := match lines with l :: _ => l | [] => [] end in
  let metadata_start := find_metadata_start lines in
  let metadata := metadata_of (drop metadata_start lines) in
  let body_start := body_start_loop (length lines) lines metadata_start 1 in
  let body_end := body_end_loop (length lines) lines body_start metadata_start in
  let body :=
    if (body_start <? body_end)%nat
    then join [LF] (take (body_end - body_start) (drop body_start lines))
    else [] in
  match py_int (type_field metadata) with
  | None => Raise ValueError
  | Some ty =>
      Ret {| title := title;
             body := body;
             item_type := ty;
             item_id := meta_get metadata "id" "";
             parent_id := meta_get metadata "parent_id" "";
             metadata_lines := drop metadata_start lines |}
  end.

Definition _rebuild_joplin_item (title body : str) (metadata_lines : list str) : str :=
  if negb (is_empty body)
  then join [LF] ([title; []; body; []] ++ metadata_lines) ++ [LF]
  else join [LF] ([title; []; []] ++ metadata_lines) ++ [LF].

(** The item text of the specification's example. *)
Definition example_item_text : str :=
  u "Title" ++ [LF; LF] ++ u "Body line" ++ [LF; LF]
  ++ u "id: 0123456789abcdef0123456789abcdef" ++ [LF] ++ u "updated_time: X".

(** ** Clearing a note: the text transformation *)

(** The pattern [\n\nid: [a-f0-9]{32}] at the head of [s]. *)
Definition meta_boundary_here (s : str) : bool :=
  startswith (LF :: LF :: u "id: ") s
  && (let r := drop 6 s in
      (32 <=? length r)%nat && forallb is_hex_lower (take 32 r)).

(** [text[:title_end] + text[meta_match.start():]], with the two ways the
    search for the boundaries can fail. *)
Definition cut_body (text : str) : outcome str :=
  match str_index [LF; LF] text with
  | None => Raise ValueError
  | Some i =>
      let title_end := (i + 2)%nat in
      match search_from meta_boundary_here text 0 with
      | None => Raise ValueError
      | Some meta_start => Ret (take title_end text ++ drop meta_start text)
      end
  end.

(** The look-behind [(?<=K)] holds at a position when the text before it
    ends with [K]; [seen] is that text, reversed. *)
Definition lookbehind (K seen : str) : bool := startswith (rev K) seen.

(** [re.sub(r'(?<=K).*', repl, s)] for a key [K] and a replacement without
    escapes.  A match starts wherever the look-behind holds and runs to the
    end of the line ([.] stops at a line feed); [eating] says that the
    scan is inside a match.  At a line feed and at the end of the text a
    match that has just ended may be followed by an empty one. *)
Fixpoint re_sub_after (K repl : str) (eating : bool) (seen s : str) : str :=
  match s with
  | [] => if lookbehind K seen then repl else []
  | c :: r =>
      if c =? LF then
        (if lookbehind K seen then repl else [])
          ++ c :: re_sub_after K repl false (c :: seen) r
      else if eating then re_sub_after K repl true (c :: seen) r
      else if lookbehind K seen then repl ++ re_sub_after K repl true (c :: seen) r
      else c :: re_sub_after K repl false (c :: seen) r
  end.

Definition updated_key : str := LF :: u "updated_time: ".
Definition user_updated_key : str := LF :: u "user_updated_time: ".

(** The two substitutions of [clear_note]. *)
Definition stamp_times (now cleared : str) : str :=
  let cleared := re_sub_after updated_key now false [] cleared in
  re_sub_after user_updated_key now false [] cleared.

(** A reading of the UTC clock. *)
Record utc_time := UtcTime {
  year : N; month : N; day : N; hour : N; minute : N; second : N
}.

(** [strftime('%Y-%m-%dT%H:%M:%S.000Z')] *)
Definition strftime (t : utc_time) : str :=
  four_digits (year t) ++ u "-" ++ two_digits (month t) ++ u "-"
  ++ two_digits (day t) ++ u "T" ++ two_digits (hour t) ++ u ":"
  ++ two_digits (minute t) ++ u ":" ++ two_digits (second t) ++ u ".000Z".

(** The shape [YYYY-MM-DDTHH:MM:SS.000Z]. *)
Definition is_stamp (s : str) : bool :=
  match s with
  | [y1; y2; y3; y4; d1; m1; m2; d2; a1; a2; t; h1; h2; c1; n1; n2; c2; s1; s2;
     p; z1; z2; z3; z] =>
      forallb is_digit [y1; y2; y3; y4; m1; m2; a1; a2; h1; h2; n1; n2; s1; s2]
      && str_eqb [d1; d2; t; c1; c2; p; z1; z2; z3; z] (u "--T::.000Z")
  | _ => false
  end.

(** The text transformation of [clear_note] in one piece. *)
Definition cleared_text (now : utc_time) (text : str) : outcome str :=
  match cut_body text with
  | Ret cleared => Ret (stamp_times (strftime now) cleared)
  | Raise e => Raise e
  | OutOfFuel => OutOfFuel
  end.

(** What clearing does, line by line: the first line is kept, and on every
    later line that starts with one of the two keys the rest of the line
    becomes the stamp. *)
Definition sub_line (key repl line : str) : str :=
  if startswith key line then key ++ repl else line.

Definition bump_line (now line : str) : str :=
  if startswith (u "updated_time: ") line then u "updated_time: " ++ now
  else if startswith (u "user_updated_time: ") line then u "user_updated_time: " ++ now
  else line.

Definition on_tail {A} (f : A -> A) (l : list A) : list A :=
  match l with
  | first :: rest => first :: List.map f rest
  | [] => []
  end.

Definition bump_lines (now : str) (s : str) : str :=
  join [LF] (on_tail (bump_line now) (split_on LF s)).

(** [i] is the first place where [here] holds in [s]. *)
Definition first_place (here : str -> bool) (s : str) (i : nat) : Prop :=
  here (drop i s) = true /\ (i <= length s)%nat
  /\ forall j, (j < i)%nat -> here (drop j s) = false.

(** ** Choosing among the candidate notes *)
(** The sort key of a candidate: [(body == '', name)]. *)
Definition note_key (c : str * item) : bool * str := (is_empty (body (snd c)), fst c).

(** [<] on two keys: [False < True], then the names by code point. *)
Definition key_ltb (a b : bool * str) : bool :=
  (negb (fst a) && fst b) || (eqb (fst a) (fst b) && str_ltb (snd a) (snd b)).

Definition note_ltb (a b : str * item) : bool := key_ltb (note_key a) (note_key b).

(** [not folder_id] *)
Definition no_folder (folder_id : option str) : bool :=
  match folder_id with
  | None => true
  | Some f => is_empty f
  end.

(** [not notebook_name or p['parent_id'] == folder_id] *)
Definition in_folder (notebook_name : str) (folder_id : option str) (c : str * item) : bool :=
  is_empty notebook_name
  || match folder_id with
     | Some f => str_eqb (parent_id (snd c)) f
     | None => false
     end.

(** The end of [_find_note_item], after the loop. *)
Definition select_note (notebook_name : str) (folder_id : option str)
    (candidate_notes : list (str * item)) : option str :=
  if negb (is_empty notebook_name) && no_folder folder_id then None
  else
    let matches := List.filter (in_folder notebook_name folder_id) candidate_notes in
    let matches := sort_by note_ltb matches in
    match matches with
    | (item_name, _) :: _ => Some item_name
    | [] => None
    end.


(** ** The world outside: network, files, clock *)

(** A [urllib.request.Request] together with the time-out it is opened
    with, and what [urlopen] answers. *)
Record request := Request {
  url : str;
  method : str;
  data : option bytes;
  headers : list (str * str);
  timeout : Z
}.

Record response := Response { status : Z; content : bytes }.

(** The operations the module takes from its platform.  [W] is the state
    of everything outside the program (the note server, the task API, the
    file system); the codecs are functions of their argument alone. *)
Class Platform (W : Type) := {
  (** [urllib.request.urlopen]: a response or an exception, and the world
      after the exchange *)
  urlopen : request -> W -> (exn + response) * W;
  (** [path.exists()] and [path.read_text()]: [None] for a missing file *)
  read_text : list str -> W -> option (exn + str);
  (** [datetime.datetime.now(datetime.timezone.utc)] *)
  utcnow : W -> utc_time;
  (** [json.loads] on text, [None] for a JSONDecodeError, and [json.dumps] *)
  json_loads : str -> option json;
  json_dumps : json -> str;
  (** [bytes.decode("utf-8")], [None] for a UnicodeDecodeError, and
      [str.encode("utf-8")] *)
  utf8_decode : bytes -> option str;
  utf8_encode : str -> bytes;
  (** [str(v)] for a value that is not a string *)
  format_value : json -> str
}.

(** What the program prints. *)
Inductive message :=
| NoConfig
| ConfigIncomplete
| AuthFailed (e : exn)
| ResolveFailed (e : exn)
| NoteNotFound (note_path : json)
| FetchFailed (e : exn)
| NoTasksFound
| PostFailed (e : exn)
| Ingested (count : Z).

(** What an observer of the program sees, in order. *)
Inductive event :=
| Sent (r : request)
| Printed (m : message).

Section WithPlatform.
Context {W : Type} {P : Platform W}.

(** The program state: the world and the trace of events so far. *)
Record state := State { world : W; trace : list event }.

(** Effectful code: state passing with exceptions. *)
Definition M (A : Type) : Type := state -> outcome A * state.

Definition ret {A} (a : A) : M A := fun st => (Ret a, st).

Definition raise {A} (e : exn) : M A := fun st => (Raise e, st).

Definition out_of_fuel {A} : M A := fun st => (OutOfFuel, st).

Definition bind {A B} (m : M A) (k : A -> M B) : M B :=
  fun st =>
    match m st with
    | (Ret a, st') => k a st'
    | (Raise e, st') => (Raise e, st')
    | (OutOfFuel, st') => (OutOfFuel, st')
    end.

Notation "x <- m ;; k" := (bind m (fun x => k))
  (at level 100, m at next level, right associativity).

(** A pure computation that may raise. *)
Definition lift {A} (o : outcome A) : M A := fun st => (o, st).

(** [try: m] with the exception, if any, handed to the handler. *)
Definition try_ {A} (m : M A) : M (exn + A) :=
  fun st =>
    match m st with
    | (Ret a, st') => (Ret (inr a), st')
    | (Raise e, st') => (Ret (inl e), st')
    | (OutOfFuel, st') => (OutOfFuel, st')
    end.

Definition print (m : message) : M unit :=
  fun st => (Ret tt, {| world := world st; trace := trace st ++ [Printed m] |}).

(** Opening a request: the exchange changes the world and is recorded. *)
Definition send (r : request) : M response :=
  fun st =>
    let '(o, w) := urlopen r (world st) in
    (match o with inl e => Raise e | inr x => Ret x end,
     {| world := w; trace := trace st ++ [Sent r] |}).

Definition clock : M utc_time := fun st => (Ret (utcnow (world st)), st).


(** A value interpolated in an f-string. *)
Definition fstr (v : json) : str :=
  match v with
  | JStr s => s
  | _ => format_value v
  end.

Definition decode (raw : bytes) : outcome str :=
  match utf8_decode raw with
  | Some text => Ret text
  | None => Raise UnicodeDecodeError
  end.

(** [json.loads] on the bytes of a response *)
Definition loads_bytes (raw : bytes) : outcome json :=
  match utf8_decode raw with
  | None => Raise UnicodeDecodeError
  | Some text =>
      match json_loads text with
      | Some v => Ret v
      | None => Raise JSONDecodeError
      end
  end.

(** ** Config *)

Definition _load_joplin_config (data_dir : list str) : M json :=
  fun st =>
    match read_text (data_dir ++ [u "credentials.json"]) (world st) with
    | None => (Ret JNull, st)
    | Some (inl e) => (Raise e, st)
    | Some (inr text) =>
        match json_loads text with
        | None => (Raise JSONDecodeError, st)
        | Some creds => (dict_get creds "joplin" JNull, st)
        end
    end.

(** ** HTTP helper *)

Definition _api_request (url : str) (method : string) (data : option bytes)
    (headers : list (str * str)) (host : json) : M bytes :=
  let h := headers in
  let h := if truthy host then dict_set (u "Host") (fstr host) h else h in
  resp <- send (Request url (u method) data h 15) ;;
  ret (content resp).

(** ** Authentication *)

Definition _cookie_headers (token : json) : list (str * str) :=
  [(u "Cookie", u "sessionId=" ++ fstr token)].

Definition fetch_session_token (base_url email password host : json) : M json :=
  let url := fstr base_url ++ u "/api/sessions" in
  let body :=
    utf8_encode (json_dumps (JObj [(u "email", email); (u "password", password)])) in
  resp <- _api_request url "POST" (Some body)
            [(u "Content-Type", u "application/json")] host ;;
  v <- lift (loads_bytes resp) ;;
  lift (subscript v "id").

(** ** Note path resolution *)

(** The [while True] loop of [_list_all_items]; [fuel] bounds the number of
    pages fetched. *)
Fixpoint _list_all_items_loop (fuel : nat) (base_url token host : json)
    (items : list json) (cursor : json) : M (list json) :=
  match fuel with
  | O => out_of_fuel
  | S fuel' =>
      let url := fstr base_url ++ u "/api/items/root:/:/children" in
      let url := if truthy cursor then url ++ u "?cursor=" ++ fstr cursor else url in
      resp <- _api_request url "GET" None (_cookie_headers token) host ;;
      data <- lift (loads_bytes resp) ;;
      page <- lift (dict_get data "items" (JArr [])) ;;
      more <- lift (iterate page) ;;
      let items := items ++ more in
      has_more <- lift (dict_get data "has_more" JNull) ;;
      if negb (truthy has_more) then ret items
      else
        cursor <- lift (dict_get data "cursor" (JStr [])) ;;
        _list_all_items_loop fuel' base_url token host items cursor
  end.

Definition _list_all_items (fuel : nat) (base_url token host : json) : M (list json) :=
  _list_all_items_loop fuel base_url token host [] (JStr []).

Definition content_url (base_url : json) (name : str) : str :=
  fstr base_url ++ u "/api/items/root:/" ++ name ++ u ":/content".

(** The body of the [for item in items] loop of [_find_note_item], on the
    pair of [folder_id] and [candidate_notes]. *)
Definition scan_item (base_url token host : json) (notebook_name note_title : str)
    (acc : option str * list (str * item)) (it : json)
    : M (option str * list (str * item)) :=
  name_v <- lift (dict_get it "name" (JStr [])) ;;
  match name_v with
  | JStr name =>
      if negb (endswith (u ".md") name) then ret acc
      else
        r <- try_ (raw <- _api_request (content_url base_url name) "GET" None
                           (_cookie_headers token) host ;;
                   text <- lift (decode raw) ;;
                   lift (_parse_joplin_item text)) ;;
        match r with
        | inl _ => ret acc
        | inr parsed =>
            let folder_id :=
              if (item_type parsed =? 2)%Z && startswith notebook_name (title parsed)
              then Some (item_id parsed) else fst acc in
            let candidate_notes :=
              if (item_type parsed =? 1)%Z && str_eqb (title parsed) note_title
              then snd acc ++ [(name, parsed)] else snd acc in
            ret (folder_id, candidate_notes)
        end
  | _ => raise AttributeError
  end.

Fixpoint scan_items (base_url token host : json) (notebook_name note_title : str)
    (acc : option str * list (str * item)) (items : list json)
    : M (option str * list (str * item)) :=
  match items with
  | [] => ret acc
  | it :: rest =>
      acc' <- scan_item base_url token host notebook_name note_title acc it ;;
      scan_items base_url token host notebook_name note_title acc' rest
  end.

Definition _find_note_item (fuel : nat) (base_url token : json)
    (notebook_name note_title : str) (host : json) : M (option str) :=
  items <- _list_all_items fuel base_url token host ;;
  found <- scan_items base_url token host notebook_name note_title (None, []) items ;;
  ret (select_note notebook_name (fst found) (snd found)).

Definition _resolve_note_item (fuel : nat) (base_url token note_path : json)
    (data_dir : list str) (host : json) : M (option str) :=
  match note_path with
  | JStr path =>
      match rbreak_at 47 path with
      | Some (notebook_name, note_title) =>
          _find_note_item fuel base_url token notebook_name note_title host
      | None => _find_note_item fuel base_url token [] path host
      end
  | _ => raise AttributeError
  end.

(** ** Fetch / clear note *)

Definition fetch_note (base_url token : json) (item_name : str) (host : json) : M str :=
  resp <- _api_request (content_url base_url item_name) "GET" None
            (_cookie_headers token) host ;;
  text <- lift (decode resp) ;;
  parsed <- lift (_parse_joplin_item text) ;;
  ret (body parsed).

Definition clear_note (base_url token : json) (item_name : str) (host : json) : M unit :=
  let content_url := content_url base_url item_name in
  raw <- _api_request content_url "GET" None (_cookie_headers token) host ;;
  text <- lift (decode raw) ;;
  cleared <- lift (cut_body text) ;;
  now <- clock ;;
  let cleared := stamp_times (strftime now) cleared in
  _ <- _api_request content_url "PUT" (Some (utf8_encode cleared))
         (dict_set (u "Content-Type") (u "application/octet-stream")
            (_cookie_headers token)) host ;;
  ret tt.

(** ** Orchestrator *)

Definition task_json (task : entry) : json :=
  JObj [(u "date", JStr (date task)); (u "headline", JStr (headline task));
        (u "context", JStr (context task))].

(** The body of the [for task in tasks] loop, on [count]. *)
Definition post_task (api_base : str) (count : Z) (task : entry) : M Z :=
  r <- try_ (let body := utf8_encode (json_dumps (task_json task)) in
             send (Request (api_base ++ u "/tasks") (u "POST") (Some body)
                     [(u "Content-Type", u "application/json")] 10)) ;;
  match r with
  | inr resp => ret (if (status resp =? 201)%Z then (count + 1)%Z else count)
  | inl exc => _ <- print (PostFailed exc) ;; ret count
  end.

Fixpoint post_tasks (api_base : str) (count : Z) (tasks : list entry) : M Z :=
  match tasks with
  | [] => ret count
  | task :: rest =>
      count' <- post_task api_base count task ;;
      post_tasks api_base count' rest
  end.

Definition is_empty_list {A} (l : list A) : bool :=
  match l with [] => true | _ => false end.

(** [except (urllib.error.URLError, OSError, json.JSONDecodeError, KeyError)] *)
Definition caught_fetching (e : exn) : bool :=
  match e with
  | URLError | OSError | JSONDecodeError | KeyError => true
  | _ => false
  end.

(** [load_from_joplin] from the comment [# Parse tasks] to its end: the
    steps that follow the fetch of the note body [text]. *)
Definition ingest (api_base : str) (base_url token : json) (item_name : str)
    (server_host : json) (text : str) : M Z :=
  let tasks := parse_tasks text in
  if is_empty_list tasks then
    _ <- print NoTasksFound ;; ret 0%Z
  else
    count <- post_tasks api_base 0%Z tasks ;;
    r <- try_ (clear_note base_url token item_name server_host) ;;
    match r with
    | inl e =>
        if is_OSError e then
          _ <- print (Ingested count) ;; ret count
        else raise e
    | inr _ => _ <- print (Ingested count) ;; ret count
    end.

(** [load_from_joplin] up to the fetch of the note body: [None] when the
    function has returned 0 on the way, else what the later steps use. *)
Definition locate_and_fetch (fuel : nat) (data_dir : list str)
    : M (option (json * json * str * json * str)) :=
  config <- _load_joplin_config data_dir ;;
  if negb (truthy config) then
    _ <- print NoConfig ;; ret None
  else
    base_url <- lift (dict_get config "url" (JStr [])) ;;
    email <- lift (dict_get config "email" (JStr [])) ;;
    password <- lift (dict_get config "password" (JStr [])) ;;
    note_path <- lift (dict_get config "note_path" (JStr (u "ingest/todo.txt"))) ;;
    server_host <- lift (dict_get config "server_host" (JStr [])) ;;
    if negb (truthy base_url) || negb (truthy email) || negb (truthy password) then
      _ <- print ConfigIncomplete ;; ret None
    else
      r <- try_ (fetch_session_token base_url email password server_host) ;;
      match r with
      | inl exc =>
          if caught_fetching exc then _ <- print (AuthFailed exc) ;; ret None
          else raise exc
      | inr token =>
          r <- try_ (_resolve_note_item fuel base_url token note_path data_dir
                       server_host) ;;
          match r with
          | inl exc =>
              if is_OSError exc then _ <- print (ResolveFailed exc) ;; ret None
              else raise exc
          | inr None => _ <- print (NoteNotFound note_path) ;; ret None
          | inr (Some item_name) =>
              if is_empty item_name then
                _ <- print (NoteNotFound note_path) ;; ret None
              else
                r <- try_ (fetch_note base_url token item_name server_host) ;;
                match r with
                | inl exc =>
                    if caught_fetching exc then
                      _ <- print (FetchFailed exc) ;; ret None
                    else raise exc
                | inr text =>
                    ret (Some (base_url, token, item_name, server_host, text))
                end
          end
      end.

Definition load_from_joplin (fuel : nat) (data_dir : list str) (api_base : str) : M Z :=
  found <- locate_and_fetch fuel data_dir ;;
  match found with
  | None => ret 0%Z
  | Some (base_url, token, item_name, server_host, text) =>
      ingest api_base base_url token item_name server_host text
  end.

End WithPlatform.

End Joplin.

(* ===================================================================== *)
(** * A small note server, to run the pipeline on *)
(* ===================================================================== *)

Module Demo.
Import Joplin.

(** [json.dumps] with its default separators, for documents whose strings
    need no escape. *)
Fixpoint dumps (j : json) : str :=
  match j with
  | JNull => u "null"
  | JBool b => if b then u "true" else u "false"
  | JInt z => str_of_Z z
  | JFloat _ lit => lit
  | JStr s => [34] ++ s ++ [34]
  | JArr l =>
      u "["
      ++ (fix elements (l : list json) : str :=
            match l with
            | [] => []
            | x :: r =>
                dumps x ++ match r with [] => [] | _ => u ", " ++ elements r end
            end) l
      ++ u "]"
  | JObj d =>
      u "{"
      ++ (fix members (d : list (str * json)) : str :=
            match d with
            | [] => []
            | (k, x) :: r =>
                [34] ++ k ++ [34] ++ u ": " ++ dumps x
                ++ match r with [] => [] | _ => u ", " ++ members r end
            end) d
      ++ u "}"
  end.

(** [json.loads] on the documents that are exchanged here: the one that
    prints as the text. *)
Definition loads (known : list json) (text : str) : option json :=
  List.find (fun j => str_eqb (dumps j) text) known.

(** The note server holds its items by name; the world is its store. *)
Definition store := list (str * str).

Definition base : str := u "http://notes.example".
Definition api : str := u "http://127.0.0.1:8001".

Definition credentials : json :=
  JObj [(u "joplin",
         JObj [(u "url", JStr base); (u "email", JStr (u "me@example.org"));
               (u "password", JStr (u "secret")); (u "note_path", JStr (u "todo.txt"))])].

Definition session : json := JObj [(u "id", JStr (u "tok"))].

Definition listing (w : store) : json :=
  JObj [(u "items", JArr (List.map (fun kv => JObj [(u "name", JStr (fst kv))]) w));
        (u "has_more", JBool false)].

(** The server's answers: a session for any login, the list of all items
    in one page, the content of an item or its replacement, and status 201
    for every task posted to the task API; anything else is not found. *)
Definition answer (r : request) (w : store) : (exn + response) * store :=
  if str_eqb (url r) (base ++ u "/api/sessions")
  then (inr (Response 200 (dumps session)), w)
  else if str_eqb (url r) (base ++ u "/api/items/root:/:/children")
  then (inr (Response 200 (dumps (listing w))), w)
  else if str_eqb (url r) (api ++ u "/tasks")
  then (inr (Response 201 []), w)
  else
    match List.find (fun kv => str_eqb (url r)
                       (base ++ u "/api/items/root:/" ++ fst kv ++ u ":/content")) w with
    | Some (name, text) =>
        if str_eqb (method r) (u "PUT")
        then match data r with
             | Some d => (inr (Response 200 []), dict_set name d w)
             | None => (inl URLError, w)
             end
        else (inr (Response 200 text), w)
    | None => (inl URLError, w)
    end.

(** The platform: the server above, a credentials file, a clock stopped at
    2024-01-02T03:04:05, and codecs for ASCII text. *)
Definition platform (w0 : store) : Platform store :=
  {| urlopen := answer;
     read_text := fun path _ => Some (inr (dumps credentials));
     utcnow := fun _ => UtcTime 2024 1 2 3 4 5;
     json_loads := loads [credentials; session; listing w0];
     json_dumps := dumps;
     utf8_decode := fun b => if forallb (fun c => c <? 128) b then Some b else None;
     utf8_encode := fun s => s;
     format_value := dumps |}.

Definition start (w0 : store) : state (W := store) := State w0 [].

Definition empty_note : str :=
  u "todo.txt" ++ [LF; LF] ++ u "id: 00000000000000000000000000000001"
  ++ [LF] ++ u "type_: 1" ++ [LF].


(** A note in the usual layout. *)
Definition good_note : str :=
  u "todo.txt" ++ [LF; LF] ++ u "2024-01-01;Buy milk" ++ [LF; LF]
  ++ u "id: 00000000000000000000000000000003" ++ [LF] ++ u "type_: 1"
  ++ [LF] ++ u "updated_time: 2023-12-31T00:00:00.000Z".

Definition empty_world : store := [(u "z.md", empty_note)].
Definition good_world : store := [(u "z.md", empty_note); (u "a.md", good_note)].

Definition tok : json := JStr (u "tok").

(** The pipeline on a world, up to the fetch of the note body, and the
    listing and the scan of the items of the world. *)
Definition fetched (w : store) : state (W := store) :=
  snd (locate_and_fetch (P := platform w) 5 [u "data"] (start w)).



End Demo.

(* ===================================================================== *)
(** * todo/api.py and todo/models.py *)
(* ===================================================================== *)

Module Api.

(** The request body of a task, and a task as it is returned: the same
    three columns with the row id. *)
Record TaskIn := { date : str; headline : str; context : str }.
Record TaskOut := { id : Z; task : TaskIn }.

(** The table [tasks]: the primary key [id] determines the row. *)
Abbreviation table := (gmap Z TaskIn).

(** What a handler answers: a body with its status code, an
    [HTTPException] with its status code, or an exception that escapes. *)
Inductive reply (A : Type) :=
| Ok (status_code : Z) (body : A)
| HTTPException (status_code : Z)
| Escapes (e : exn).
Arguments Ok {A} status_code body.
Arguments HTTPException {A} status_code.
Arguments Escapes {A} e.

(** The body of the delete handler: [{"status": "deleted", "id": task_id}]. *)
Record deleted := { status : str; deleted_id : Z }.

(** ** Calendar dates

    [datetime.date] with its arithmetic, as stepping through the proleptic
    Gregorian calendar one day at a time between 0001-01-01 and
    9999-12-31; leaving that range is the OverflowError of the library. *)
Record pydate := { year : N; month : N; day : N }.

Definition is_leap (y : N) : bool :=
  (y mod 4 =? 0) && (negb (y mod 100 =? 0) || (y mod 400 =? 0)).

Definition days_in_month (y m : N) : N :=
  if m =? 2 then (if is_leap y then 29 else 28)
  else if (m =? 4) || (m =? 6) || (m =? 9) || (m =? 11) then 30
  else 31.

Definition valid_date (d : pydate) : Prop :=
  1 <= year d <= 9999 /\ 1 <= month d <= 12
  /\ 1 <= day d <= days_in_month (year d) (month d).

Definition tomorrow (d : pydate) : option pydate :=
  if day d <? days_in_month (year d) (month d)
  then Some {| year := year d; month := month d; day := day d + 1 |}
  else if month d <? 12
  then Some {| year := year d; month := month d + 1; day := 1 |}
  else if year d <? 9999
  then Some {| year := year d + 1; month := 1; day := 1 |}
  else None.

Definition yesterday (d : pydate) : option pydate :=
  if 1 <? day d
  then Some {| year := year d; month := month d; day := day d - 1 |}
  else if 1 <? month d
  then Some {| year := year d; month := month d - 1;
               day := days_in_month (year d) (month d - 1) |}
  else if 1 <? year d
  then Some {| year := year d - 1; month := 12; day := 31 |}
  else None.

(** [d + timedelta(days=n)] *)
Definition add_days (d : pydate) (n : Z) : option pydate :=
  if (0 <=? n)%Z
  then Nat.iter (Z.to_nat n) (fun o => o ≫= tomorrow) (Some d)
  else Nat.iter (Z.to_nat (- n)) (fun o => o ≫= yesterday) (Some d).

(** [d.isoformat()] *)
Definition isoformat (d : pydate) : str :=
  four_digits (year d) ++ u "-" ++ two_digits (month d) ++ u "-" ++ two_digits (day d).

(** The calendar order: [a] is an earlier day than [b]. *)
Definition date_lt (a b : pydate) : Prop :=
  year a < year b
  \/ (year a = year b /\ month a < month b)
  \/ (year a = year b /\ month a = month b /\ day a < day b).

Definition date_le (a b : pydate) : Prop := date_lt a b \/ a = b.

(** ** Queries *)

(** [SELECT * FROM tasks] *)
Definition rows (tbl : table) : list TaskOut :=
  (fun kv => {| id := fst kv; task := snd kv |}) <$> map_to_list tbl.

(** [WHERE date >= ? AND date <= ?]: text compares byte-wise. *)
Definition in_window (from_date to_date : str) (r : TaskOut) : bool :=
  str_leb from_date (date (task r)) && str_leb (date (task r)) to_date.

(** [ORDER BY date] *)
Definition order_by_date (l : list TaskOut) : list TaskOut :=
  sort_by (fun a b => str_ltb (date (task a)) (date (task b))) l.

Definition get_tasks (tbl : table) : reply (list TaskOut) :=
  Ok 200 (order_by_date (rows tbl)).

Definition get_tasks_window (today : pydate) (days : Z) (tbl : table)
    : reply (list TaskOut) :=
  match add_days today (- days) with
  | None => Escapes OverflowError
  | Some from_day =>
      match add_days today days with
      | None => Escapes OverflowError
      | Some to_day =>
          let from_date := isoformat from_day in
          let to_date := isoformat to_day in
          Ok 200 (order_by_date (List.filter (in_window from_date to_date) (rows tbl)))
      end
  end.

(** ** Updates: the reply and the table afterwards *)

Definition update_task (task_id : Z) (task : TaskIn) (tbl : table)
    : reply TaskOut * table :=
  match tbl !! task_id with
  | None => (HTTPException 404, tbl)
  | Some existing =>
      let tbl' := <[task_id := task]> tbl in
      match tbl' !! task_id with
      | Some row => (Ok 200 {| id := task_id; task := row |}, tbl')
      | None => (Escapes TypeError, tbl')
      end
  end.

Definition delete_task (task_id : Z) (tbl : table) : reply deleted * table :=
  match tbl !! task_id with
  | None => (HTTPException 404, tbl)
  | Some existing =>
      (Ok 200 {| status := u "deleted"; deleted_id := task_id |}, delete task_id tbl)
  end.

(** ** Sample data *)

Definition sample_day : pydate := {| year := 2024; month := 6; day := 15 |}.

Definition sample_task (d : string) (h : string) : TaskIn :=
  {| date := u d; headline := u h; context := [] |}.

Definition sample_table : table :=
  list_to_map
    [(1%Z, sample_task "2024-06-22" "last day");
     (2%Z, sample_task "2024-06-08" "first day");
     (3%Z, sample_task "2024-06-07" "too early");
     (4%Z, sample_task "2024-06-23" "too late");
     (5%Z, sample_task "2024-06-15" "today")].

End Api.

(* ===================================================================== *)
(** * todo/cli.py: the server lifecycle *)
(* ===================================================================== *)

Module Cli.

(** What [os.kill(pid, sig)] finds. *)
Inductive probe := Delivered | NoSuchProcess | NotPermitted.

Inductive signal := SIG0 | SIGTERM | SIGKILL.

(** The part of the operating system the manager looks at: the PID file
    [api.pid] ([None] when it does not exist), the processes, and what
    [ss -tlnp sport = :port] prints ([None] when the command is missing or
    fails). *)
Record os := Os {
  pid_file : option str;
  process : Z -> probe;
  ss_output : Z -> option str;
  own_pid : Z
}.

Inductive action := Start | Stop | Restart | Status.

Record args := Args { act : action; host : str; port : Z }.

Inductive message :=
| AlreadyRunning (pid : option Z)
| PidFileMissing (port pid : Z)
| NoServerFound
| Stopped (pid : Z)
| Killed (pid : Z)
| Started (pid port : Z)
| NotResponding (pid : Z)
| Running (pid port : Z)
| NotRunning.

(** What the manager does, in order. *)
Inductive event :=
| Printed (m : message)
| PidFileWritten (text : str)
| PidFileRemoved
| Signalled (pid : Z) (sig : signal)
| Slept
| Spawned (pid : Z)
| Polled
| Served (host : str) (port : Z).

(** How the system answers what the manager does to it. *)
Class System := {
  (** the state after a signal was delivered to a process *)
  deliver : Z -> signal -> os -> os;
  (** the state after [time.sleep] *)
  elapse : os -> os;
  (** [subprocess.Popen]: the new process and the state with it *)
  spawn : os -> Z * os;
  (** whether [httpx.get] on the task list succeeds *)
  responds : os -> bool;
  (** the state when [uvicorn.run] comes back to its caller *)
  serve : str -> Z -> os -> os
}.

Section WithSystem.
Context {Sys : System}.

(** The manager's state: the system and the events so far. *)
Record state := State { sys : os; trace : list event }.

Definition M (A : Type) : Type := state -> outcome A * state.

Definition ret {A} (a : A) : M A := fun st => (Ret a, st).

Definition bind {A B} (m : M A) (k : A -> M B) : M B :=
  fun st =>
    match m st with
    | (Ret a, st') => k a st'
    | (Raise e, st') => (Raise e, st')
    | (OutOfFuel, st') => (OutOfFuel, st')
    end.

Notation "x <- m ;; k" := (bind m (fun x => k))
  (at level 100, m at next level, right associativity).

Definition emit (e : event) : M unit :=
  fun st => (Ret tt, {| sys := sys st; trace := trace st ++ [e] |}).

Definition print (m : message) : M unit := emit (Printed m).

Definition get_os : M os := fun st => (Ret (sys st), st).

Definition set_os (o : os) : M unit :=
  fun st => (Ret tt, {| sys := o; trace := trace st |}).

(** [pid_file.unlink(missing_ok=True)] *)
Definition unlink_pid_file : M unit :=
  o <- get_os ;;
  _ <- set_os (Os None (process o) (ss_output o) (own_pid o)) ;;
  emit PidFileRemoved.

(** [pid_file.write_text(text)] *)
Definition write_pid_file (text : str) : M unit :=
  o <- get_os ;;
  _ <- set_os (Os (Some text) (process o) (ss_output o) (own_pid o)) ;;
  emit (PidFileWritten text).

(** [os.kill(pid, sig)]: what it finds; a delivered signal other than the
    probe [0] acts on the system. *)
Definition os_kill (pid : Z) (sig : signal) : M probe :=
  o <- get_os ;;
  match process o pid, sig with
  | Delivered, SIG0 => ret Delivered
  | Delivered, _ =>
      _ <- set_os (deliver pid sig o) ;;
      _ <- emit (Signalled pid sig) ;;
      ret Delivered
  | found, _ => ret found
  end.

Definition sleep : M unit :=
  o <- get_os ;;
  _ <- set_os (elapse o) ;;
  emit Slept.

(** The digits at the head of [s] ([\d+], greedy). *)
Fixpoint leading_digits (s : str) : str :=
  match s with
  | c :: r => if is_digit c then c :: leading_digits r else []
  | [] => []
  end.

(** [re.search(r"pid=(\d+)", out)]: the group of the leftmost match. *)
Fixpoint search_pid (out : str) : option str :=
  match (if startswith (u "pid=") out then leading_digits (drop 4 out) else []) with
  | c :: ds => Some (c :: ds)
  | [] =>
      match out with
      | [] => None
      | _ :: r => search_pid r
      end
  end.

Definition _pid_from_port (port : Z) : M (option Z) :=
  o <- get_os ;;
  match ss_output o port with
  | None => ret None
  | Some out =>
      match search_pid out with
      | Some digits => ret (py_int digits)
      | None => ret None
      end
  end.

Definition _read_pid : M (option Z) :=
  o <- get_os ;;
  match pid_file o with
  | Some text =>
      match py_int (strip text) with
      | None => _ <- unlink_pid_file ;; ret None
      | Some pid =>
          found <- os_kill pid SIG0 ;;
          match found with
          | Delivered => ret (Some pid)
          | _ => _ <- unlink_pid_file ;; ret None
          end
      end
  | None => ret None
  end.

(** [for _ in range(n)] around the wait for the process to go away. *)
Fixpoint wait_for_exit (n : nat) (pid : Z) : M bool :=
  match n with
  | O => ret false
  | S n' =>
      _ <- sleep ;;
      found <- os_kill pid SIG0 ;;
      match found with
      | NoSuchProcess =>
          _ <- unlink_pid_file ;;
          _ <- print (Stopped pid) ;;
          ret true
      | Delivered => wait_for_exit n' pid
      | NotPermitted => fun st => (Raise OSError, st)
      end
  end.

Definition must_deliver (found : probe) : M unit :=
  match found with
  | Delivered => ret tt
  | _ => fun st => (Raise OSError, st)
  end.

Definition _stop_server (a : args) : M bool :=
  pid <- _read_pid ;;
  pid <- match pid with
         | Some p => ret (Some p)
         | None =>
             pid <- _pid_from_port (port a) ;;
             match pid with
             | Some p => _ <- print (PidFileMissing (port a) p) ;; ret (Some p)
             | None => ret None
             end
         end ;;
  match pid with
  | None => _ <- print NoServerFound ;; ret false
  | Some pid =>
      found <- os_kill pid SIGTERM ;;
      _ <- must_deliver found ;;
      gone <- wait_for_exit 10 pid ;;
      if gone then ret true
      else
        found <- os_kill pid SIGKILL ;;
        _ <- must_deliver found ;;
        _ <- unlink_pid_file ;;
        _ <- print (Killed pid) ;;
        ret true
  end.

(** [for _ in range(n)] around the wait for the server to answer. *)
Fixpoint wait_for_answer (n : nat) (a : args) (pid : Z) : M unit :=
  match n with
  | O => print (NotResponding pid)
  | S n' =>
      _ <- sleep ;;
      _ <- emit Polled ;;
      o <- get_os ;;
      if responds o then print (Started pid (port a))
      else wait_for_answer n' a pid
  end.

Definition _start_server (a : args) : M unit :=
  pid <- _read_pid ;;
  match pid with
  | Some _ =>
      again <- _read_pid ;;
      print (AlreadyRunning again)
  | None =>
      o <- get_os ;;
      _ <- set_os (snd (spawn o)) ;;
      _ <- emit (Spawned (fst (spawn o))) ;;
      wait_for_answer 15 a (fst (spawn o))
  end.

Definition _handle_serve (a : args) : M unit :=
  match act a with
  | Start =>
      pid <- _read_pid ;;
      match pid with
      | Some _ =>
          again <- _read_pid ;;
          print (AlreadyRunning again)
      | None =>
          o <- get_os ;;
          _ <- write_pid_file (str_of_Z (own_pid o)) ;;
          o <- get_os ;;
          _ <- set_os (serve (host a) (port a) o) ;;
          _ <- emit (Served (host a) (port a)) ;;
          unlink_pid_file
      end
  | Stop => _ <- _stop_server a ;; ret tt
  | Restart =>
      _ <- _stop_server a ;;
      _ <- sleep ;;
      _start_server a
  | Status =>
      pid <- _read_pid ;;
      pid <- match pid with
             | Some p => if (p =? 0)%Z then _pid_from_port (port a) else ret (Some p)
             | None => _pid_from_port (port a)
             end ;;
      match pid with
      | Some p => if (p =? 0)%Z then print NotRunning else print (Running p (port a))
      | None => print NotRunning
      end
  end.

End WithSystem.

(** A system without PID file on which a process 4242, started by other
    means, listens on port 8001. *)
Definition foreign_server : os :=
  {| pid_file := None;
     process := fun pid => if (pid =? 4242)%Z then Delivered else NoSuchProcess;
     ss_output := fun port =>
       if (port =? 8001)%Z
       then Some (u "LISTEN 0 2048 0.0.0.0:8001 0.0.0.0:* users:((python,pid=4242,fd=6))")
       else Some [];
     own_pid := 777 |}.

(** A system whose PID file names a live process. *)
Definition tracked_server : os :=
  {| pid_file := Some (u "4242");
     process := fun pid => if (pid =? 4242)%Z then Delivered else NoSuchProcess;
     ss_output := fun port => Some [];
     own_pid := 777 |}.

End Cli.

(* ===================================================================== *)
(** * todo/settings.py *)
(* ===================================================================== *)

Module Settings.

(** Python objects.  Dictionaries are mutable and live in a store; a value
    names a dictionary by its address, so that two values may share one.
    The other values are never updated in place by this module. *)
Abbreviation loc := nat.

Inductive value :=
| VNull
| VBool (b : bool)
| VInt (z : Z)
| VFloat (nonzero : bool) (lit : str)
| VStr (s : str)
| VList (l : list value)
| VDict (l : loc).

(** The store: the dictionaries by address, and the next free address. *)
Record heap := Heap { objs : gmap loc (list (str * value)); next : loc }.

Definition alloc (d : list (str * value)) (h : heap) : loc * heap :=
  (next h, {| objs := <[next h := d]> (objs h); next := S (next h) |}).

Definition store (l : loc) (d : list (str * value)) (h : heap) : heap :=
  {| objs := <[l := d]> (objs h); next := next h |}.

(** [json.load]: the document becomes fresh objects in the store.  The
    elements of a list, and the values of a dict from left to right, are
    loaded one after the other by [load]. *)
Definition load_list (load : json -> heap -> value * heap)
    : list json -> heap -> list value * heap :=
  fix go (l : list json) (h : heap) : list value * heap :=
    match l with
    | [] => ([], h)
    | x :: r =>
        let '(v, h1) := load x h in
        let '(vs, h2) := go r h1 in
        (v :: vs, h2)
    end.

Definition load_items (load : json -> heap -> value * heap)
    : list (str * json) -> list (str * value) -> heap -> list (str * value) * heap :=
  fix go (d : list (str * json)) (acc : list (str * value)) (h : heap)
    : list (str * value) * heap :=
    match d with
    | [] => (acc, h)
    | (k, x) :: r =>
        let '(v, h1) := load x h in
        go r (dict_set k v acc) h1
    end.

Fixpoint load_json (j : json) (h : heap) : value * heap :=
  match j with
  | JNull => (VNull, h)
  | JBool b => (VBool b, h)
  | JInt z => (VInt z, h)
  | JFloat nz lit => (VFloat nz lit, h)
  | JStr s => (VStr s, h)
  | JArr l =>
      let '(vs, h') := load_list load_json l h in
      (VList vs, h')
  | JObj d =>
      let '(items, h') := load_items load_json d [] h in
      let '(l, h'') := alloc items h' in
      (VDict l, h'')
  end.

(** The module-level [DEFAULTS]: the outer dictionary at address 1, the
    dictionary of ["server"] at address 0. *)
Definition DEFAULTS : loc := 1%nat.

Definition server_defaults : list (str * value) :=
  [(u "host", VStr (u "0.0.0.0")); (u "port", VInt 8001)].

Definition initial_heap : heap :=
  {| objs := <[1%nat := [(u "server", VDict 0%nat)]]> (<[0%nat := server_defaults]> ∅);
     next := 2%nat |}.

(** The comprehension of [_deep_copy_dict] over the items of [d], filling
    the new dictionary [acc] from left to right; [copy] is the recursive
    call. *)
Fixpoint copy_items (copy : loc -> heap -> outcome loc * heap)
    (items acc : list (str * value)) (h : heap)
    : outcome (list (str * value)) * heap :=
  match items with
  | [] => (Ret acc, h)
  | (k, v) :: rest =>
      match v with
      | VDict l =>
          match copy l h with
          | (Ret l', h1) => copy_items copy rest (dict_set k (VDict l') acc) h1
          | (Raise e, h1) => (Raise e, h1)
          | (OutOfFuel, h1) => (OutOfFuel, h1)
          end
      | _ => copy_items copy rest (dict_set k v acc) h
      end
  end.

(** [_deep_copy_dict(d)]; [fuel] bounds the depth of the recursion. *)
Fixpoint _deep_copy_dict (fuel : nat) (d : loc) (h : heap) : outcome loc * heap :=
  match fuel with
  | O => (OutOfFuel, h)
  | S fuel' =>
      match objs h !! d with
      | None => (Raise RuntimeError, h)
      | Some items =>
          match copy_items (_deep_copy_dict fuel') items [] h with
          | (Ret items', h') =>
              let '(l, h'') := alloc items' h' in (Ret l, h'')
          | (Raise e, h') => (Raise e, h')
          | (OutOfFuel, h') => (OutOfFuel, h')
          end
      end
  end.

(** The loop of [_deep_merge] over the items of [override]; [merge] is the
    recursive call.  [base] is read from the store at every step, since the
    loop updates it. *)
Fixpoint merge_items (merge : loc -> value -> heap -> outcome unit * heap)
    (base : loc) (items : list (str * value)) (h : heap) : outcome unit * heap :=
  match items with
  | [] => (Ret tt, h)
  | (k, v) :: rest =>
      match objs h !! base with
      | None => (Raise RuntimeError, h)
      | Some b =>
          match assoc k b, v with
          | Some (VDict bk), VDict _ =>
              match merge bk v h with
              | (Ret _, h') => merge_items merge base rest h'
              | other => other
              end
          | _, _ => merge_items merge base rest (store base (dict_set k v b) h)
          end
      end
  end.

(** [_deep_merge(base, override)]; [fuel] bounds the depth of the
    recursion.  Only a dictionary has [items()]. *)
Fixpoint _deep_merge (fuel : nat) (base : loc) (override : value) (h : heap)
    : outcome unit * heap :=
  match fuel with
  | O => (OutOfFuel, h)
  | S fuel' =>
      match override with
      | VDict o =>
          match objs h !! o with
          | None => (Raise RuntimeError, h)
          | Some items => merge_items (_deep_merge fuel') base items h
          end
      | _ => (Raise AttributeError, h)
      end
  end.

(** The settings file: [None] when the path does not exist, else the
    exception of opening or decoding it, or the decoded document. *)
Definition settings_file := option (exn + json).

Definition load_settings (fuel : nat) (file : settings_file) (h : heap)
    : outcome loc * heap :=
  match _deep_copy_dict fuel DEFAULTS h with
  | (Ret settings, h1) =>
      match file with
      | None => (Ret settings, h1)
      | Some (inl e) => (Raise e, h1)
      | Some (inr j) =>
          let '(override, h2) := load_json j h1 in
          match _deep_merge fuel settings override h2 with
          | (Ret _, h3) => (Ret settings, h3)
          | (Raise e, h3) => (Raise e, h3)
          | (OutOfFuel, h3) => (OutOfFuel, h3)
          end
      end
  | (Raise e, h1) => (Raise e, h1)
  | (OutOfFuel, h1) => (OutOfFuel, h1)
  end.

(** A sequence of calls, one after the other on the same store. *)
Definition load_many (fuel : nat) (files : list settings_file) (h : heap) : heap :=
  fold_left (fun h file => snd (load_settings fuel file h)) files h.

(** The structure a value stands for: dictionaries read from the store,
    down to depth [fuel]. *)
Fixpoint structure (fuel : nat) (h : heap) (v : value) : option json :=
  match fuel with
  | O => None
  | S fuel' =>
      match v with
      | VNull => Some JNull
      | VBool b => Some (JBool b)
      | VInt z => Some (JInt z)
      | VFloat nz lit => Some (JFloat nz lit)
      | VStr s => Some (JStr s)
      | VList l => JArr <$> mapM (structure fuel' h) l
      | VDict l =>
          items ← objs h !! l;
          JObj <$> mapM (fun kv => pair (fst kv) <$> structure fuel' h (snd kv)) items
      end
  end.

(** Every dictionary of the store lies below the next free address. *)
Definition wf (h : heap) : Prop :=
  forall l items, objs h !! l = Some items -> (l < next h)%nat.

(** From address [n] on, the dictionaries hold, as values of their own
    keys, only dictionaries from address [n] on. *)
Definition closed_above (n : loc) (h : heap) : Prop :=
  forall l items k l',
    (n <= l)%nat -> objs h !! l = Some items -> In (k, VDict l') items -> (n <= l')%nat.

(** The dictionaries below address [n] are the same in [h] and [h']. *)
Definition same_below (n : loc) (h h' : heap) : Prop :=
  forall l, (l < n)%nat -> objs h' !! l = objs h !! l.

(** [DEFAULTS] and its inner dictionary are as the module defines them. *)
Definition defaults_intact (h : heap) : Prop :=
  objs h !! DEFAULTS = Some [(u "server", VDict 0%nat)]
  /\ objs h !! 0%nat = Some server_defaults.

(** [{"server": {"host": "0.0.0.0", "port": 8001}}] *)
Definition defaults_document : json :=
  JObj [(u "server", JObj [(u "host", JStr (u "0.0.0.0")); (u "port", JInt 8001)])].

End Settings.

(* ===================================================================== *)
(** * Shapes of texts, used to state properties of the parsers *)
(* ===================================================================== *)

Module Shapes.
Import Joplin.

(** A field as [parse_tasks] hands it back: trimmed, without the separator
    [;] and without a line boundary. *)
Definition clean_field (f : str) : bool :=
  str_eqb (strip f) f
  && forallb (fun c => negb (c =? 59) && negb (is_linebreak c)) f.

(** An entry [parse_tasks] can return: clean fields, a date and a headline
    that are not empty, and a date that does not open a comment. *)
Definition clean_entry (e : entry) : bool :=
  clean_field (date e) && clean_field (headline e) && clean_field (context e)
  && negb (is_empty (date e)) && negb (is_empty (headline e))
  && negb (startswith (u "#") (date e)).

(** The line [date;headline;context] of an entry. *)
Definition task_line (e : entry) : str :=
  date e ++ [59] ++ headline e ++ [59] ++ context e.

(** A line with nothing but white space: [not line.strip()]. *)
Definition blank (l : str) : bool := is_empty (strip l).

(** The lines of a body; an empty body has none. *)
Definition body_lines (b : str) : list str :=
  if is_empty b then [] else split_on LF b.

(** The item of the example text [example_item_text]. *)
Definition example_item : item :=
  {| title := u "Title";
     body := u "Body line";
     item_type := 0;
     item_id := u "0123456789abcdef0123456789abcdef";
     parent_id := [];
     metadata_lines := [u "id: 0123456789abcdef0123456789abcdef"; u "updated_time: X"] |}.

End Shapes.

(* ===================================================================== *)
(** * What a run adds to the trace *)
(* ===================================================================== *)

Module Traces.
Import Joplin.

(** The requests among the events of a trace, in order. *)
Definition requests (evs : list event) : list request :=
  omap (fun e => match e with Sent r => Some r | Printed _ => None end) evs.

(** The events of a read: messages, and requests with the method GET. *)
Definition reads_only (evs : list event) : Prop :=
  Forall (fun e => match e with
                   | Sent r => method r = u "GET"
                   | Printed _ => True
                   end) evs.

(** The events of the posting loop: messages, and POST requests to the
    task list of the API at [api_base]. *)
Definition posts_only (api_base : str) (evs : list event) : Prop :=
  Forall (fun e => match e with
                   | Sent r => method r = u "POST" /\ url r = api_base ++ u "/tasks"
                   | Printed _ => True
                   end) evs.

(** The events of clearing a note: the text is read and, unless that
    fails, written back to the same place. *)
Definition read_then_write (evs : list event) : Prop :=
  (exists g, evs = [Sent g] /\ method g = u "GET")
  \/ (exists g p, evs = [Sent g; Sent p]
                  /\ method g = u "GET" /\ method p = u "PUT" /\ url p = url g).

(** The events up to the fetch of the body: no request at all, or the
    login followed by reads. *)
Definition login_then_reads (evs : list event) : Prop :=
  requests evs = []
  \/ exists (login : request) (rest : list event),
       evs = Sent login :: rest
       /\ method login = u "POST" /\ endswith (u "/api/sessions") (url login) = true
       /\ reads_only rest.

Section WithPlatform.
Context {W : Type} {P : Platform W}.

(** Every run of [m] adds to the trace events that satisfy [Q]. *)
Definition emits {A} (Q : list event -> Prop) (m : M (W := W) A) : Prop :=
  forall (st st' : state) (o : outcome A),
    m st = (o, st') -> exists evs, trace st' = trace st ++ evs /\ Q evs.



(** The url of the listing of all items. *)
Definition listing_url (base_url : json) : str :=
  fstr base_url ++ u "/api/items/root:/:/children".

(** An item of a listing as the scan expects it: a dict whose name, if it
    has one, is a string. *)
Definition named_item (it : json) : bool :=
  match it with
  | JObj d => match assoc (u "name") d with
              | Some (JStr _) | None => true
              | Some _ => false
              end
  | _ => false
  end.

(** The name of an item of a listing, [""] without one. *)
Definition item_name_of (it : json) : str :=
  match it with
  | JObj d => match assoc (u "name") d with
              | Some (JStr name) => name
              | _ => []
              end
  | _ => []
  end.

(** The request for the content of the item [name]. *)
Definition content_request (base_url token host : json) (name : str) : request :=
  Request (content_url base_url name) (u "GET") None
    (if truthy host then dict_set (u "Host") (fstr host) (_cookie_headers token)
     else _cookie_headers token) 15.

(** The request for the first page of the listing, and for every page
    asked for without a cursor. *)
Definition listing_request (base_url token host : json) : request :=
  Request (listing_url base_url) (u "GET") None
    (if truthy host then dict_set (u "Host") (fstr host) (_cookie_headers token)
     else _cookie_headers token) 15.

(** A server that, whatever its state, answers the request for the
    listing with a page that announces more pages and gives no cursor. *)
Definition more_without_cursor (base_url token host : json) : Prop :=
  forall w : W,
    exists (resp : response) (w' : W) (data : list (str * json)) (page : list json),
      urlopen (listing_request base_url token host) w = (inr resp, w')
      /\ loads_bytes (content resp) = Ret (JObj data)
      /\ iterate (default (JArr []) (assoc (u "items") data)) = Ret page
      /\ truthy (default JNull (assoc (u "has_more") data)) = true
      /\ truthy (default (JStr []) (assoc (u "cursor") data)) = false.

(** The names of a listing that the scan looks at. *)
Definition md_names (items : list json) : list str :=
  List.filter (endswith (u ".md")) (List.map item_name_of items).

(** The request of the posting loop for one task. *)
Definition task_request (api_base : str) (task : entry) : request :=
  Request (api_base ++ u "/tasks") (u "POST")
    (Some (utf8_encode (json_dumps (task_json task))))
    [(u "Content-Type", u "application/json")] 10.

End WithPlatform.

(** A run of the pipeline on the small note server whose note holds one
    task. *)
Definition good_run : outcome Z * state (W := Demo.store) :=
  load_from_joplin (P := Demo.platform Demo.good_world) 5 [u "data"] Demo.api
    (Demo.start Demo.good_world).


(** A server that answers every request with the same page: one item,
    more to come, no cursor. *)
Definition endless_page : json :=
  JObj [(u "items", JArr [JObj [(u "name", JStr (u "a.md"))]]);
        (u "has_more", JBool true)].

Definition endless_server : Platform unit :=
  {| urlopen := fun _ w => (inr (Response 200 (Demo.dumps endless_page)), w);
     read_text := fun _ _ => None;
     utcnow := fun _ => UtcTime 2024 1 2 3 4 5;
     json_loads := Demo.loads [endless_page];
     json_dumps := Demo.dumps;
     utf8_decode := fun b => Some b;
     utf8_encode := fun s => s;
     format_value := Demo.dumps |}.

End Traces.

(* ===================================================================== *)
(** * todo/api.py: creating tasks *)
(* ===================================================================== *)

Module Db.
Import Api.

(** The database file: the table [tasks] and, since its key is declared
    [INTEGER PRIMARY KEY AUTOINCREMENT], the entry of [sqlite_sequence]
    for it, the largest row id the table has ever held (0 before the first
    row). *)
Record db := { tasks : table; seq : Z }.

(** The largest row id in the table, 0 for an empty one. *)
Definition largest_id (tbl : table) : Z := foldr Z.max 0%Z (fst <$> map_to_list tbl).

(** The largest row id of SQLite. *)
Definition max_rowid : Z := 9223372036854775807.

(** What [create_task] comes to: the new row with status 201, the error
    of SQLite for a table whose row ids are used up, or an exception of
    the handler itself; both leave the handler unhandled. *)
Inductive created :=
| Created (status_code : Z) (row : TaskOut)
| DatabaseFull
| Fails (e : exn).

(** [INSERT INTO tasks (date, headline, context) VALUES (?, ?, ?)],
    [commit], and the row selected by [cur.lastrowid].  The new row id is
    one more than the largest id the table has ever held. *)
Definition create_task (task : TaskIn) (d : db) : created * db :=
  let top := Z.max (seq d) (largest_id (tasks d)) in
  if (max_rowid <=? top)%Z then (DatabaseFull, d)
  else
    let lastrowid := (top + 1)%Z in
    let tbl := <[lastrowid := task]> (tasks d) in
    match tbl !! lastrowid with
    | Some row => (Created 201 {| id := lastrowid; task := row |},
                   {| tasks := tbl; seq := lastrowid |})
    | None => (Fails TypeError, {| tasks := tbl; seq := lastrowid |})
    end.

(** The requests that change the table, and a server that handles them
    one after the other: the ids of the rows created, in order, and the
    database at the end. *)
Inductive change :=
| Create (task : TaskIn)
| Update (task_id : Z) (task : TaskIn)
| Delete (task_id : Z).

Definition handle (c : change) (d : db) : option Z * db :=
  match c with
  | Create task =>
      match create_task task d with
      | (Created _ row, d') => (Some (id row), d')
      | (_, d') => (None, d')
      end
  | Update task_id task =>
      (None, {| tasks := snd (update_task task_id task (tasks d)); seq := seq d |})
  | Delete task_id =>
      (None, {| tasks := snd (delete_task task_id (tasks d)); seq := seq d |})
  end.

Fixpoint handle_all (cs : list change) (d : db) : list Z * db :=
  match cs with
  | [] => ([], d)
  | c :: rest =>
      let '(new, d1) := handle c d in
      let '(ids, d') := handle_all rest d1 in
      (option_list new ++ ids, d')
  end.

(** A database as SQLite keeps it: no row id above the recorded
    sequence. *)
Definition consistent (d : db) : Prop :=
  forall k t, tasks d !! k = Some t -> (k <= seq d)%Z.

(** A new database, before the first request. *)
Definition new_db : db := {| tasks := ∅; seq := 0 |}.

End Db.

(* ===================================================================== *)
(** * The server lifecycle: states and traces *)
(* ===================================================================== *)

Module Lifecycle.
Import Cli.

(** The system without its PID file, and with the PID file that
    [serve start] writes: the decimal numeral of the manager's own pid. *)
Definition without_pid_file (o : os) : os :=
  Os None (process o) (ss_output o) (own_pid o).

Definition with_own_pid_file (o : os) : os :=
  Os (Some (str_of_Z (own_pid o))) (process o) (ss_output o) (own_pid o).


Section WithSystem.
Context {Sys : System}.


End WithSystem.

(** A system whose process 4242 ignores SIGTERM and goes away on SIGKILL,
    and one whose process goes away on SIGTERM. *)
Definition stubborn : System :=
  {| deliver := fun pid sig o =>
       match sig with
       | SIGKILL => Os (pid_file o) (fun _ => NoSuchProcess) (ss_output o) (own_pid o)
       | _ => o
       end;
     elapse := fun o => o;
     spawn := fun o => (4243%Z, o);
     responds := fun _ => true;
     serve := fun _ _ o => o |}.

Definition obedient : System :=
  {| deliver := fun pid sig o =>
       Os (pid_file o) (fun _ => NoSuchProcess) (ss_output o) (own_pid o);
     elapse := fun o => o;
     spawn := fun o => (4243%Z, o);
     responds := fun _ => true;
     serve := fun _ _ o => o |}.

(** A system without PID file and without server, where only the manager
    itself, process 777, runs. *)
Definition idle : os :=
  {| pid_file := None;
     process := fun pid => if (pid =? 777)%Z then Delivered else NoSuchProcess;
     ss_output := fun _ => Some [];
     own_pid := 777 |}.

End Lifecycle.

(* ===================================================================== *)
(** * Settings as documents *)
(* ===================================================================== *)

Module Documents.
Import Settings.

(** The document as [json.load] holds it: of the members of an object that
    have the same key, the last value, at the place of the first. *)
Fixpoint decoded (j : json) : json :=
  match j with
  | JArr l => JArr (List.map decoded l)
  | JObj d =>
      JObj (fold_left (fun acc kx => dict_set (fst kx) (decoded (snd kx)) acc) d [])
  | _ => j
  end.

(** What [base] holds after [_deep_merge(base, override)], on documents:
    for every member of [override] in turn, a dict is merged into the dict
    that [base] has under the key, and any other value replaces what
    [base] has under the key or is added last. *)
Fixpoint deep_merged (override : json) (base : list (str * json)) : list (str * json) :=
  match override with
  | JObj o =>
      fold_left
        (fun base kv =>
           match assoc (fst kv) base, snd kv with
           | Some (JObj bk), JObj _ =>
               dict_set (fst kv) (JObj (deep_merged (snd kv) bk)) base
           | _, _ => dict_set (fst kv) (snd kv) base
           end) o base
  | _ => base
  end.

Definition merged_document (base override : json) : json :=
  match base with
  | JObj b => JObj (deep_merged override b)
  | _ => base
  end.

(** A settings file that moves the port and adds a key. *)
Definition sample_file : json :=
  JObj [(u "server", JObj [(u "port", JInt 9000)]); (u "debug", JBool true)].

End Documents.
(* ===================================================================== *)
(** * Properties of the task parser *)
(* ===================================================================== *)

Module ParserFacts.
Import Joplin.

Lemma parse_tasks_step_app (entries : list entry) (line : str) :
  parse_tasks_step entries line
  = entries ++ (if is_task_line line
                then option_list (entry_of_fields (fields_of line)) else []).
Proof.
  unfold parse_tasks_step, is_task_line, fields_of.
  destruct (is_empty (strip line)); cbn [orb negb andb];
    [now rewrite app_nil_r|].
  destruct (startswith (u "#") (strip line)); cbn [orb negb andb];
    [now rewrite app_nil_r|].
  destruct (List.map strip (split_on 59 (strip line))) as [|d [|h rest]];
    cbn [length Nat.ltb Nat.leb nth entry_of_fields option_list];
    try now rewrite app_nil_r.
  destruct (is_empty d || is_empty h); cbn [option_list];
    [now rewrite app_nil_r|].
  now destruct rest.
Qed.

Lemma parse_tasks_fold (lines : list str) (entries : list entry) :
  fold_left parse_tasks_step lines entries
  = entries ++ omap entry_of_fields (List.map fields_of (List.filter is_task_line lines)).
Proof.
  revert entries; induction lines as [|l lines IH]; intros entries; simpl.
  - now rewrite app_nil_r.
  - rewrite IH, parse_tasks_step_app.
    destruct (is_task_line l); simpl.
    + destruct (entry_of_fields (fields_of l)); simpl.
      * now rewrite <- app_assoc.
      * now rewrite app_nil_r.
    + now rewrite app_nil_r.
Qed.

Lemma entry_of_fields_nonempty (fields : list str) (e : entry) :
  entry_of_fields fields = Some e -> date e <> [] /\ headline e <> [].
Proof.
  destruct fields as [|d [|h rest]]; simpl; try discriminate.
  destruct d, h; simpl; try discriminate; intros [= <-]; simpl; split; discriminate.
Qed.

(** C1: [parse_tasks] returns exactly the entries of the task lines as the
    specification describes them (each line that after trimming is
    non-empty and does not start with [#], split on [;] with every field
    trimmed, kept when it has a non-empty date and headline, with the third
    field or the empty string as context); every entry has a non-empty date
    and headline; and the three examples of the specification evaluate as
    stated. *)
Theorem parse_tasks_meets_spec :
  (forall text : str, parse_tasks text = parse_tasks_spec text)
  /\ (forall (text : str) (e : entry),
        In e (parse_tasks text) -> date e <> [] /\ headline e <> [])
  /\ parse_tasks (u "2024-01-01;Buy milk" ++ [LF] ++ u "2024-01-02;Call bank;home")
     = [Entry (u "2024-01-01") (u "Buy milk") [];
        Entry (u "2024-01-02") (u "Call bank") (u "home")]
  /\ parse_tasks (u "bad line no semicolon") = []
  /\ parse_tasks (u ";headline") = [].
Proof.
  assert (Hspec : forall text, parse_tasks text = parse_tasks_spec text).
  { intros text. unfold parse_tasks, parse_tasks_spec. now rewrite parse_tasks_fold. }
  split; [exact Hspec|]. split; [|repeat split; vm_compute; reflexivity].
  intros text e. rewrite Hspec. unfold parse_tasks_spec.
  generalize (List.map fields_of (List.filter is_task_line (splitlines text))).
  intros l; induction l as [|f l IH]; simpl; [tauto|].
  destruct (entry_of_fields f) eqn:Hf; simpl; [|exact IH].
  intros [<-|Hin]; [now apply entry_of_fields_nonempty with f|now apply IH].
Qed.

End ParserFacts.
(* ===================================================================== *)
(** * Facts about the string operations *)
(* ===================================================================== *)

Module StrFacts.

Lemma split_on_single (sep : char) (s : str) :
  forallb (fun c => negb (c =? sep)) s = true -> split_on sep s = [s].
Proof.
  induction s as [|c s IH]; cbn [forallb split_on]; intros H; [reflexivity|].
  apply andb_prop in H as [Hc Hs].
  destruct (c =? sep); [discriminate|]. now rewrite IH.
Qed.

Lemma split_on_app (sep : char) (a b : str) :
  forallb (fun c => negb (c =? sep)) a = true ->
  split_on sep (a ++ sep :: b) = a :: split_on sep b.
Proof.
  induction a as [|c a IH]; cbn [forallb split_on app]; intros H.
  - now rewrite N.eqb_refl.
  - apply andb_prop in H as [Hc Ha].
    destruct (c =? sep); [discriminate|]. now rewrite IH.
Qed.

Lemma join_cons2 (sep l l' : str) (ls : list str) :
  join sep (l :: l' :: ls) = l ++ sep ++ join sep (l' :: ls).
Proof. reflexivity. Qed.

Lemma join_app (sep : str) (a b : list str) :
  a <> [] -> b <> [] -> join sep (a ++ b) = join sep a ++ sep ++ join sep b.
Proof.
  intros Ha Hb. induction a as [|l a IH]; [congruence|].
  destruct a as [|l' a].
  - destruct b as [|l' b]; [congruence|]. reflexivity.
  - change ((l :: l' :: a) ++ b) with (l :: l' :: (a ++ b)).
    rewrite !join_cons2. change (l' :: a ++ b) with ((l' :: a) ++ b).
    rewrite IH by discriminate. now rewrite <- !app_assoc.
Qed.

Lemma split_on_join (sep : char) (ls : list str) :
  ls <> [] ->
  forallb (forallb (fun c => negb (c =? sep))) ls = true ->
  split_on sep (join [sep] ls) = ls.
Proof.
  induction ls as [|l ls IH]; [congruence|]. intros _ H.
  cbn [forallb] in H. apply andb_prop in H as [Hl Hls].
  destruct ls as [|l' ls].
  - now apply split_on_single.
  - rewrite join_cons2. cbn [app]. rewrite split_on_app by assumption.
    now rewrite IH.
Qed.

Lemma rstrip_by_keep (p : char -> bool) (s : str) (c : char) :
  p c = false -> rstrip_by p (s ++ [c]) = s ++ [c].
Proof.
  intros Hc. unfold rstrip_by. rewrite rev_app_distr. cbn [rev app lstrip_by].
  rewrite Hc. cbn [rev]. now rewrite rev_involutive.
Qed.

Lemma rstrip_by_drop (p : char -> bool) (s : str) (c : char) :
  p c = true -> rstrip_by p (s ++ [c]) = rstrip_by p s.
Proof.
  intros Hc. unfold rstrip_by. rewrite rev_app_distr. cbn [rev app lstrip_by].
  now rewrite Hc.
Qed.

Lemma forallb_last {A} (p : A -> bool) (l : list A) (x : A) :
  forallb p (l ++ [x]) = true -> p x = true.
Proof.
  rewrite forallb_app. cbn [forallb]. intros H.
  apply andb_prop in H as [_ H]. now apply andb_prop in H as [H _].
Qed.

(** A text whose last line is not empty does not end with a line feed. *)
Lemma join_ends (ls : list str) :
  ls <> [] -> List.last ls [] <> [] -> single_line (List.last ls []) = true ->
  exists (t : str) (c : char), join [LF] ls = t ++ [c] /\ (LF =? c) = false.
Proof.
  intros Hls Hlast Hsingle.
  destruct (exists_last Hls) as (pre & l & ->).
  rewrite last_last in Hlast, Hsingle.
  destruct (exists_last Hlast) as (l0 & c & ->).
  apply forallb_last in Hsingle.
  assert (Hc : (LF =? c) = false).
  { rewrite N.eqb_sym. now destruct (c =? LF). }
  destruct pre as [|p pre].
  - exists l0, c. now split.
  - exists (join [LF] (p :: pre) ++ [LF] ++ l0), c. split; [|exact Hc].
    rewrite join_app by discriminate. cbn [join]. now rewrite <- !app_assoc.
Qed.

Lemma drop_past {A} (a : list A) (x : A) (b : list A) :
  drop (S (length a)) (a ++ x :: b) = b.
Proof. induction a as [|y a IH]; [reflexivity|exact IH]. Qed.

Lemma nth_middle' {A} (a : list A) (x d : A) (b : list A) :
  nth (length a) (a ++ x :: b) d = x.
Proof. induction a as [|y a IH]; [reflexivity|exact IH]. Qed.

Lemma nth_last {A} (x d : A) (l : list A) :
  nth (length l) (x :: l) d = List.last (x :: l) d.
Proof.
  revert x; induction l as [|y l IH]; intros x; [reflexivity|].
  change (nth (length (y :: l)) (x :: y :: l) d) with (nth (length l) (y :: l) d).
  rewrite IH. reflexivity.
Qed.

End StrFacts.
(* ===================================================================== *)
(** * The sync-item format: parsing and rebuilding *)
(* ===================================================================== *)

Module ItemFacts.
Import Joplin StrFacts.

Lemma body_start_loop_step n lines ms bs :
  body_start_loop (S n) lines ms bs
  = if (bs <? ms)%nat && is_empty (strip (nth bs lines []))
    then body_start_loop n lines ms (bs + 1) else bs.
Proof. reflexivity. Qed.

Lemma body_end_loop_step n lines bs be :
  body_end_loop (S n) lines bs be
  = if (bs <? be)%nat && is_empty (strip (nth (be - 1) lines []))
    then body_end_loop n lines bs (be - 1) else be.
Proof. reflexivity. Qed.

(** The bound on the iterations is never what stops the first loop: with
    the length of [lines] as bound it ends because its condition fails. *)
Lemma body_start_loop_exit (n : nat) (lines : list str) (ms bs : nat) :
  (ms <= bs + n)%nat ->
  let r := body_start_loop n lines ms bs in
  ((r <? ms)%nat && is_empty (strip (nth r lines []))) = false.
Proof.
  revert bs; induction n as [|n IH]; intros bs Hn; cbn zeta.
  - cbn [body_start_loop]. replace (bs <? ms)%nat with false; [reflexivity|].
    symmetry. apply Nat.ltb_ge. lia.
  - rewrite body_start_loop_step.
    destruct ((bs <? ms)%nat && is_empty (strip (nth bs lines []))) eqn:Hc.
    + apply IH. lia.
    + exact Hc.
Qed.

Lemma body_end_loop_exit (n : nat) (lines : list str) (bs be : nat) :
  (be <= bs + n)%nat ->
  let r := body_end_loop n lines bs be in
  ((bs <? r)%nat && is_empty (strip (nth (r - 1) lines []))) = false.
Proof.
  revert be; induction n as [|n IH]; intros be Hn; cbn zeta.
  - cbn [body_end_loop]. replace (bs <? be)%nat with false; [reflexivity|].
    symmetry. apply Nat.ltb_ge. lia.
  - rewrite body_end_loop_step.
    destruct ((bs <? be)%nat && is_empty (strip (nth (be - 1) lines []))) eqn:Hc.
    + apply IH. lia.
    + exact Hc.
Qed.

Lemma find_id_line_skip (i : nat) (pre rest : list str) :
  forallb (fun l => negb (is_id_line l)) pre = true ->
  find_id_line i (pre ++ rest) = find_id_line (i + length pre) rest.
Proof.
  revert i; induction pre as [|l pre IH]; intros i H; cbn [app length].
  - now rewrite Nat.add_0_r.
  - cbn [forallb] in H. apply andb_prop in H as [Hl Hpre].
    cbn [find_id_line]. destruct (is_id_line l); [discriminate|].
    rewrite IH by assumption. f_equal. lia.
Qed.

Lemma strip_nil : strip [] = [].
Proof. reflexivity. Qed.

Lemma is_id_line_nil : is_id_line [] = false.
Proof. reflexivity. Qed.

(** The parse of an item whose lines are a title, a blank line, a body, a
    blank line and a metadata block. *)
Lemma parse_of_lines (content title : str) (body_lines meta_lines : list str) (ty : Z) :
  split_on LF (rstrip_by (N.eqb LF) content)
    = title :: [] :: body_lines ++ [] :: meta_lines ->
  is_empty (strip (hd [] body_lines)) = false ->
  is_empty (strip (List.last body_lines [])) = false ->
  forallb (fun l => negb (is_id_line l)) body_lines = true ->
  is_id_line (hd [] meta_lines) = true ->
  py_int (type_field (metadata_of meta_lines)) = Some ty ->
  _parse_joplin_item content
  = Ret {| Joplin.title := title;
           body := join [LF] body_lines;
           item_type := ty;
           item_id := meta_get (metadata_of meta_lines) "id" "";
           parent_id := meta_get (metadata_of meta_lines) "parent_id" "";
           metadata_lines := meta_lines |}.
Proof.
  intros Hlines Hfirst Hlast Hbody Hid Hty.
  destruct body_lines as [|b0 bl]; [discriminate|].
  destruct meta_lines as [|idl ml]; [discriminate|].
  cbn [hd] in Hfirst, Hid.
  unfold _parse_joplin_item. rewrite Hlines.
  assert (Hms : find_metadata_start (title :: [] :: (b0 :: bl) ++ [] :: idl :: ml)
                = S (S (S (length (b0 :: bl))))).
  { unfold find_metadata_start. cbn [tail find_id_line]. rewrite is_id_line_nil.
    rewrite find_id_line_skip by assumption.
    cbn [find_id_line]. rewrite is_id_line_nil, Hid. reflexivity. }
  rewrite Hms.
  assert (Hdrop : drop (S (S (S (length (b0 :: bl)))))
                    (title :: [] :: (b0 :: bl) ++ [] :: idl :: ml) = idl :: ml).
  { change (drop (S (length (b0 :: bl))) ((b0 :: bl) ++ [] :: idl :: ml) = idl :: ml).
    apply drop_past. }
  rewrite Hdrop, Hty.
  assert (Hbs : body_start_loop (length (title :: [] :: (b0 :: bl) ++ [] :: idl :: ml))
                  (title :: [] :: (b0 :: bl) ++ [] :: idl :: ml)
                  (S (S (S (length (b0 :: bl))))) 1 = 2%nat).
  { cbn [length app]. rewrite body_start_loop_step.
    cbn [nth Nat.ltb Nat.leb]. rewrite strip_nil. cbn [is_empty andb Nat.add].
    rewrite body_start_loop_step. cbn [nth Nat.ltb Nat.leb].
    rewrite Hfirst. reflexivity. }
  rewrite Hbs.
  assert (Hbe : body_end_loop (length (title :: [] :: (b0 :: bl) ++ [] :: idl :: ml))
                  (title :: [] :: (b0 :: bl) ++ [] :: idl :: ml) 2
                  (S (S (S (length (b0 :: bl))))) = S (S (length (b0 :: bl)))).
  { cbn [length app]. rewrite body_end_loop_step.
    replace (nth (S (S (S (S (length bl)))) - 1)
               (title :: [] :: b0 :: bl ++ [] :: idl :: ml) [])
      with (@nil char).
    2:{ replace (S (S (S (S (length bl)))) - 1)%nat with (S (S (S (length bl)))) by lia.
        change (nth (S (S (S (length bl)))) (title :: [] :: b0 :: bl ++ [] :: idl :: ml) [])
          with (nth (length (b0 :: bl)) ((b0 :: bl) ++ [] :: idl :: ml) []).
        now rewrite nth_middle'. }
    rewrite strip_nil. cbn [is_empty andb Nat.ltb Nat.leb].
    rewrite body_end_loop_step.
    replace (nth (S (S (S (S (length bl)))) - 1 - 1)
               (title :: [] :: b0 :: bl ++ [] :: idl :: ml) [])
      with (List.last (b0 :: bl) []).
    2:{ replace (S (S (S (S (length bl)))) - 1 - 1)%nat with (S (S (length bl))) by lia.
        change (nth (S (S (length bl))) (title :: [] :: b0 :: bl ++ [] :: idl :: ml) [])
          with (nth (length bl) ((b0 :: bl) ++ [] :: idl :: ml) []).
        rewrite app_nth1 by (cbn [length]; lia). now rewrite nth_last. }
    rewrite Hlast. cbn [Nat.sub Nat.ltb Nat.leb andb]. now rewrite ?Nat.sub_0_r. }
  rewrite Hbe.
  replace (2 <? S (S (length (b0 :: bl))))%nat with true by reflexivity.
  replace (S (S (length (b0 :: bl))) - 2)%nat with (length (b0 :: bl))
    by (cbn [length]; lia).
  change (drop 2 (title :: [] :: (b0 :: bl) ++ [] :: idl :: ml))
    with ((b0 :: bl) ++ [] :: idl :: ml).
  rewrite take_app_length. reflexivity.
Qed.

Lemma last_app_cons {A} (a : list A) (x d : A) (b : list A) :
  List.last (a ++ x :: b) d = List.last (x :: b) d.
Proof.
  induction a as [|y a IH]; [reflexivity|].
  cbn [app]. destruct (a ++ x :: b) eqn:E; [now destruct a|]. exact IH.
Qed.

Lemma join_body_inline (t e e' : str) (b m : list str) :
  b <> [] ->
  join [LF] (t :: e :: join [LF] b :: e' :: m) = join [LF] (t :: e :: b ++ e' :: m).
Proof.
  intros Hb. destruct b as [|b0 bl]; [congruence|].
  change (t :: e :: (b0 :: bl) ++ e' :: m) with (t :: e :: b0 :: (bl ++ e' :: m)).
  rewrite !join_cons2. do 2 f_equal. f_equal.
  change (b0 :: bl ++ e' :: m) with ((b0 :: bl) ++ e' :: m).
  now rewrite join_app by discriminate.
Qed.

Lemma strip_nonempty (s : str) : is_empty (strip s) = false -> is_empty s = false.
Proof. now destruct s. Qed.

Lemma join_nonempty (l : str) (ls : list str) :
  is_empty l = false -> is_empty (join [LF] (l :: ls)) = false.
Proof. destruct l; [discriminate|]. now destruct ls. Qed.




End ItemFacts.
(* ===================================================================== *)
(** * Clearing a note *)
(* ===================================================================== *)

Module ClearFacts.
Import Joplin StrFacts.

(** ** Searching *)

Lemma search_from_first (here : str -> bool) (j : nat) :
  forall (s : str) (k : nat),
    first_place here s j -> search_from here s k = Some (k + j)%nat.
Proof.
  induction j as [|j IH]; intros s k (Hhere & Hlen & Hbefore).
  - rewrite drop_0 in Hhere.
    destruct s; cbn [search_from]; rewrite Hhere; f_equal; lia.
  - pose proof (Hbefore 0%nat ltac:(lia)) as H0. rewrite drop_0 in H0.
    destruct s as [|c r]; [cbn [length] in Hlen; lia|].
    cbn [search_from]. rewrite H0.
    rewrite (IH r (S k)); [f_equal; lia|].
    split; [exact Hhere|]. split; [cbn [length] in Hlen; lia|].
    intros i Hi. apply (Hbefore (S i)). lia.
Qed.

Lemma search_from_sound (here : str -> bool) (s : str) :
  forall k i : nat,
    search_from here s k = Some i ->
    exists j, i = (k + j)%nat /\ first_place here s j.
Proof.
  induction s as [|c r IH]; intros k i H; cbn [search_from] in H.
  - destruct (here []) eqn:E; [|discriminate]. injection H as <-.
    exists 0%nat. split; [lia|]. split; [now rewrite drop_0|].
    split; [reflexivity|]. intros j Hj. lia.
  - destruct (here (c :: r)) eqn:E.
    + injection H as <-. exists 0%nat. split; [lia|].
      split; [now rewrite drop_0|]. split; [cbn [length]; lia|].
      intros j Hj. lia.
    + apply IH in H as (j & -> & Hhere & Hlen & Hbefore).
      exists (S j). split; [lia|]. split; [exact Hhere|].
      split; [cbn [length]; lia|].
      intros [|j'] Hj; [now rewrite drop_0|]. apply Hbefore. lia.
Qed.

Lemma search_from_place (here : str -> bool) (s : str) (i : nat) :
  search_from here s 0 = Some i -> first_place here s i.
Proof.
  intros H. apply search_from_sound in H as (j & -> & H). exact H.
Qed.

Lemma startswith_split (p s : str) :
  startswith p s = true -> s = p ++ drop (length p) s.
Proof.
  revert s; induction p as [|a p IH]; intros s H; [reflexivity|].
  destruct s as [|b s]; [discriminate|].
  cbn [startswith] in H. apply andb_prop in H as [Hab Hp].
  apply N.eqb_eq in Hab as ->. cbn [length drop app]. f_equal. now apply IH.
Qed.

Lemma startswith_app (p s : str) : startswith p (p ++ s) = true.
Proof.
  induction p as [|a p IH]; [reflexivity|].
  cbn [app startswith]. now rewrite N.eqb_refl.
Qed.

Lemma startswith_take (k : nat) (l : str) : startswith (take k l) l = true.
Proof.
  revert l; induction k as [|k IH]; intros l; [reflexivity|].
  destruct l as [|c l]; [reflexivity|].
  change (take (S k) (c :: l)) with (c :: take k l).
  cbn [startswith]. now rewrite N.eqb_refl, IH.
Qed.

(** The text around a place where [p] occurs. *)
Lemma occurrence_split (p s : str) (i : nat) :
  startswith p (drop i s) = true ->
  take (i + length p) s = take i s ++ p
  /\ drop i s = p ++ drop (i + length p) s.
Proof.
  intros H. apply startswith_split in H.
  rewrite drop_drop in H. split; [|exact H].
  destruct (Nat.le_gt_cases i (length s)) as [Hle|Hgt].
  - rewrite <- (take_drop i s) at 1. rewrite H.
    rewrite take_app_add' by (rewrite length_take; lia).
    now rewrite take_app_length.
  - rewrite drop_ge in H by lia. destruct p; [|discriminate].
    cbn [length]. now rewrite Nat.add_0_r, app_nil_r.
Qed.

(** ** Lines *)

Lemma split_on_cons (sep : char) (s : str) :
  exists f fs, split_on sep s = f :: fs.
Proof.
  destruct s as [|c r]; [now exists [], []|]. cbn [split_on].
  destruct (c =? sep); [now eexists _, _|].
  destruct (split_on sep r); now eexists _, _.
Qed.

Lemma split_on_app_any (sep : char) (a b : str) :
  split_on sep (a ++ sep :: b) = split_on sep a ++ split_on sep b.
Proof.
  induction a as [|c a IH]; cbn [app split_on].
  - now rewrite N.eqb_refl.
  - destruct (c =? sep); [now rewrite IH|].
    rewrite IH. destruct (split_on_cons sep a) as (f & fs & ->). reflexivity.
Qed.

Lemma join_cons_head (sep : str) (c : char) (f : str) (fs : list str) :
  join sep ((c :: f) :: fs) = c :: join sep (f :: fs).
Proof. now destruct fs. Qed.

Lemma join_split_on (sep : char) (s : str) : join [sep] (split_on sep s) = s.
Proof.
  induction s as [|c r IH]; [reflexivity|]. cbn [split_on].
  destruct (c =? sep) eqn:E.
  - apply N.eqb_eq in E as ->.
    destruct (split_on_cons sep r) as (f & fs & Hr). rewrite Hr in IH |- *.
    rewrite join_cons2, IH. reflexivity.
  - destruct (split_on_cons sep r) as (f & fs & Hr). rewrite Hr in IH |- *.
    now rewrite join_cons_head, IH.
Qed.

Lemma split_on_lines (sep : char) (s : str) :
  forallb (forallb (fun c => negb (c =? sep))) (split_on sep s) = true.
Proof.
  induction s as [|c r IH]; [reflexivity|]. cbn [split_on].
  destruct (c =? sep) eqn:E; [exact IH|].
  destruct (split_on_cons sep r) as (f & fs & Hr). rewrite Hr in IH |- *.
  cbn [forallb] in *. now rewrite E.
Qed.

(** ** The look-behind *)

Lemma prefix_upto_lf (x y o : str) :
  single_line x = true -> single_line y = true ->
  startswith (x ++ [LF]) (y ++ LF :: o) = true -> x = y.
Proof.
  revert y; induction x as [|a x IH]; intros y Hx Hy H.
  - destruct y as [|b y]; [reflexivity|].
    cbn [app startswith] in H. apply andb_prop in H as [H _].
    apply N.eqb_eq in H. subst b.
    cbn [single_line forallb] in Hy. apply andb_prop in Hy as [Hb _].
    rewrite N.eqb_refl in Hb. discriminate.
  - cbn [single_line forallb] in Hx. apply andb_prop in Hx as [Ha Hx].
    destruct y as [|b y]; cbn [app startswith] in H;
      apply andb_prop in H as [Hab H]; apply N.eqb_eq in Hab; subst.
    + rewrite N.eqb_refl in Ha. discriminate.
    + cbn [single_line forallb] in Hy. apply andb_prop in Hy as [_ Hy].
      f_equal. now apply IH.
Qed.

Lemma no_lf_prefix (x y : str) :
  single_line y = true -> startswith (x ++ [LF]) y = false.
Proof.
  revert y; induction x as [|a x IH]; intros y Hy.
  - destruct y as [|b y]; [reflexivity|]. cbn [app startswith].
    cbn [single_line forallb] in Hy. apply andb_prop in Hy as [Hb _].
    rewrite N.eqb_sym. now destruct (b =? LF).
  - destruct y as [|b y]; [reflexivity|]. cbn [app startswith].
    cbn [single_line forallb] in Hy. apply andb_prop in Hy as [_ Hy].
    fold (single_line y) in Hy. rewrite (IH y Hy). apply andb_false_r.
Qed.

Lemma single_line_rev (s : str) : single_line (rev s) = single_line s.
Proof.
  unfold single_line. induction s as [|c s IH]; [reflexivity|].
  cbn [rev forallb]. rewrite forallb_app. cbn [forallb].
  rewrite andb_true_r, andb_comm. f_equal. exact IH.
Qed.

Lemma single_line_app (a b : str) :
  single_line (a ++ b) = single_line a && single_line b.
Proof. apply forallb_app. Qed.

Section OneKey.
Variables key repl : str.
Hypothesis Hkey : single_line key = true.

Lemma lookbehind_at_key (older : str) :
  lookbehind (LF :: key) (rev key ++ LF :: older) = true.
Proof.
  unfold lookbehind. cbn [rev].
  change (LF :: older) with ([LF] ++ older). rewrite app_assoc.
  apply startswith_app.
Qed.

Lemma lookbehind_elsewhere (cur older : str) :
  single_line cur = true -> cur <> key ->
  lookbehind (LF :: key) (rev cur ++ LF :: older) = false.
Proof.
  intros Hcur Hne. unfold lookbehind. cbn [rev].
  destruct (startswith (rev key ++ [LF]) (rev cur ++ LF :: older)) eqn:E;
    [|reflexivity].
  apply prefix_upto_lf in E; try (now rewrite single_line_rev).
  apply (f_equal (@rev char)) in E. rewrite !rev_involutive in E. congruence.
Qed.

Lemma lookbehind_first_line (cur : str) :
  single_line cur = true -> lookbehind (LF :: key) (rev cur) = false.
Proof.
  intros Hcur. unfold lookbehind. cbn [rev]. apply no_lf_prefix.
  now rewrite single_line_rev.
Qed.

(** Outside a match, a stretch of a line where the look-behind never holds
    is copied. *)
Lemma copy_chunk (b : str) :
  forall a base rest : str,
    single_line b = true ->
    (forall k, (k < length b)%nat ->
               lookbehind (LF :: key) (rev (a ++ take k b) ++ base) = false) ->
    re_sub_after (LF :: key) repl false (rev a ++ base) (b ++ rest)
    = b ++ re_sub_after (LF :: key) repl false (rev (a ++ b) ++ base) rest.
Proof.
  induction b as [|c b IH]; intros a base rest Hb Hlook.
  - now rewrite app_nil_r.
  - cbn [single_line forallb] in Hb. apply andb_prop in Hb as [Hc Hb].
    cbn [app re_sub_after].
    destruct (c =? LF); [discriminate|].
    pose proof (Hlook 0%nat ltac:(cbn [length]; lia)) as H0.
    cbn [take] in H0. rewrite app_nil_r in H0. rewrite H0.
    f_equal.
    replace (c :: rev a ++ base) with (rev (a ++ [c]) ++ base)
      by (now rewrite rev_app_distr).
    rewrite (IH (a ++ [c]) base rest Hb).
    + now rewrite <- app_assoc.
    + intros k Hk. rewrite <- app_assoc. apply (Hlook (S k)).
      cbn [length]. lia.
Qed.

Lemma copy_line_start (b base rest : str) :
  single_line b = true ->
  (forall k, (k < length b)%nat ->
             lookbehind (LF :: key) (rev (take k b) ++ base) = false) ->
  re_sub_after (LF :: key) repl false base (b ++ rest)
  = b ++ re_sub_after (LF :: key) repl false (rev b ++ base) rest.
Proof.
  intros Hb Hlook. exact (copy_chunk b [] base rest Hb Hlook).
Qed.

(** Inside a match, the rest of the line is dropped. *)
Lemma eat_chunk (b : str) :
  forall seen rest : str,
    single_line b = true ->
    re_sub_after (LF :: key) repl true seen (b ++ rest)
    = re_sub_after (LF :: key) repl true (rev b ++ seen) rest.
Proof.
  induction b as [|c b IH]; intros seen rest Hb; [reflexivity|].
  cbn [single_line forallb] in Hb. apply andb_prop in Hb as [Hc Hb].
  cbn [app re_sub_after]. destruct (c =? LF); [discriminate|].
  rewrite (IH (c :: seen) rest Hb). cbn [rev]. now rewrite <- app_assoc.
Qed.

(** At the end of a line, in or out of a match, one more match may start. *)
Lemma line_end (m : bool) (seen tail : str) :
  tail = [] \/ (exists r, tail = LF :: r) ->
  re_sub_after (LF :: key) repl m seen tail
  = (if lookbehind (LF :: key) seen then repl else [])
    ++ match tail with
       | [] => []
       | c :: r => c :: re_sub_after (LF :: key) repl false (c :: seen) r
       end.
Proof.
  intros [-> | (r & ->)].
  - cbn [re_sub_after]. now rewrite app_nil_r.
  - reflexivity.
Qed.

Lemma single_line_take (k : nat) (l : str) :
  single_line l = true -> single_line (take k l) = true.
Proof.
  intros Hl. rewrite <- (take_drop k l), single_line_app in Hl.
  now apply andb_prop in Hl as [H _].
Qed.

(** One line after a line feed: the line with its value replaced, then the
    scan of the next line. *)
Lemma sub_line_at (l older tail : str) :
  single_line l = true ->
  tail = [] \/ (exists r, tail = LF :: r) ->
  re_sub_after (LF :: key) repl false (LF :: older) (l ++ tail)
  = sub_line key repl l
    ++ match tail with
       | [] => []
       | c :: r =>
           c :: re_sub_after (LF :: key) repl false (c :: rev l ++ LF :: older) r
       end.
Proof.
  intros Hl Htail. unfold sub_line.
  destruct (startswith key l) eqn:E.
  - apply startswith_split in E. set (b := drop (length key) l) in E.
    assert (Hb : single_line b = true).
    { rewrite E, single_line_app in Hl. now apply andb_prop in Hl as [_ H]. }
    rewrite E at 1. rewrite <- app_assoc.
    rewrite (copy_line_start key (LF :: older) (b ++ tail) Hkey).
    2:{ intros k Hk. apply lookbehind_elsewhere.
        - now apply single_line_take.
        - intros Heq. apply (f_equal (@length char)) in Heq.
          rewrite length_take in Heq. lia. }
    rewrite <- app_assoc. f_equal.
    destruct b as [|c b].
    + rewrite app_nil_r in E. cbn [app]. rewrite (line_end false _ tail Htail).
      rewrite lookbehind_at_key. now rewrite E.
    + cbn [single_line forallb] in Hb. apply andb_prop in Hb as [Hc Hb].
      cbn [app re_sub_after]. destruct (c =? LF); [discriminate|].
      rewrite lookbehind_at_key. f_equal.
      rewrite (eat_chunk b _ tail Hb). rewrite (line_end true _ tail Htail).
      replace (rev b ++ c :: rev key ++ LF :: older)
        with (rev l ++ LF :: older).
      2:{ rewrite E, rev_app_distr. cbn [rev]. now rewrite <- !app_assoc. }
      rewrite lookbehind_elsewhere; [reflexivity|exact Hl|].
      intros Heq. apply (f_equal (@length char)) in Heq.
      rewrite E in Heq at 1. rewrite length_app in Heq. cbn [length] in Heq. lia.
  - rewrite (copy_line_start l (LF :: older) tail Hl).
    2:{ intros k Hk. apply lookbehind_elsewhere.
        - now apply single_line_take.
        - intros Heq. rewrite <- Heq, startswith_take in E. discriminate. }
    f_equal. rewrite (line_end false _ tail Htail).
    rewrite lookbehind_elsewhere; [reflexivity|exact Hl|].
    intros Heq. rewrite <- Heq in E.
    rewrite <- (app_nil_r l) in E at 2. rewrite startswith_app in E. discriminate.
Qed.

Lemma sub_lines_after_lf (ls : list str) :
  forall l older : str,
    forallb single_line (l :: ls) = true ->
    re_sub_after (LF :: key) repl false (LF :: older) (join [LF] (l :: ls))
    = join [LF] (List.map (sub_line key repl) (l :: ls)).
Proof.
  induction ls as [|l' ls IH]; intros l older H;
    cbn [forallb] in H; apply andb_prop in H as [Hl Hls].
  - cbn [join List.map]. rewrite <- (app_nil_r l) at 1.
    rewrite sub_line_at by (auto). now rewrite app_nil_r.
  - rewrite join_cons2. cbn [List.map]. rewrite join_cons2.
    cbn [app]. rewrite sub_line_at by (eauto). f_equal. f_equal.
    apply (IH l' (rev l ++ LF :: older) Hls).
Qed.

(** The substitution on a whole text, line by line. *)
Lemma sub_text (s : str) :
  re_sub_after (LF :: key) repl false [] s
  = join [LF] (on_tail (sub_line key repl) (split_on LF s)).
Proof.
  pose proof (split_on_lines LF s) as Hsingle.
  rewrite <- (join_split_on LF s) at 1.
  destruct (split_on_cons LF s) as (l0 & ls & E). rewrite E in Hsingle |- *.
  change (forallb single_line (l0 :: ls) = true) in Hsingle.
  cbn [forallb] in Hsingle. apply andb_prop in Hsingle as [Hl0 Hls].
  cbn [on_tail].
  assert (Hcopy : forall tail,
    re_sub_after (LF :: key) repl false [] (l0 ++ tail)
    = l0 ++ re_sub_after (LF :: key) repl false (rev l0) tail).
  { intros tail.
    pose proof (copy_line_start l0 [] tail Hl0) as Hc.
    rewrite app_nil_r in Hc. apply Hc.
    intros k Hk. rewrite app_nil_r. apply lookbehind_first_line.
    now apply single_line_take. }
  destruct ls as [|l1 ls].
  - cbn [join List.map]. rewrite <- (app_nil_r l0) at 1. rewrite Hcopy.
    cbn [re_sub_after]. rewrite lookbehind_first_line by exact Hl0.
    apply app_nil_r.
  - rewrite join_cons2. cbn [List.map]. rewrite join_cons2. cbn [app].
    rewrite Hcopy. f_equal.
    rewrite (line_end false _ (LF :: join [LF] (l1 :: ls))) by eauto.
    rewrite lookbehind_first_line by exact Hl0. cbn [app]. f_equal.
    apply (sub_lines_after_lf ls l1 (rev l0) Hls).
Qed.

Lemma sub_line_single (l : str) :
  single_line repl = true -> single_line l = true ->
  single_line (sub_line key repl l) = true.
Proof.
  intros Hr Hl. unfold sub_line. destruct (startswith key l); [|exact Hl].
  now rewrite single_line_app, Hkey, Hr.
Qed.

End OneKey.

Lemma on_tail_compose {A} (f g : A -> A) (l : list A) :
  on_tail f (on_tail g l) = on_tail (fun x => f (g x)) l.
Proof. destruct l; [reflexivity|]. cbn [on_tail]. now rewrite List.map_map. Qed.

Lemma on_tail_ext {A} (f g : A -> A) (l : list A) :
  (forall x, f x = g x) -> on_tail f l = on_tail g l.
Proof.
  intros H. destruct l; [reflexivity|]. cbn [on_tail]. f_equal.
  now apply List.map_ext.
Qed.

Lemma on_tail_single (f : str -> str) (l : list str) :
  (forall x, single_line x = true -> single_line (f x) = true) ->
  forallb single_line l = true -> forallb single_line (on_tail f l) = true.
Proof.
  intros Hf. destruct l as [|x l]; [reflexivity|]. cbn [on_tail forallb].
  intros H. apply andb_prop in H as [-> H]. cbn [andb].
  induction l as [|y l IH]; [reflexivity|]. cbn [List.map forallb] in *.
  apply andb_prop in H as [Hy H]. now rewrite (Hf y Hy), IH.
Qed.

Lemma sub_then_sub (now line : str) :
  sub_line (u "user_updated_time: ") now (sub_line (u "updated_time: ") now line)
  = bump_line now line.
Proof.
  unfold sub_line, bump_line.
  destruct (startswith (u "updated_time: ") line); [reflexivity|].
  reflexivity.
Qed.

(** The two substitutions of [clear_note] replace, on every line but the
    first, the value of the two time stamps, and change nothing else. *)
Lemma stamp_times_lines (now s : str) :
  single_line now = true -> stamp_times now s = bump_lines now s.
Proof.
  intros Hnow. unfold stamp_times, bump_lines, updated_key, user_updated_key.
  rewrite (sub_text (u "updated_time: ") now eq_refl s).
  rewrite (sub_text (u "user_updated_time: ") now eq_refl).
  rewrite split_on_join.
  - rewrite on_tail_compose. f_equal. apply on_tail_ext. intros x.
    apply sub_then_sub.
  - destruct (split_on_cons LF s) as (f & fs & ->). discriminate.
  - apply (on_tail_single (sub_line (u "updated_time: ") now)).
    + intros x Hx. now apply sub_line_single.
    + apply split_on_lines.
Qed.

Lemma is_digit_digit (n : N) : is_digit (digit n) = true.
Proof.
  unfold is_digit, digit. pose proof (N.mod_lt n 10 ltac:(discriminate)) as H.
  set (d := n mod 10) in *. clearbody d.
  apply andb_true_intro; split; apply N.leb_le; lia.
Qed.

Lemma digit_not_lf (n : N) : negb (digit n =? LF) = true.
Proof.
  unfold digit, LF. set (d := n mod 10). clearbody d.
  destruct (48 + d =? 10) eqn:E; [|reflexivity].
  apply N.eqb_eq in E. lia.
Qed.

Lemma strftime_single (t : utc_time) : single_line (strftime t) = true.
Proof.
  unfold strftime, four_digits, two_digits, single_line.
  cbn [app forallb u list_ascii_of_string List.map].
  rewrite !digit_not_lf. reflexivity.
Qed.

Lemma strftime_is_stamp (t : utc_time) : is_stamp (strftime t) = true.
Proof.
  unfold strftime, four_digits, two_digits.
  cbn [app u list_ascii_of_string List.map is_stamp forallb].
  rewrite !is_digit_digit. reflexivity.
Qed.

Lemma startswith_app_l (p q s : str) :
  startswith (p ++ q) s = true -> startswith p s = true.
Proof.
  revert s; induction p as [|a p IH]; intros s H; [reflexivity|].
  destruct s as [|b s]; [discriminate|]. cbn [app startswith] in *.
  apply andb_prop in H as [-> H]. now rewrite (IH s H).
Qed.

(** C3 (amended): for a note text whose first blank-line pair is at [i] and
    whose first metadata boundary [\n\nid: <32 hex>] is at [m], the cleared
    text is the text up to and including the blank-line pair, followed
    directly by the text from the boundary on, which itself begins with the
    two line feeds of the boundary.  So the body is deleted, and the lines of
    the result are the lines of the title part, three empty lines, and the
    lines of the metadata block; on every line but the first the values of
    [updated_time] and [user_updated_time] are replaced by the stamp of
    the clock, of the shape YYYY-MM-DDTHH:MM:SS.000Z, and nothing else is
    changed. *)
Theorem clear_note_keeps_both_blank_pairs
    (now : utc_time) (text : str) (i m : nat) :
  first_place (startswith [LF; LF]) text i ->
  first_place meta_boundary_here text m ->
  cut_body text = Ret (take (i + 2) text ++ drop m text)
  /\ take (i + 2) text ++ drop m text
     = take i text ++ [LF; LF; LF; LF] ++ drop (m + 2) text
  /\ cleared_text now text
     = Ret (join [LF]
              (on_tail (bump_line (strftime now))
                 (split_on LF (take i text) ++ [[]; []; []]
                  ++ split_on LF (drop (m + 2) text))))
  /\ is_stamp (strftime now) = true.
Proof.
  intros Hi Hm.
  assert (Hcut : cut_body text = Ret (take (i + 2) text ++ drop m text)).
  { unfold cut_body, str_index.
    rewrite (search_from_first _ i text 0 Hi).
    rewrite (search_from_first _ m text 0 Hm). reflexivity. }
  assert (Hshape : take (i + 2) text ++ drop m text
                   = take i text ++ [LF; LF; LF; LF] ++ drop (m + 2) text).
  { destruct Hi as (Hi & _). destruct Hm as (Hm & _).
    apply (occurrence_split [LF; LF]) in Hi as [Htake _].
    unfold meta_boundary_here in Hm. apply andb_prop in Hm as [Hm _].
    change (LF :: LF :: u "id: ") with ([LF; LF] ++ u "id: ") in Hm.
    apply startswith_app_l in Hm.
    apply (occurrence_split [LF; LF]) in Hm as [_ Hdrop].
    cbn [length] in Htake, Hdrop. rewrite Htake, Hdrop.
    now rewrite <- app_assoc. }
  split; [exact Hcut|]. split; [exact Hshape|]. split; [|apply strftime_is_stamp].
  unfold cleared_text. rewrite Hcut, Hshape.
  rewrite stamp_times_lines by apply strftime_single.
  unfold bump_lines. do 3 f_equal.
  change (take i text ++ [LF; LF; LF; LF] ++ drop (m + 2) text)
    with (take i text ++ LF :: (LF :: LF :: LF :: drop (m + 2) text)).
  rewrite split_on_app_any. reflexivity.
Qed.

(** The theorem at the example of the specification, at
    2024-01-02T03:04:05 UTC. *)
Lemma clear_note_example :
  cut_body example_item_text
  = Ret (take (5 + 2) example_item_text ++ drop 16 example_item_text)
  /\ take (5 + 2) example_item_text ++ drop 16 example_item_text
     = take 5 example_item_text ++ [LF; LF; LF; LF] ++ drop (16 + 2) example_item_text
  /\ cleared_text (UtcTime 2024 1 2 3 4 5) example_item_text
     = Ret (join [LF]
              (on_tail (bump_line (strftime (UtcTime 2024 1 2 3 4 5)))
                 (split_on LF (take 5 example_item_text) ++ [[]; []; []]
                  ++ split_on LF (drop (16 + 2) example_item_text))))
  /\ is_stamp (strftime (UtcTime 2024 1 2 3 4 5)) = true.
Proof.
  apply (clear_note_keeps_both_blank_pairs (UtcTime 2024 1 2 3 4 5)
           example_item_text 5 16);
    apply search_from_place; vm_compute; reflexivity.
Defined.

(** On the example of the specification, three blank lines, not one, stand
    between the title and the metadata of the cleared text. *)
Lemma clear_note_example_three_blank_lines :
  exists cleared : str,
    cleared_text (UtcTime 2024 1 2 3 4 5) example_item_text = Ret cleared
    /\ split_on LF cleared
       = [u "Title"; []; []; [];
          u "id: 0123456789abcdef0123456789abcdef";
          u "updated_time: 2024-01-02T03:04:05.000Z"]
    /\ cleared
       <> join [LF] [u "Title"; [];
                     u "id: 0123456789abcdef0123456789abcdef";
                     u "updated_time: 2024-01-02T03:04:05.000Z"].
Proof.
  eexists. split; [vm_compute; reflexivity|].
  split; [vm_compute; reflexivity|].
  intros H. apply (f_equal (@length char)) in H. vm_compute in H. discriminate.
Qed.

End ClearFacts.
(* ===================================================================== *)
(** * Sorting, and the order on candidate notes *)
(* ===================================================================== *)

Module SortFacts.
Import Joplin.

Section Sort.
Context {A : Type} (ltb : A -> A -> bool).
Hypothesis ltb_asym : forall a b, ltb a b = true -> ltb b a = false.
Hypothesis leb_trans :
  forall a b c, ltb b a = false -> ltb c b = false -> ltb c a = false.

(** [a] does not come after [b]. *)
Local Abbreviation le := (fun a b => ltb b a = false).

Lemma insert_sorted_perm (x : A) (l : list A) :
  Permutation (insert_sorted ltb x l) (x :: l).
Proof.
  induction l as [|y l IH]; cbn [insert_sorted]; [apply Permutation_refl|].
  destruct (ltb y x); [|apply Permutation_refl].
  eapply Permutation_trans; [apply perm_skip, IH|apply perm_swap].
Qed.

Lemma sort_by_perm (l : list A) : Permutation (sort_by ltb l) l.
Proof.
  unfold sort_by. induction l as [|x l IH]; cbn [foldr]; [apply Permutation_refl|].
  eapply Permutation_trans; [apply insert_sorted_perm|now apply perm_skip].
Qed.

Lemma insert_sorted_sorted (x : A) (l : list A) :
  StronglySorted le l -> StronglySorted le (insert_sorted ltb x l).
Proof.
  induction 1 as [|y l Hsorted IH Hy]; cbn [insert_sorted].
  - constructor; constructor.
  - destruct (ltb y x) eqn:E.
    + constructor; [exact IH|].
      eapply Permutation_Forall; [apply Permutation_sym, insert_sorted_perm|].
      constructor; [now apply ltb_asym|exact Hy].
    + constructor; [now constructor|]. constructor; [exact E|].
      eapply Forall_impl; [exact Hy|]. intros z Hz. cbn beta in *.
      now apply leb_trans with y.
Qed.

Lemma sort_by_sorted (l : list A) : StronglySorted le (sort_by ltb l).
Proof.
  unfold sort_by. induction l as [|x l IH]; cbn [foldr]; [constructor|].
  now apply insert_sorted_sorted.
Qed.

(** The head of the sorted list comes after no element of the list. *)
Lemma sort_by_head_least (l : list A) (x : A) (r : list A) :
  (forall a, ltb a a = false) ->
  sort_by ltb l = x :: r -> forall y, In y l -> ltb y x = false.
Proof.
  intros Hirr Hsort y Hy.
  pose proof (sort_by_sorted l) as Hs. rewrite Hsort in Hs.
  apply (Permutation_in y (Permutation_sym (sort_by_perm l))) in Hy.
  rewrite Hsort in Hy. inversion Hs as [|? ? _ Hall]; subst.
  destruct Hy as [<-|Hy]; [apply Hirr|].
  rewrite Forall_forall in Hall. now apply Hall, list_elem_of_In.
Qed.

End Sort.

(** ** The order on strings *)

Lemma str_ltb_irrefl (a : str) : str_ltb a a = false.
Proof.
  induction a as [|x a IH]; [reflexivity|]. cbn [str_ltb].
  now rewrite N.ltb_irrefl, N.eqb_refl, IH.
Qed.

Lemma str_ltb_asym (a b : str) : str_ltb a b = true -> str_ltb b a = false.
Proof.
  revert b; induction a as [|x a IH]; intros [|y b]; cbn [str_ltb]; try easy.
  intros H. destruct (N.ltb_spec x y), (N.ltb_spec y x), (N.eqb_spec x y),
    (N.eqb_spec y x); cbn [orb andb] in *; try lia; try easy.
  now apply IH.
Qed.

Lemma str_leb_trans (a b c : str) :
  str_ltb b a = false -> str_ltb c b = false -> str_ltb c a = false.
Proof.
  revert b c; induction a as [|x a IH]; intros [|y b] [|z c];
    cbn [str_ltb]; try easy.
  intros H1 H2.
  destruct (N.ltb_spec y x), (N.ltb_spec z y), (N.ltb_spec z x),
    (N.eqb_spec y x), (N.eqb_spec z y), (N.eqb_spec z x);
    cbn [orb andb] in *; try lia; try easy.
  now apply IH with b.
Qed.

Lemma str_ltb_total (a b : str) :
  str_ltb a b = false -> str_ltb b a = false -> a = b.
Proof.
  revert b; induction a as [|x a IH]; intros [|y b]; cbn [str_ltb]; try easy.
  intros H1 H2.
  destruct (N.ltb_spec x y), (N.ltb_spec y x), (N.eqb_spec x y),
    (N.eqb_spec y x); cbn [orb andb] in *; try lia; try easy.
  subst. f_equal. now apply IH.
Qed.

Lemma str_eqb_eq (a b : str) : str_eqb a b = true <-> a = b.
Proof.
  revert b; induction a as [|x a IH]; intros [|y b]; cbn [str_eqb]; try easy.
  rewrite andb_true_iff, N.eqb_eq, IH. split; [intros [-> ->]|intros [= -> ->]]; easy.
Qed.

(** ** The order on candidates *)

Lemma key_ltb_irrefl (a : bool * str) : key_ltb a a = false.
Proof.
  destruct a as [b n]. unfold key_ltb. cbn [fst snd].
  rewrite str_ltb_irrefl. now destruct b.
Qed.



Lemma note_ltb_irrefl (a : str * item) : note_ltb a a = false.
Proof. apply key_ltb_irrefl. Qed.




End SortFacts.
(* ===================================================================== *)
(** * The ingestion pipeline *)
(* ===================================================================== *)

Module PipelineFacts.
Import Joplin SortFacts.



Section WithPlatform.
Context {W : Type} {P : Platform W}.

(** ** Note resolution *)





(** ** Posting and clearing *)









(** When the note is fetched and its text can be cut, [clear_note] puts
    back the cleared text of [cleared_text], stamped with the clock. *)
Lemma clear_note_puts_cleared_text (base_url token : json) (item_name : str)
    (host : json) (st st1 : state) (raw : bytes) (text cleared : str) :
  _api_request (content_url base_url item_name) "GET" None (_cookie_headers token)
    host st = (Ret raw, st1) ->
  decode raw = Ret text ->
  cleared_text (utcnow (world st1)) text = Ret cleared ->
  clear_note base_url token item_name host st
  = bind (_api_request (content_url base_url item_name) "PUT"
            (Some (utf8_encode cleared))
            (dict_set (u "Content-Type") (u "application/octet-stream")
               (_cookie_headers token)) host)
      (fun _ => ret tt) st1.
Proof.
  intros Hget Hdec Hcleared. unfold clear_note, bind at 1. rewrite Hget.
  unfold cleared_text in Hcleared.
  destruct (cut_body text) as [cut| |] eqn:Hcut; try discriminate.
  injection Hcleared as <-.
  unfold bind at 1, lift. rewrite Hdec.
  unfold bind at 1. rewrite Hcut. reflexivity.
Qed.

Lemma load_from_joplin_steps (fuel : nat) (data_dir : list str) (api_base : str)
    (st0 st : state) (base_url token : json) (item_name : str) (host : json)
    (text : str) :
  locate_and_fetch fuel data_dir st0
    = (Ret (Some (base_url, token, item_name, host, text)), st) ->
  load_from_joplin fuel data_dir api_base st0
  = ingest api_base base_url token item_name host text st.
Proof. intros H. unfold load_from_joplin, bind. now rewrite H. Qed.

(** C6: when the body fetched from the note parses to no task entry (an
    empty body, for one), [load_from_joplin] returns 0, and after the fetch
    it does nothing but print that no tasks were found: nothing is posted
    to the task API, [clear_note] is not called, and the world is as the
    fetch left it. *)
Theorem no_tasks_no_post_no_clear
    (fuel : nat) (data_dir : list str) (api_base : str) (st0 st : state)
    (base_url token : json) (item_name : str) (host : json) (text : str) :
  locate_and_fetch fuel data_dir st0
    = (Ret (Some (base_url, token, item_name, host, text)), st) ->
  parse_tasks text = [] ->
  load_from_joplin fuel data_dir api_base st0
  = (Ret 0%Z, {| world := world st; trace := trace st ++ [Printed NoTasksFound] |})
  /\ parse_tasks [] = [].
Proof.
  intros Hfetch Hnone. split; [|reflexivity].
  rewrite (load_from_joplin_steps _ _ _ _ _ _ _ _ _ _ Hfetch).
  unfold ingest. now rewrite Hnone.
Qed.


End WithPlatform.

(** ** The pipeline on the small note server *)

Import Demo.


(** There the note with a body is chosen. *)
Example find_note_item_prefers_body :
  fst (_find_note_item (P := platform good_world) 5 (JStr base) tok []
         (u "todo.txt") (JStr []) (start good_world))
  = Ret (Some (u "a.md")).
Proof. vm_compute. reflexivity. Qed.

(** C6 on a server whose only note has no body. *)
Lemma no_tasks_example :
  load_from_joplin (P := platform empty_world) 5 [u "data"] api (start empty_world)
  = (Ret 0%Z, {| world := world (fetched empty_world);
                 trace := trace (fetched empty_world) ++ [Printed NoTasksFound] |})
  /\ parse_tasks [] = [].
Proof.
  apply (no_tasks_no_post_no_clear (P := platform empty_world)
           5 [u "data"] api (start empty_world) (fetched empty_world)
           (JStr base) tok (u "z.md") (JStr []) []);
    vm_compute; reflexivity.
Defined.



End PipelineFacts.
(* ===================================================================== *)
(** * The task API *)
(* ===================================================================== *)

Module ApiFacts.
Import Api SortFacts.

(** ** ISO dates compare as the days they stand for *)

Lemma str_ltb_app_same (p r r' : str) : str_ltb (p ++ r) (p ++ r') = str_ltb r r'.
Proof.
  induction p as [|x p IH]; [reflexivity|]. cbn [app str_ltb].
  now rewrite N.ltb_irrefl, N.eqb_refl, IH.
Qed.

Lemma str_ltb_app_lt (p p' r r' : str) :
  length p = length p' -> str_ltb p p' = true -> str_ltb (p ++ r) (p' ++ r') = true.
Proof.
  revert p'; induction p as [|x p IH]; intros [|y p'] Hlen H; try discriminate.
  cbn [app str_ltb] in *. apply orb_true_iff in H as [H|H].
  - now rewrite H.
  - apply andb_prop in H as [Hxy H]. rewrite Hxy.
    rewrite (IH p') by (try exact H; now injection Hlen). apply orb_true_r.
Qed.

Lemma four_digits_decomp (y : N) :
  y < 10000 ->
  exists a b c d,
    a < 10 /\ b < 10 /\ c < 10 /\ d < 10
    /\ y = 1000 * a + 100 * b + 10 * c + d
    /\ four_digits y = [48 + a; 48 + b; 48 + c; 48 + d].
Proof.
  intros H. exists (y / 1000), ((y / 100) mod 10), ((y / 10) mod 10), (y mod 10).
  unfold four_digits, digit.
  assert (H3 : (y / 1000) mod 10 = y / 1000).
  { apply N.mod_small. apply N.Div0.div_lt_upper_bound. lia. }
  rewrite H3.
  pose proof (N.div_mod y 10 ltac:(lia)) as E0.
  pose proof (N.div_mod (y / 10) 10 ltac:(lia)) as E1.
  pose proof (N.div_mod (y / 100) 10 ltac:(lia)) as E2.
  pose proof (N.mod_lt y 10 ltac:(lia)) as L0.
  pose proof (N.mod_lt (y / 10) 10 ltac:(lia)) as L1.
  pose proof (N.mod_lt (y / 100) 10 ltac:(lia)) as L2.
  assert (D1 : y / 10 / 10 = y / 100) by (rewrite N.Div0.div_div; reflexivity).
  assert (D2 : y / 100 / 10 = y / 1000) by (rewrite N.Div0.div_div; reflexivity).
  rewrite D1 in E1. rewrite D2 in E2.
  set (q1 := y / 10) in *. set (q2 := y / 100) in *. set (q3 := y / 1000) in *.
  set (r0 := y mod 10) in *. set (r1 := q1 mod 10) in *. set (r2 := q2 mod 10) in *.
  clearbody q1 q2 q3 r0 r1 r2.
  repeat split; try lia.
Qed.

Lemma two_digits_decomp (n : N) :
  n < 100 ->
  exists a b, a < 10 /\ b < 10 /\ n = 10 * a + b /\ two_digits n = [48 + a; 48 + b].
Proof.
  intros H. exists (n / 10), (n mod 10). unfold two_digits, digit.
  assert (H1 : (n / 10) mod 10 = n / 10).
  { apply N.mod_small. apply N.Div0.div_lt_upper_bound. lia. }
  rewrite H1.
  pose proof (N.div_mod n 10 ltac:(lia)) as E0.
  pose proof (N.mod_lt n 10 ltac:(lia)) as L0.
  set (q := n / 10) in *. set (r := n mod 10) in *. clearbody q r.
  repeat split; try lia.
Qed.

Ltac compare_digits :=
  repeat match goal with
         | |- context [?x <? ?y] => destruct (N.ltb_spec x y)
         | |- context [?x =? ?y] => destruct (N.eqb_spec x y)
         end;
  cbn [orb andb]; try reflexivity; try lia.

Lemma four_digits_lt (y y' : N) :
  y < y' -> y' < 10000 -> str_ltb (four_digits y) (four_digits y') = true.
Proof.
  intros Hlt Hy'.
  destruct (four_digits_decomp y ltac:(lia)) as (a & b & c & d & ? & ? & ? & ? & -> & ->).
  destruct (four_digits_decomp y' Hy') as (a' & b' & c' & d' & ? & ? & ? & ? & -> & ->).
  cbn [str_ltb]. compare_digits.
Qed.

Lemma two_digits_lt (n n' : N) :
  n < n' -> n' < 100 -> str_ltb (two_digits n) (two_digits n') = true.
Proof.
  intros Hlt Hn'.
  destruct (two_digits_decomp n ltac:(lia)) as (a & b & ? & ? & -> & ->).
  destruct (two_digits_decomp n' Hn') as (a' & b' & ? & ? & -> & ->).
  cbn [str_ltb]. compare_digits.
Qed.

Lemma days_in_month_bounds (y m : N) : 28 <= days_in_month y m <= 31.
Proof.
  unfold days_in_month.
  destruct (m =? 2); [destruct (is_leap y); lia|].
  destruct ((m =? 4) || (m =? 6) || (m =? 9) || (m =? 11)); lia.
Qed.

Lemma isoformat_lt (a b : pydate) :
  valid_date a -> valid_date b -> date_lt a b ->
  str_ltb (isoformat a) (isoformat b) = true.
Proof.
  intros (Hya & Hma & Hda) (Hyb & Hmb & Hdb) Hlt.
  pose proof (days_in_month_bounds (year a) (month a)).
  pose proof (days_in_month_bounds (year b) (month b)).
  unfold isoformat.
  destruct Hlt as [Hy | [(Hy & Hm) | (Hy & Hm & Hd)]].
  - apply str_ltb_app_lt; [reflexivity|]. apply four_digits_lt; lia.
  - rewrite Hy, str_ltb_app_same, str_ltb_app_same.
    apply str_ltb_app_lt; [reflexivity|]. apply two_digits_lt; lia.
  - rewrite Hy, Hm, !str_ltb_app_same. apply two_digits_lt; lia.
Qed.

Lemma isoformat_le (a b : pydate) :
  valid_date a -> valid_date b -> date_le a b ->
  str_leb (isoformat a) (isoformat b) = true.
Proof.
  intros Ha Hb [Hlt | ->]; unfold str_leb.
  - now rewrite (str_ltb_asym _ _ (isoformat_lt a b Ha Hb Hlt)).
  - now rewrite str_ltb_irrefl.
Qed.

(** ** Stepping through the calendar *)

Lemma date_lt_trans (a b c : pydate) : date_lt a b -> date_lt b c -> date_lt a c.
Proof. unfold date_lt. lia. Qed.

Lemma date_le_trans (a b c : pydate) : date_le a b -> date_le b c -> date_le a c.
Proof.
  intros [H1 | ->] [H2 | ->]; try (now left); try (now right).
  left. now apply date_lt_trans with b.
Qed.

Lemma tomorrow_later (d d' : pydate) :
  valid_date d -> tomorrow d = Some d' -> valid_date d' /\ date_lt d d'.
Proof.
  intros (Hy & Hm & Hd). unfold tomorrow.
  pose proof (days_in_month_bounds (year d) (month d)).
  destruct (day d <? days_in_month (year d) (month d)) eqn:E1.
  { apply N.ltb_lt in E1. cbv iota. intros [= <-]. unfold valid_date, date_lt. cbn. lia. }
  apply N.ltb_ge in E1.
  destruct (month d <? 12) eqn:E2.
  { apply N.ltb_lt in E2. cbv iota. intros [= <-]. unfold valid_date, date_lt. cbn.
    pose proof (days_in_month_bounds (year d) (month d + 1)). lia. }
  apply N.ltb_ge in E2.
  destruct (year d <? 9999) eqn:E3; [|discriminate].
  apply N.ltb_lt in E3. cbv iota. intros [= <-]. unfold valid_date, date_lt. cbn.
  pose proof (days_in_month_bounds (year d + 1) 1). lia.
Qed.

Lemma yesterday_earlier (d d' : pydate) :
  valid_date d -> yesterday d = Some d' -> valid_date d' /\ date_lt d' d.
Proof.
  intros (Hy & Hm & Hd). unfold yesterday.
  destruct (1 <? day d) eqn:E1.
  { apply N.ltb_lt in E1. cbv iota. intros [= <-]. unfold valid_date, date_lt. cbn. lia. }
  apply N.ltb_ge in E1.
  destruct (1 <? month d) eqn:E2.
  { apply N.ltb_lt in E2. cbv iota. intros [= <-]. unfold valid_date, date_lt. cbn.
    pose proof (days_in_month_bounds (year d) (month d - 1)). lia. }
  apply N.ltb_ge in E2.
  destruct (1 <? year d) eqn:E3; [|discriminate].
  apply N.ltb_lt in E3. cbv iota. intros [= <-]. unfold valid_date, date_lt. cbn.
  assert (E : days_in_month (year d - 1) 12 = 31) by reflexivity. lia.
Qed.

Lemma forward_later (n : nat) (today d : pydate) :
  valid_date today ->
  Nat.iter n (fun o => o ≫= tomorrow) (Some today) = Some d ->
  valid_date d /\ date_le today d.
Proof.
  intros Hv. revert d; induction n as [|n IH]; intros d H.
  - injection H as <-. split; [exact Hv|now right].
  - rewrite Nat.iter_succ in H.
    set (o := Nat.iter n (fun o => o ≫= tomorrow) (Some today)) in *.
    destruct o as [p|]; unfold mbind, option_bind in H; [|discriminate].
    destruct (IH p eq_refl) as [Hp Hle].
    destruct (tomorrow_later p d Hp H) as [Hd Hlt].
    split; [exact Hd|]. apply date_le_trans with p; [exact Hle|now left].
Qed.

Lemma backward_earlier (n : nat) (today d : pydate) :
  valid_date today ->
  Nat.iter n (fun o => o ≫= yesterday) (Some today) = Some d ->
  valid_date d /\ date_le d today.
Proof.
  intros Hv. revert d; induction n as [|n IH]; intros d H.
  - injection H as <-. split; [exact Hv|now right].
  - rewrite Nat.iter_succ in H.
    set (o := Nat.iter n (fun o => o ≫= yesterday) (Some today)) in *.
    destruct o as [p|]; unfold mbind, option_bind in H; [|discriminate].
    destruct (IH p eq_refl) as [Hp Hle].
    destruct (yesterday_earlier p d Hp H) as [Hd Hlt].
    split; [exact Hd|]. apply date_le_trans with p; [now left|exact Hle].
Qed.

Lemma add_days_nonneg (today : pydate) (n : Z) :
  (0 <= n)%Z ->
  add_days today n = Nat.iter (Z.to_nat n) (fun o => o ≫= tomorrow) (Some today).
Proof. intros H. unfold add_days. now rewrite (proj2 (Z.leb_le 0 n) H). Qed.

Lemma add_days_nonpos (today : pydate) (n : Z) :
  (0 <= n)%Z ->
  add_days today (- n) = Nat.iter (Z.to_nat n) (fun o => o ≫= yesterday) (Some today).
Proof.
  intros H. unfold add_days. destruct (Z.leb_spec 0 (- n)).
  - assert (n = 0%Z) as -> by lia. reflexivity.
  - now rewrite Z.opp_involutive.
Qed.

(** One day beyond either end of the window. *)
Lemma add_days_succ (today d : pydate) (n : Z) :
  (0 <= n)%Z -> add_days today (n + 1) = Some d ->
  exists p, add_days today n = Some p /\ tomorrow p = Some d.
Proof.
  intros Hn H. rewrite add_days_nonneg in H by lia. rewrite add_days_nonneg by lia.
  replace (Z.to_nat (n + 1)) with (S (Z.to_nat n)) in H by lia.
  rewrite Nat.iter_succ in H.
  set (o := Nat.iter (Z.to_nat n) (fun o => o ≫= tomorrow) (Some today)) in *.
  destruct o as [p|]; unfold mbind, option_bind in H; [|discriminate].
  now exists p.
Qed.

Lemma add_days_pred (today d : pydate) (n : Z) :
  (0 <= n)%Z -> add_days today (- n - 1) = Some d ->
  exists p, add_days today (- n) = Some p /\ yesterday p = Some d.
Proof.
  intros Hn H. replace (- n - 1)%Z with (- (n + 1))%Z in H by lia.
  rewrite add_days_nonpos in H by lia. rewrite add_days_nonpos by lia.
  replace (Z.to_nat (n + 1)) with (S (Z.to_nat n)) in H by lia.
  rewrite Nat.iter_succ in H.
  set (o := Nat.iter (Z.to_nat n) (fun o => o ≫= yesterday) (Some today)) in *.
  destruct o as [p|]; unfold mbind, option_bind in H; [|discriminate].
  now exists p.
Qed.

Lemma forward_strict (n : nat) (today d : pydate) :
  valid_date today ->
  Nat.iter (S n) (fun o => o ≫= tomorrow) (Some today) = Some d ->
  date_lt today d.
Proof.
  intros Hv H. rewrite Nat.iter_succ in H.
  destruct (Nat.iter n (fun o => o ≫= tomorrow) (Some today)) as [p|] eqn:E;
    unfold mbind, option_bind in H; [|discriminate].
  destruct (forward_later n today p Hv E) as [Hp [Hlt | ->]];
    destruct (tomorrow_later _ _ Hp H) as [_ Hstep]; [|exact Hstep].
  now apply date_lt_trans with p.
Qed.

Lemma backward_strict (n : nat) (today d : pydate) :
  valid_date today ->
  Nat.iter (S n) (fun o => o ≫= yesterday) (Some today) = Some d ->
  date_lt d today.
Proof.
  intros Hv H. rewrite Nat.iter_succ in H.
  destruct (Nat.iter n (fun o => o ≫= yesterday) (Some today)) as [p|] eqn:E;
    unfold mbind, option_bind in H; [|discriminate].
  destruct (backward_earlier n today p Hv E) as [Hp [Hlt | ->]];
    destruct (yesterday_earlier _ _ Hp H) as [_ Hstep]; [|exact Hstep].
  now apply date_lt_trans with p.
Qed.

(** ** The rows of the table *)

Lemma rows_spec (tbl : table) (r : TaskOut) :
  In r (rows tbl) <-> tbl !! id r = Some (task r).
Proof.
  unfold rows. rewrite <- list_elem_of_In, list_elem_of_fmap. split.
  - intros ([i t] & -> & H). now apply elem_of_map_to_list in H.
  - intros H. exists (id r, task r). split; [now destruct r|].
    now apply elem_of_map_to_list.
Qed.

Lemma rows_NoDup (tbl : table) : NoDup (rows tbl).
Proof.
  unfold rows. apply NoDup_fmap_2; [|apply NoDup_map_to_list].
  intros [i t] [j t'] [= -> ->]. reflexivity.
Qed.

Lemma filter_none {A} (f : A -> bool) (l : list A) :
  (forall x, In x l -> f x = false) -> List.filter f l = [].
Proof.
  induction l as [|x l IH]; intros H; [reflexivity|]. cbn [List.filter].
  rewrite (H x (or_introl eq_refl)). apply IH. intros y Hy. apply H. now right.
Qed.

Lemma date_ltb_asym (a b : TaskOut) :
  str_ltb (date (task a)) (date (task b)) = true ->
  str_ltb (date (task b)) (date (task a)) = false.
Proof. apply str_ltb_asym. Qed.

Lemma date_leb_trans (a b c : TaskOut) :
  str_ltb (date (task b)) (date (task a)) = false ->
  str_ltb (date (task c)) (date (task b)) = false ->
  str_ltb (date (task c)) (date (task a)) = false.
Proof. apply str_leb_trans. Qed.

(** C7 (amended): for every table and every integer [days] for which the
    two ends of the window are dates of the calendar, the window query
    returns, each once and ordered by date ascending, exactly the rows
    whose date string lies between the ISO forms of [today - days] and
    [today + days], both included, in the lexicographic order.  When
    [days] is not negative, a task dated exactly at either end is returned
    and a task dated one day beyond either end is not; when [days] is
    negative the range is empty and nothing is returned. *)
Theorem window_is_inclusive_range
    (tbl : table) (today from_day to_day : pydate) (days : Z) :
  add_days today (- days) = Some from_day ->
  add_days today days = Some to_day ->
  exists result : list TaskOut,
    get_tasks_window today days tbl = Ok 200 result
    /\ NoDup result
    /\ (forall r, In r result
                  <-> tbl !! id r = Some (task r)
                      /\ str_leb (isoformat from_day) (date (task r)) = true
                      /\ str_leb (date (task r)) (isoformat to_day) = true)
    /\ StronglySorted
         (fun a b => str_ltb (date (task b)) (date (task a)) = false) result
    /\ (valid_date today -> (0 <= days)%Z ->
        (forall r, tbl !! id r = Some (task r) ->
                   date (task r) = isoformat from_day
                   \/ date (task r) = isoformat to_day ->
                   In r result)
        /\ (forall r d, tbl !! id r = Some (task r) ->
                        add_days today (- days - 1) = Some d
                        \/ add_days today (days + 1) = Some d ->
                        date (task r) = isoformat d ->
                        ~ In r result))
    /\ (valid_date today -> (days < 0)%Z -> result = []).
Proof.
  intros Hfrom Hto.
  set (keep := in_window (isoformat from_day) (isoformat to_day)).
  set (ltb := fun a b : TaskOut => str_ltb (date (task a)) (date (task b))).
  exists (sort_by ltb (List.filter keep (rows tbl))).
  assert (Hperm := sort_by_perm ltb (List.filter keep (rows tbl))).
  assert (Hmem : forall r, In r (sort_by ltb (List.filter keep (rows tbl)))
                           <-> tbl !! id r = Some (task r)
                               /\ str_leb (isoformat from_day) (date (task r)) = true
                               /\ str_leb (date (task r)) (isoformat to_day) = true).
  { intros r. split.
    - intros H. apply (Permutation_in _ Hperm) in H.
      apply filter_In in H as [Hin Hk]. apply rows_spec in Hin.
      unfold keep, in_window in Hk. apply andb_prop in Hk as [H1 H2]. now repeat split.
    - intros (Hin & H1 & H2).
      apply (Permutation_in _ (Permutation_sym Hperm)). apply filter_In.
      split; [now apply rows_spec|]. unfold keep, in_window. now rewrite H1, H2. }
  split. { unfold get_tasks_window. now rewrite Hfrom, Hto. }
  split. { rewrite Hperm. apply NoDup_ListNoDup, List.NoDup_filter.
           apply NoDup_ListNoDup, rows_NoDup. }
  split; [exact Hmem|].
  split. { apply sort_by_sorted; [apply date_ltb_asym|apply date_leb_trans]. }
  split.
  - intros Hv Hdays.
    assert (Hf : valid_date from_day /\ date_le from_day today).
    { rewrite add_days_nonpos in Hfrom by exact Hdays.
      now apply backward_earlier with (Z.to_nat days). }
    assert (Ht : valid_date to_day /\ date_le today to_day).
    { rewrite add_days_nonneg in Hto by exact Hdays.
      now apply forward_later with (Z.to_nat days). }
    destruct Hf as [Hfv Hfle], Ht as [Htv Htle].
    assert (Hspan : date_le from_day to_day) by (now apply date_le_trans with today).
    split.
    + intros r Hin [E | E]; apply Hmem; rewrite E; repeat split; try exact Hin.
      * unfold str_leb. now rewrite str_ltb_irrefl.
      * now apply isoformat_le.
      * now apply isoformat_le.
      * unfold str_leb. now rewrite str_ltb_irrefl.
    + intros r d Hin [Hd | Hd] E Hr; apply Hmem in Hr as (_ & H1 & H2);
        rewrite E in H1, H2.
      * apply add_days_pred in Hd as (p & Hp & Hstep); [|exact Hdays].
        rewrite Hfrom in Hp. injection Hp as <-.
        destruct (yesterday_earlier _ _ Hfv Hstep) as [Hdv Hlt].
        unfold str_leb in H1. now rewrite (isoformat_lt _ _ Hdv Hfv Hlt) in H1.
      * apply add_days_succ in Hd as (p & Hp & Hstep); [|exact Hdays].
        rewrite Hto in Hp. injection Hp as <-.
        destruct (tomorrow_later _ _ Htv Hstep) as [Hdv Hlt].
        unfold str_leb in H2. now rewrite (isoformat_lt _ _ Htv Hdv Hlt) in H2.
  - intros Hv Hdays.
    assert (Hf : valid_date from_day /\ date_lt today from_day).
    { rewrite add_days_nonneg in Hfrom by lia.
      destruct (Z.to_nat (- days)) as [|n] eqn:En; [lia|]. split.
      - now apply forward_later with (S n) today.
      - now apply forward_strict with n. }
    assert (Ht : valid_date to_day /\ date_lt to_day today).
    { replace days with (- (- days))%Z in Hto by lia.
      rewrite add_days_nonpos in Hto by lia.
      destruct (Z.to_nat (- days)) as [|n] eqn:En; [lia|]. split.
      - now apply backward_earlier with (S n) today.
      - now apply backward_strict with n. }
    destruct Hf as [Hfv Hflt], Ht as [Htv Htlt].
    assert (Hgap : str_ltb (isoformat to_day) (isoformat from_day) = true).
    { apply isoformat_lt; try assumption. now apply date_lt_trans with today. }
    rewrite filter_none; [reflexivity|].
    intros r _. unfold keep, in_window, str_leb.
    destruct (str_ltb (date (task r)) (isoformat from_day)) eqn:E1; [reflexivity|].
    destruct (str_ltb (isoformat to_day) (date (task r))) eqn:E2; [reflexivity|].
    cbn [negb andb].
    pose proof (str_leb_trans _ _ _ E1 E2) as Hcontra. congruence.
Qed.

(** The theorem for a window of seven days around 2024-06-15. *)
Lemma window_example :
  exists result : list TaskOut,
    get_tasks_window sample_day 7 sample_table = Ok 200 result
    /\ NoDup result
    /\ (forall r, In r result
                  <-> sample_table !! id r = Some (task r)
                      /\ str_leb (isoformat {| year := 2024; month := 6; day := 8 |})
                           (date (task r)) = true
                      /\ str_leb (date (task r))
                           (isoformat {| year := 2024; month := 6; day := 22 |}) = true)
    /\ StronglySorted
         (fun a b => str_ltb (date (task b)) (date (task a)) = false) result
    /\ (valid_date sample_day -> (0 <= 7)%Z ->
        (forall r, sample_table !! id r = Some (task r) ->
                   date (task r) = isoformat {| year := 2024; month := 6; day := 8 |}
                   \/ date (task r) = isoformat {| year := 2024; month := 6; day := 22 |} ->
                   In r result)
        /\ (forall r d, sample_table !! id r = Some (task r) ->
                        add_days sample_day (- 7 - 1) = Some d
                        \/ add_days sample_day (7 + 1) = Some d ->
                        date (task r) = isoformat d ->
                        ~ In r result))
    /\ (valid_date sample_day -> (7 < 0)%Z -> result = []).
Proof.
  apply (window_is_inclusive_range sample_table sample_day
           {| year := 2024; month := 6; day := 8 |}
           {| year := 2024; month := 6; day := 22 |} 7);
    vm_compute; reflexivity.
Defined.

Example window_example_rows :
  get_tasks_window sample_day 7 sample_table
  = Ok 200 [ {| id := 2; task := sample_task "2024-06-08" "first day" |};
             {| id := 5; task := sample_task "2024-06-15" "today" |};
             {| id := 1; task := sample_task "2024-06-22" "last day" |} ].
Proof. vm_compute. reflexivity. Qed.

(** With [days = -1] the window runs from 2024-06-16 back to 2024-06-14: a
    task dated [today - days], that is 2024-06-16, is not returned. *)
Lemma window_negative_days_drops_the_ends :
  add_days sample_day (- (-1)) = Some {| year := 2024; month := 6; day := 16 |}
  /\ isoformat {| year := 2024; month := 6; day := 16 |} = u "2024-06-16"
  /\ get_tasks_window sample_day (-1)
       (<[7%Z := sample_task "2024-06-16" "tomorrow"]> ∅)
     = Ok 200 [].
Proof. repeat split; vm_compute; reflexivity. Qed.

(** ** Update and delete *)


Example update_delete_example :
  fst (update_task 3 (sample_task "2024-07-01" "moved") sample_table)
  = Ok 200 {| id := 3; task := sample_task "2024-07-01" "moved" |}
  /\ fst (delete_task 9 sample_table) = HTTPException 404
  /\ fst (update_task 9 (sample_task "2024-07-01" "moved") sample_table)
     = HTTPException 404.
Proof. repeat split; vm_compute; reflexivity. Qed.

End ApiFacts.
(* ===================================================================== *)
(** * The server lifecycle *)
(* ===================================================================== *)

Module CliFacts.
Import Cli.

Section WithSystem.
Context {Sys : System}.

(** With a PID file that names a live process, [serve start] only reports
    that the server is running: nothing is written, spawned or served, and
    the system is as before. *)
Lemma start_refuses_tracked_server (h : str) (p : Z) :
  _handle_serve (Args Start h p) (State tracked_server [])
  = (Ret tt, State tracked_server [Printed (AlreadyRunning (Some 4242%Z))]).
Proof. reflexivity. Qed.

Lemma restart_start_refuses_tracked_server (h : str) (p : Z) :
  _start_server (Args Restart h p) (State tracked_server [])
  = (Ret tt, State tracked_server [Printed (AlreadyRunning (Some 4242%Z))]).
Proof. reflexivity. Qed.

Lemma wait_for_answer_extends (n : nat) (a : args) (pid : Z) :
  forall st : state,
    exists more : list event,
      trace (snd (wait_for_answer n a pid st)) = trace st ++ more
      /\ fst (wait_for_answer n a pid st) = Ret tt.
Proof.
  induction n as [|n IH]; intros st.
  - now exists [Printed (NotResponding pid)].
  - cbn [wait_for_answer]. unfold bind, sleep, emit, get_os, set_os. cbn.
    destruct (responds (elapse (sys st))).
    + exists [Slept; Polled; Printed (Started pid (port a))].
      unfold print, emit. cbn. now rewrite <- !app_assoc.
    + destruct (IH {| sys := elapse (sys st);
                      trace := (trace st ++ [Slept]) ++ [Polled] |})
        as (more & Htrace & Hret).
      exists ([Slept; Polled] ++ more). rewrite Htrace. cbn [trace].
      split; [now rewrite <- !app_assoc|exact Hret].
Qed.

(** C9, where the code departs from it: on a system without PID file where
    a server started by other means listens on the configured port, the
    status action finds it through the port lookup and reports it running,
    but the start action, which looks at the PID file only, does not
    refuse: it writes its own PID file and runs the server, and on the
    restart path it spawns a new process. *)
Theorem start_ignores_port_lookup (h : str) :
  _handle_serve (Args Status h 8001) (State foreign_server [])
  = (Ret tt, State foreign_server [Printed (Running 4242 8001)])
  /\ (exists after : os,
        _handle_serve (Args Start h 8001) (State foreign_server [])
        = (Ret tt,
           State after [PidFileWritten (u "777"); Served h 8001; PidFileRemoved]))
  /\ (exists (spawned : Z) (after : os) (more : list event),
        _start_server (Args Restart h 8001) (State foreign_server [])
        = (Ret tt, State after (Spawned spawned :: more))).
Proof.
  split; [reflexivity|]. split.
  - eexists. reflexivity.
  - assert (Hrun : _start_server (Args Restart h 8001) (State foreign_server [])
                   = wait_for_answer 15 (Args Restart h 8001)
                       (fst (spawn foreign_server))
                       {| sys := snd (spawn foreign_server);
                          trace := [Spawned (fst (spawn foreign_server))] |})
      by reflexivity.
    rewrite Hrun.
    destruct (wait_for_answer_extends 15 (Args Restart h 8001)
                (fst (spawn foreign_server))
                {| sys := snd (spawn foreign_server);
                   trace := [Spawned (fst (spawn foreign_server))] |})
      as (more & Htrace & Hret).
    destruct (wait_for_answer 15 _ _ _) as [o [s t]].
    cbn [fst snd trace] in Htrace, Hret. subst o t.
    now exists (fst (spawn foreign_server)), s, more.
Qed.

End WithSystem.

End CliFacts.
(* ===================================================================== *)
(** * The settings *)
(* ===================================================================== *)

Module SettingsFacts.
Import Settings.

(** Values that, if they are a dictionary, are one from address [n] on. *)
Local Abbreviation above n v := (forall l, v = VDict l -> (n <= l)%nat).

Local Abbreviation dicts_above n items :=
  (forall k l', In (k, VDict l') items -> (n <= l')%nat).

Lemma dict_set_in {V : Type} (k k' : str) (v v' : V) (d : list (str * V)) :
  In (k', v') (dict_set k v d) -> (k', v') = (k, v) \/ In (k', v') d.
Proof.
  induction d as [|[k0 v0] d IH]; cbn [dict_set].
  - intros [H|[]]. now left.
  - destruct (str_eqb k0 k).
    + intros [H|H]; [now left|right; now right].
    + intros [H|H]; [right; now left|].
      destruct (IH H) as [E|E]; [now left|right; now right].
Qed.

Lemma dict_set_above (n : loc) (k : str) (v : value) (d : list (str * value)) :
  above n v -> dicts_above n d -> dicts_above n (dict_set k v d).
Proof.
  intros Hv Hd k' l' H. apply dict_set_in in H as [[= -> E]|H];
    [now apply Hv|now apply (Hd k')].
Qed.

(** ** Allocation and update *)

Lemma alloc_spec (n : loc) (items : list (str * value)) (h : heap) :
  (n <= next h)%nat -> wf h -> closed_above n h -> dicts_above n items ->
  wf (snd (alloc items h))
  /\ closed_above n (snd (alloc items h))
  /\ same_below (next h) h (snd (alloc items h))
  /\ next (snd (alloc items h)) = S (next h)
  /\ fst (alloc items h) = next h.
Proof.
  intros Hn Hwf Hclosed Hitems. unfold alloc. cbn [fst snd].
  split; [|split; [|split; [|split]]]; try reflexivity.
  - intros l its. cbn [objs next].
    destruct (decide (next h = l)) as [<-|Hne]; [lia|].
    rewrite lookup_insert_ne by exact Hne.
    intros H. apply Hwf in H. lia.
  - intros l its k l' Hl. cbn [objs].
    destruct (decide (next h = l)) as [<-|Hne].
    + rewrite lookup_insert_eq. intros [= <-]. apply Hitems.
    + rewrite lookup_insert_ne by exact Hne. now apply Hclosed.
  - intros l Hl. cbn [objs]. rewrite lookup_insert_ne by lia. reflexivity.
Qed.

Lemma store_spec (n base : loc) (items old : list (str * value)) (h : heap) :
  (n <= base)%nat -> objs h !! base = Some old ->
  wf h -> closed_above n h -> dicts_above n items ->
  wf (store base items h)
  /\ closed_above n (store base items h)
  /\ same_below n h (store base items h)
  /\ next (store base items h) = next h.
Proof.
  intros Hn Hold Hwf Hclosed Hitems. unfold store.
  split; [|split; [|split]]; try reflexivity.
  - intros l its. cbn [objs next].
    destruct (decide (base = l)) as [<-|Hne]; [intros _; now apply Hwf in Hold|].
    rewrite lookup_insert_ne by exact Hne. apply Hwf.
  - intros l its k l' Hl. cbn [objs].
    destruct (decide (base = l)) as [<-|Hne].
    + rewrite lookup_insert_eq. intros [= <-]. apply Hitems.
    + rewrite lookup_insert_ne by exact Hne. now apply Hclosed.
  - intros l Hl. cbn [objs]. rewrite lookup_insert_ne by lia. reflexivity.
Qed.

Lemma same_below_trans (n m : loc) (h1 h2 h3 : heap) :
  (n <= m)%nat -> same_below n h1 h2 -> same_below m h2 h3 -> same_below n h1 h3.
Proof.
  intros Hnm H12 H23 l Hl. rewrite H23 by lia. now apply H12.
Qed.

Lemma same_below_mono (n m : loc) (h h' : heap) :
  (n <= m)%nat -> same_below m h h' -> same_below n h h'.
Proof. intros Hnm H l Hl. apply H. lia. Qed.

(** The store after code that only allocates: well formed, closed from
    [n] on, the same as before below the old next free address. *)
Local Abbreviation grows n h h' :=
  (wf h' /\ closed_above n h' /\ same_below (next h) h h' /\ Nat.le (next h) (next h')).

(** The store after code that updates dictionaries from [n] on. *)
Local Abbreviation keeps n h h' :=
  (wf h' /\ closed_above n h' /\ same_below n h h' /\ next h' = next h).

Lemma grows_refl (n : loc) (h : heap) : wf h -> closed_above n h -> grows n h h.
Proof. intros Hwf Hc. repeat split; try assumption. lia. Qed.

Lemma grows_trans (n : loc) (h1 h2 h3 : heap) :
  grows n h1 h2 -> grows n h2 h3 -> grows n h1 h3.
Proof.
  intros (_ & _ & S12 & N12) (W3 & C3 & S23 & N23).
  repeat split; try assumption; [|lia].
  now apply same_below_trans with (next h2) h2.
Qed.

(** ** Deep copy *)

Lemma copy_items_spec (n : loc) (copy : loc -> heap -> outcome loc * heap) :
  (forall d h o h',
      (n <= next h)%nat -> wf h -> closed_above n h -> copy d h = (o, h') ->
      grows n h h' /\ (forall l, o = Ret l -> (n <= l)%nat)) ->
  forall items acc h o h',
    (n <= next h)%nat -> wf h -> closed_above n h -> dicts_above n acc ->
    copy_items copy items acc h = (o, h') ->
    grows n h h' /\ (forall items', o = Ret items' -> dicts_above n items').
Proof.
  intros Hcopy. induction items as [|[k v] items IH];
    intros acc h o h' Hn Hwf Hc Hacc H; cbn [copy_items] in H.
  - injection H as <- <-. split; [now apply grows_refl|]. now intros ? [= <-].
  - assert (Hplain : (forall l, v <> VDict l) ->
                     copy_items copy items (dict_set k v acc) h = (o, h') ->
                     grows n h h'
                     /\ (forall items', o = Ret items' -> dicts_above n items')).
    { intros Hv H'. apply (IH _ _ _ _ Hn Hwf Hc) in H'; [exact H'|].
      apply dict_set_above; [|exact Hacc]. intros l E. now destruct (Hv l). }
    destruct v as [| b | z | nz lit | s | vs | l];
      try (apply Hplain; [intros l; discriminate|exact H]).
    destruct (copy l h) as [[l'| e |] h1] eqn:E;
      destruct (Hcopy _ _ _ _ Hn Hwf Hc E) as [Hg Hl'].
    + destruct Hg as (W1 & C1 & S1 & N1).
      apply IH in H; try assumption; try lia.
      * destruct H as [Hg2 Hitems]. split; [|exact Hitems].
        apply grows_trans with h1; [now repeat split|exact Hg2].
      * apply dict_set_above; [|exact Hacc]. intros l0 [= <-]. now apply Hl'.
    + injection H as <- <-. split; [exact Hg|]. discriminate.
    + injection H as <- <-. split; [exact Hg|]. discriminate.
Qed.

Lemma deep_copy_spec (n : loc) (fuel : nat) :
  forall d h o h',
    (n <= next h)%nat -> wf h -> closed_above n h ->
    _deep_copy_dict fuel d h = (o, h') ->
    grows n h h' /\ (forall l, o = Ret l -> (n <= l)%nat).
Proof.
  induction fuel as [|fuel IH]; intros d h o h' Hn Hwf Hc H;
    cbn [_deep_copy_dict] in H.
  - injection H as <- <-. split; [now apply grows_refl|]. discriminate.
  - destruct (objs h !! d) as [items|].
    2:{ injection H as <- <-. split; [now apply grows_refl|]. discriminate. }
    destruct (copy_items (_deep_copy_dict fuel) items [] h) as [[items'| e |] h1] eqn:E;
      apply (copy_items_spec n _ IH) in E; try assumption; try (now intros ? ? []);
      destruct E as [Hg Hitems].
    + destruct Hg as (W1 & C1 & S1 & N1).
      destruct (alloc_spec n items' h1) as (W2 & C2 & S2 & N2 & F2);
        try assumption; try lia; [now apply Hitems|].
      destruct (alloc items' h1) as [l h2]. cbn [fst snd] in *.
      injection H as <- <-. split.
      * repeat split; try assumption; [|lia].
        now apply same_below_trans with (next h1) h1.
      * intros l0 [= <-]. lia.
    + injection H as <- <-. split; [exact Hg|]. discriminate.
    + injection H as <- <-. split; [exact Hg|]. discriminate.
Qed.

(** ** Loading a document *)

Lemma json_nested_ind (Q : json -> Prop) :
  Q JNull -> (forall b, Q (JBool b)) -> (forall z, Q (JInt z)) ->
  (forall nz lit, Q (JFloat nz lit)) -> (forall s, Q (JStr s)) ->
  (forall l, Forall Q l -> Q (JArr l)) ->
  (forall d, Forall (fun kv => Q (snd kv)) d -> Q (JObj d)) ->
  forall j, Q j.
Proof.
  intros Hnull Hbool Hint Hfloat Hstr Harr Hobj.
  fix IH 1.
  intros [| b | z | nz lit | s | l | d];
    [exact Hnull|apply Hbool|apply Hint|apply Hfloat|apply Hstr| |].
  - apply Harr. revert l. fix IHl 1.
    intros [|x l]; constructor; [apply IH|apply IHl].
  - apply Hobj. revert d. fix IHd 1.
    intros [|[k x] d]; constructor; [apply IH|apply IHd].
Qed.

Lemma load_list_cons (load : json -> heap -> value * heap) (x : json)
    (r : list json) (h : heap) :
  load_list load (x :: r) h
  = let '(v, h1) := load x h in
    let '(vs, h2) := load_list load r h1 in (v :: vs, h2).
Proof. reflexivity. Qed.

Lemma load_items_cons (load : json -> heap -> value * heap) (k : str) (x : json)
    (r : list (str * json)) (acc : list (str * value)) (h : heap) :
  load_items load ((k, x) :: r) acc h
  = let '(v, h1) := load x h in load_items load r (dict_set k v acc) h1.
Proof. reflexivity. Qed.

Lemma load_json_spec (n : loc) (j : json) :
  forall h, (n <= next h)%nat -> wf h -> closed_above n h ->
    grows n h (snd (load_json j h)) /\ above n (fst (load_json j h)).
Proof.
  induction j as [| b | z | nz lit | s | l IHl | d IHd] using json_nested_ind;
    intros h Hn Hwf Hc; cbn [load_json fst snd];
    try (split; [now apply grows_refl|discriminate]).
  - (* a list: its elements are loaded one after the other *)
    assert (Hlist : forall h, (n <= next h)%nat -> wf h -> closed_above n h ->
                              grows n h (snd (load_list load_json l h))).
    { clear h Hn Hwf Hc. induction IHl as [|x l Hx _ IH]; intros h Hn Hwf Hc.
      - now apply grows_refl.
      - rewrite load_list_cons.
        destruct (Hx h Hn Hwf Hc) as [Hg _].
        destruct (load_json x h) as [v h1]. cbn [snd] in Hg.
        assert (Hg1 := Hg). destruct Hg1 as (W1 & C1 & _ & N1).
        specialize (IH h1 ltac:(unfold Nat.le in *; lia) W1 C1).
        destruct (load_list load_json l h1) as [vs h2]. cbn [snd] in *.
        now apply grows_trans with h1. }
    specialize (Hlist h Hn Hwf Hc).
    destruct (load_list load_json l h) as [vs h']. cbn [fst snd] in *.
    split; [exact Hlist|discriminate].
  - (* a dict: its values are loaded, then the dict is allocated *)
    assert (Hitems : forall acc h,
               (n <= next h)%nat -> wf h -> closed_above n h -> dicts_above n acc ->
               grows n h (snd (load_items load_json d acc h))
               /\ dicts_above n (fst (load_items load_json d acc h))).
    { clear h Hn Hwf Hc. induction IHd as [|[k x] d Hx _ IH];
        intros acc h Hn Hwf Hc Hacc.
      - split; [now apply grows_refl|exact Hacc].
      - rewrite load_items_cons. cbn [snd] in Hx.
        destruct (Hx h Hn Hwf Hc) as [Hg Hv].
        destruct (load_json x h) as [v h1]. cbn [fst snd] in Hg, Hv.
        assert (Hg1 := Hg). destruct Hg1 as (W1 & C1 & _ & N1).
        destruct (IH (dict_set k v acc) h1 ltac:(unfold Nat.le in *; lia) W1 C1)
          as [Hg2 Hfinal]; [now apply dict_set_above|].
        split; [|exact Hfinal]. now apply grows_trans with h1. }
    destruct (Hitems [] h Hn Hwf Hc ltac:(now intros ? ? [])) as [Hg Hfinal].
    destruct (load_items load_json d [] h) as [items h1]. cbn [fst snd] in Hg, Hfinal.
    assert (Hg1 := Hg). destruct Hg1 as (W1 & C1 & _ & N1).
    destruct (alloc_spec n items h1 ltac:(unfold Nat.le in *; lia) W1 C1 Hfinal)
      as (W2 & C2 & S2 & N2 & F2).
    destruct (alloc items h1) as [l h2]. cbn [fst snd] in *.
    split; [|intros l0 [= <-]; unfold Nat.le in *; lia].
    apply grows_trans with h1; [exact Hg|]. repeat split; try assumption.
    unfold Nat.le. lia.
Qed.

(** ** Deep merge *)

Lemma keeps_refl (n : loc) (h : heap) : wf h -> closed_above n h -> keeps n h h.
Proof. intros Hwf Hc. repeat split; assumption. Qed.

Lemma keeps_trans (n : loc) (h1 h2 h3 : heap) :
  keeps n h1 h2 -> keeps n h2 h3 -> keeps n h1 h3.
Proof.
  intros (_ & _ & S12 & N12) (W3 & C3 & S23 & N23).
  repeat split; try assumption; [|congruence].
  now apply same_below_trans with n h2.
Qed.

Lemma assoc_in {V : Type} (k : str) (v : V) (d : list (str * V)) :
  assoc k d = Some v -> exists k', In (k', v) d.
Proof.
  induction d as [|[k0 v0] d IH]; cbn [assoc]; [discriminate|].
  destruct (str_eqb k0 k).
  - intros [= ->]. exists k0. now left.
  - intros H. destruct (IH H) as (k' & Hin). exists k'. now right.
Qed.

Lemma merge_items_cons (merge : loc -> value -> heap -> outcome unit * heap)
    (base : loc) (k : str) (v : value) (rest : list (str * value)) (h : heap) :
  merge_items merge base ((k, v) :: rest) h
  = match objs h !! base with
    | None => (Raise RuntimeError, h)
    | Some b =>
        match assoc k b, v with
        | Some (VDict bk), VDict _ =>
            match merge bk v h with
            | (Ret _, h') => merge_items merge base rest h'
            | other => other
            end
        | _, _ => merge_items merge base rest (store base (dict_set k v b) h)
        end
    end.
Proof. reflexivity. Qed.

Lemma deep_merge_succ (fuel : nat) (base : loc) (override : value) (h : heap) :
  _deep_merge (S fuel) base override h
  = match override with
    | VDict o =>
        match objs h !! o with
        | None => (Raise RuntimeError, h)
        | Some items => merge_items (_deep_merge fuel) base items h
        end
    | _ => (Raise AttributeError, h)
    end.
Proof. reflexivity. Qed.

Lemma merge_items_spec (n : loc)
    (merge : loc -> value -> heap -> outcome unit * heap) :
  (forall base v h o h',
      (n <= base)%nat -> above n v -> wf h -> closed_above n h ->
      merge base v h = (o, h') -> keeps n h h') ->
  forall items base h o h',
    (n <= base)%nat -> dicts_above n items -> wf h -> closed_above n h ->
    merge_items merge base items h = (o, h') -> keeps n h h'.
Proof.
  intros Hmerge. induction items as [|[k v] items IH];
    intros base h o h' Hbase Hitems Hwf Hc H.
  - injection H as <- <-. now apply keeps_refl.
  - rewrite merge_items_cons in H.
    destruct (objs h !! base) as [b|] eqn:Eb.
    2:{ injection H as <- <-. now apply keeps_refl. }
    assert (Hrest : dicts_above n items).
    { intros k' l' Hin. apply (Hitems k'). now right. }
    assert (Hv : above n v).
    { intros l ->. apply (Hitems k). now left. }
    assert (Hstore : merge_items merge base items (store base (dict_set k v b) h)
                     = (o, h') -> keeps n h h').
    { intros H'.
      destruct (store_spec n base (dict_set k v b) b h Hbase Eb Hwf Hc)
        as (W1 & C1 & S1 & N1).
      { apply dict_set_above; [exact Hv|]. intros k' l'. now apply (Hc base b). }
      apply keeps_trans with (store base (dict_set k v b) h); [now repeat split|].
      now apply (IH base _ o h'). }
    destruct (assoc k b) as [[| ? | ? | ? ? | ? | ? | bk]|] eqn:Ea;
      try (now apply Hstore).
    destruct v as [| ? | ? | ? ? | ? | ? | vl]; try (now apply Hstore).
    destruct (merge bk (VDict vl) h) as [[[]| e |] h1] eqn:Em.
    + assert (Hk : keeps n h h1).
      { apply (Hmerge _ _ _ _ _) in Em; try assumption.
        apply assoc_in in Ea as (k' & Hin). now apply (Hc base b k'). }
      apply keeps_trans with h1; [exact Hk|].
      destruct Hk as (W1 & C1 & _ & _). now apply (IH base h1 o h').
    + injection H as <- <-. apply (Hmerge _ _ _ _ _) in Em; try assumption.
      apply assoc_in in Ea as (k' & Hin). now apply (Hc base b k').
    + injection H as <- <-. apply (Hmerge _ _ _ _ _) in Em; try assumption.
      apply assoc_in in Ea as (k' & Hin). now apply (Hc base b k').
Qed.

Lemma deep_merge_spec (n : loc) (fuel : nat) :
  forall base v h o h',
    (n <= base)%nat -> above n v -> wf h -> closed_above n h ->
    _deep_merge fuel base v h = (o, h') -> keeps n h h'.
Proof.
  induction fuel as [|fuel IH]; intros base v h o h' Hbase Hv Hwf Hc H.
  - injection H as <- <-. now apply keeps_refl.
  - rewrite deep_merge_succ in H.
    destruct v as [| ? | ? | ? ? | ? | ? | ov];
      try (injection H as <- <-; now apply keeps_refl).
    destruct (objs h !! ov) as [items|] eqn:Eo.
    2:{ injection H as <- <-. now apply keeps_refl. }
    apply (merge_items_spec n _ IH) in H; try assumption.
    intros k l' Hin. apply (Hc ov items k l'); [now apply Hv|exact Eo|exact Hin].
Qed.

(** ** Loading the settings *)

Lemma wf_closed (h : heap) : wf h -> closed_above (next h) h.
Proof. intros Hwf l items k l' Hl Hlook. apply Hwf in Hlook. lia. Qed.

(** A call of [load_settings], however it ends, leaves every dictionary
    that existed before the call as it was. *)
Lemma load_settings_frame (fuel : nat) (file : settings_file) (h h' : heap)
    (o : outcome loc) :
  wf h -> load_settings fuel file h = (o, h') ->
  wf h' /\ same_below (next h) h h' /\ (next h <= next h')%nat.
Proof.
  intros Hwf H. unfold load_settings in H.
  pose proof (wf_closed h Hwf) as Hc.
  destruct (_deep_copy_dict fuel DEFAULTS h) as [[settings| e |] h1] eqn:Ecopy;
    destruct (deep_copy_spec (next h) fuel _ _ _ _ (Nat.le_refl _) Hwf Hc Ecopy)
      as [(W1 & C1 & S1 & N1) Hsettings]; unfold Nat.le in N1.
  2,3: injection H as <- <-; now repeat split.
  specialize (Hsettings settings eq_refl).
  destruct file as [[e|j]|].
  - injection H as <- <-. now repeat split.
  - destruct (load_json_spec (next h) j h1 N1 W1 C1) as [(W2 & C2 & S2 & N2) Hov].
    unfold Nat.le in N2.
    destruct (load_json j h1) as [override h2]. cbn [fst snd] in *.
    destruct (_deep_merge fuel settings override h2) as [r h3] eqn:Emerge.
    destruct (deep_merge_spec (next h) fuel _ _ _ _ _ Hsettings Hov W2 C2 Emerge)
      as (W3 & C3 & S3 & N3).
    assert (Hsame : same_below (next h) h h3).
    { apply same_below_trans with (next h) h2; [lia| |exact S3].
      apply same_below_trans with (next h1) h1; [lia|exact S1|exact S2]. }
    destruct r as [[]| e |]; injection H as <- <-; repeat split;
      try assumption; lia.
  - injection H as <- <-. now repeat split.
Qed.

(** What holds of the store whenever [load_settings] is called. *)
Local Abbreviation settled h := (wf h /\ defaults_intact h /\ Nat.le 2 (next h)).

Lemma initial_heap_settled : settled initial_heap.
Proof.
  split; [|split; [split; reflexivity|cbn; lia]].
  intros l items. unfold initial_heap. cbn [objs next].
  destruct (decide (l = 1%nat)) as [->|H1]; [lia|].
  destruct (decide (l = 0%nat)) as [->|H0]; [lia|].
  now rewrite !lookup_insert_ne, lookup_empty by congruence.
Qed.

Lemma load_settings_settled (fuel : nat) (file : settings_file) (h : heap) :
  settled h -> settled (snd (load_settings fuel file h)).
Proof.
  intros (Hwf & [Hd Hs] & Hn).
  destruct (load_settings fuel file h) as [o h'] eqn:E.
  destruct (load_settings_frame _ _ _ _ _ Hwf E) as (W & S & N).
  cbn [snd]. split; [exact W|]. split; [|lia].
  split; [rewrite <- Hd|rewrite <- Hs]; apply S; unfold DEFAULTS; lia.
Qed.

Lemma load_many_settled (fuel : nat) (files : list settings_file) :
  forall h, settled h -> settled (load_many fuel files h).
Proof.
  induction files as [|file files IH]; intros h Hh; [exact Hh|].
  cbn [load_many fold_left]. apply IH. now apply load_settings_settled.
Qed.

Lemma defaults_structure (h : heap) :
  defaults_intact h -> structure 3 h (VDict DEFAULTS) = Some defaults_document.
Proof.
  intros [Hd Hs]. cbn [structure]. rewrite Hd. cbn. rewrite Hs. reflexivity.
Qed.

Lemma deep_copy_succ (fuel : nat) (d : loc) (h : heap) :
  _deep_copy_dict (S fuel) d h
  = match objs h !! d with
    | None => (Raise RuntimeError, h)
    | Some items =>
        match copy_items (_deep_copy_dict fuel) items [] h with
        | (Ret items', h') => let '(l, h'') := alloc items' h' in (Ret l, h'')
        | (Raise e, h') => (Raise e, h')
        | (OutOfFuel, h') => (OutOfFuel, h')
        end
    end.
Proof. reflexivity. Qed.

(** Without a settings file the call returns a fresh copy of the defaults:
    two new dictionaries, with the structure of [DEFAULTS]. *)
Lemma load_settings_missing_file (fuel : nat) (h : heap) :
  defaults_intact h ->
  load_settings (S (S fuel)) None h
  = (Ret (S (next h)),
     {| objs := <[S (next h) := [(u "server", VDict (next h))]]>
                  (<[next h := server_defaults]> (objs h));
        next := S (S (next h)) |}).
Proof.
  intros [Hd Hs]. unfold load_settings.
  rewrite deep_copy_succ, Hd. cbn [copy_items].
  rewrite deep_copy_succ, Hs. reflexivity.
Qed.

(** C10: [load_settings] never changes [DEFAULTS].  After any sequence of
    calls, whatever the settings files hold and however each call ends,
    the two dictionaries of [DEFAULTS] are as the module defines them and
    [DEFAULTS] still has the structure
    [{"server": {"host": "0.0.0.0", "port": 8001}}]; and a call for a path
    that does not exist then returns a dictionary that is not [DEFAULTS]
    itself, made of new objects, with that same structure. *)
Theorem load_settings_never_mutates_defaults
    (fuel : nat) (files : list settings_file) :
  defaults_intact (load_many fuel files initial_heap)
  /\ structure 3 (load_many fuel files initial_heap) (VDict DEFAULTS)
     = Some defaults_document
  /\ forall fuel' : nat,
       exists (settings : loc) (h' : heap),
         load_settings (S (S fuel')) None (load_many fuel files initial_heap)
         = (Ret settings, h')
         /\ settings <> DEFAULTS
         /\ objs (load_many fuel files initial_heap) !! settings = None
         /\ structure 3 h' (VDict settings) = Some defaults_document
         /\ defaults_intact h'
         /\ structure 3 h' (VDict DEFAULTS) = Some defaults_document.
Proof.
  destruct (load_many_settled fuel files initial_heap initial_heap_settled)
    as (Hwf & Hintact & Hnext).
  set (h := load_many fuel files initial_heap) in *.
  split; [exact Hintact|]. split; [now apply defaults_structure|].
  intros fuel'.
  pose proof (load_settings_settled (S (S fuel')) None h
                (conj Hwf (conj Hintact Hnext))) as (_ & Hintact' & _).
  rewrite (load_settings_missing_file fuel' h Hintact) in Hintact' |- *.
  cbn [snd] in Hintact'.
  eexists _, _. split; [reflexivity|].
  split; [unfold DEFAULTS; lia|].
  split.
  { destruct (objs h !! S (next h)) as [items|] eqn:E; [|reflexivity].
    apply Hwf in E. lia. }
  split; [|split; [exact Hintact'|now apply defaults_structure]].
  cbn [structure objs]. rewrite lookup_insert_eq. cbn.
  rewrite lookup_insert_ne by lia. rewrite lookup_insert_eq. reflexivity.
Qed.

Example load_settings_example :
  let file := Some (inr (JObj [(u "server", JObj [(u "port", JInt 9000)])])) in
  let h := load_many 5 [file; None; Some (inl OSError); Some (inr (JArr []))]
             initial_heap in
  structure 3 h (VDict DEFAULTS) = Some defaults_document
  /\ match load_settings 5 file h with
     | (Ret settings, h') =>
         structure 3 h' (VDict settings)
         = Some (JObj [(u "server",
                        JObj [(u "host", JStr (u "0.0.0.0")); (u "port", JInt 9000)])])
         /\ structure 3 h' (VDict DEFAULTS) = Some defaults_document
     | _ => False
     end.
Proof. vm_compute. repeat split. Qed.

End SettingsFacts.

(* ===================================================================== *)
(** * The task parser on whole notes *)
(* ===================================================================== *)

Module TaskLineFacts.
Import Joplin Shapes StrFacts ParserFacts SortFacts.

(** ** Lines *)

Lemma splitlines_from_plain (l : str) :
  forall cur rest : str,
    forallb (fun c => negb (is_linebreak c)) l = true ->
    splitlines_from cur (l ++ rest) = splitlines_from (rev l ++ cur) rest.
Proof.
  induction l as [|c l IH]; intros cur rest H; [reflexivity|].
  cbn [forallb] in H. apply andb_prop in H as [Hc Hl].
  cbn [app splitlines_from]. destruct (is_linebreak c); [discriminate|].
  rewrite IH by exact Hl. cbn [rev]. now rewrite <- app_assoc.
Qed.

(** The lines of [a], a line feed, then [b]: the lines of [a], perhaps an
    empty line, and the lines of [b]. *)
Lemma splitlines_from_app (b : str) (n : nat) :
  forall a cur : str,
    (length a <= n)%nat ->
    exists X : list str,
      splitlines_from cur (a ++ LF :: b) = X ++ splitlines b
      /\ List.filter is_task_line X = List.filter is_task_line (splitlines_from cur a).
Proof.
  induction n as [|n IH]; intros a cur Hlen.
  - destruct a; [|cbn [length] in Hlen; lia].
    exists [rev cur]. split.
    + cbn [app splitlines_from]. change (is_linebreak LF) with true. cbv iota.
      destruct b as [|c' r']; reflexivity.
    + destruct cur as [|c cur]; reflexivity.
  - destruct a as [|c r].
    { exists [rev cur]. split.
      + cbn [app splitlines_from]. change (is_linebreak LF) with true. cbv iota.
        destruct b as [|c' r']; reflexivity.
      + destruct cur as [|c cur]; reflexivity. }
    cbn [length] in Hlen. cbn [app splitlines_from].
    destruct (is_linebreak c) eqn:Hbreak.
    + destruct r as [|c1 r1].
      * cbn [app]. destruct (c =? CR) eqn:Hcr.
        -- change (LF =? LF) with true. cbn [andb].
           exists [rev cur]. split; reflexivity.
        -- cbn [andb]. exists [rev cur; []]. split; [|reflexivity].
           cbn [splitlines_from]. change (is_linebreak LF) with true. cbv iota.
           destruct b as [|c' r']; reflexivity.
      * cbn [app]. destruct ((c =? CR) && (c1 =? LF)).
        -- destruct (IH r1 [] ltac:(cbn [length] in Hlen; lia)) as (X & EX & HX).
           exists (rev cur :: X). split; [now rewrite EX|].
           cbn [List.filter]. now rewrite HX.
        -- destruct (IH (c1 :: r1) [] ltac:(cbn [length] in *; lia)) as (X & EX & HX).
           exists (rev cur :: X). split; [cbn [app] in EX; now rewrite EX|].
           cbn [List.filter]. now rewrite HX.
    + apply IH. lia.
Qed.

Lemma task_lines_app (a b : str) :
  List.filter is_task_line (splitlines (a ++ LF :: b))
  = List.filter is_task_line (splitlines a) ++ List.filter is_task_line (splitlines b).
Proof.
  unfold splitlines at 1 2.
  destruct (splitlines_from_app b (length a) a [] (Nat.le_refl _)) as (X & -> & HX).
  now rewrite List.filter_app, HX.
Qed.

(** The entries of a text after its first lines. *)
Lemma parse_tasks_after (a b : str) :
  parse_tasks (a ++ LF :: b) = parse_tasks a ++ parse_tasks b.
Proof.
  unfold parse_tasks. rewrite !parse_tasks_fold.
  rewrite task_lines_app, List.map_app. apply omap_app.
Qed.

(** X1: the task parser reads a note piece by piece: the entries of two
    texts joined by a line feed are the entries of the first followed by
    the entries of the second. *)
Theorem parse_tasks_app (a b : str) :
  parse_tasks (a ++ [LF] ++ b) = parse_tasks a ++ parse_tasks b.
Proof.
  unfold parse_tasks. rewrite !parse_tasks_fold. cbn [app].
  rewrite task_lines_app, List.map_app. apply omap_app.
Qed.

(** ** One clean line *)

Lemma lstrip_by_length (p : char -> bool) (s : str) :
  (length (lstrip_by p s) <= length s)%nat.
Proof.
  induction s as [|c s IH]; [reflexivity|]. cbn [lstrip_by].
  destruct (p c); cbn [length]; lia.
Qed.

Lemma lstrip_by_fixed (p : char -> bool) (c : char) (s : str) :
  lstrip_by p (c :: s) = c :: s -> p c = false.
Proof.
  cbn [lstrip_by]. destruct (p c); [|reflexivity]. intros H.
  pose proof (lstrip_by_length p s) as Hlen. rewrite H in Hlen.
  cbn [length] in Hlen. lia.
Qed.

Lemma rstrip_by_length (p : char -> bool) (s : str) :
  (length (rstrip_by p s) <= length s)%nat.
Proof.
  unfold rstrip_by. rewrite length_rev.
  etransitivity; [apply lstrip_by_length|]. now rewrite length_rev.
Qed.

(** A trimmed text starts and ends with a character that is no white
    space. *)
Lemma strip_fixed_ends (s : str) :
  strip s = s -> s <> [] ->
  is_space (hd 0 s) = false /\ is_space (List.last s 0) = false.
Proof.
  intros H Hne. destruct s as [|c s]; [congruence|]. cbn [hd].
  assert (Hc : is_space c = false).
  { destruct (is_space c) eqn:E; [|reflexivity]. exfalso.
    unfold strip in H. cbn [lstrip_by] in H. rewrite E in H.
    pose proof (rstrip_by_length is_space (lstrip_by is_space s)) as H1.
    pose proof (lstrip_by_length is_space s) as H2.
    rewrite H in H1. cbn [length] in H1. lia. }
  split; [exact Hc|].
  unfold strip in H. cbn [lstrip_by] in H. rewrite Hc in H.
  unfold rstrip_by in H. apply (f_equal (@rev char)) in H.
  rewrite rev_involutive in H.
  destruct (exists_last (l := c :: s) ltac:(discriminate)) as (s' & x & E).
  rewrite E in H |- *. rewrite last_last. rewrite rev_app_distr in H.
  cbn [rev app] in H. now apply lstrip_by_fixed in H.
Qed.

Lemma strip_ends (s : str) :
  is_space (hd 0 s) = false -> is_space (List.last s 0) = false -> strip s = s.
Proof.
  intros Hhd Hlast. destruct s as [|c s]; [reflexivity|]. cbn [hd] in Hhd.
  unfold strip. cbn [lstrip_by]. rewrite Hhd.
  destruct (exists_last (l := c :: s) ltac:(discriminate)) as (s' & x & E).
  rewrite E in Hlast |- *. rewrite last_last in Hlast.
  now apply rstrip_by_keep.
Qed.

Lemma clean_field_spec (f : str) :
  clean_field f = true ->
  strip f = f
  /\ forallb (fun c => negb (c =? 59)) f = true
  /\ forallb (fun c => negb (is_linebreak c)) f = true.
Proof.
  unfold clean_field. intros H. apply andb_prop in H as [Hs Hf].
  apply str_eqb_eq in Hs. split; [exact Hs|].
  clear Hs. induction f as [|c f IH]; [now split|].
  cbn [forallb] in Hf |- *. apply andb_prop in Hf as [Hc Hf].
  apply andb_prop in Hc as [-> ->]. now destruct (IH Hf) as [-> ->].
Qed.

Lemma task_line_fields (e : entry) :
  clean_entry e = true ->
  fields_of (task_line e) = [date e; headline e; context e]
  /\ is_task_line (task_line e) = true
  /\ forallb (fun c => negb (is_linebreak c)) (task_line e) = true
  /\ task_line e <> [].
Proof.
  unfold clean_entry. intros H.
  apply andb_prop in H as [H Hhash]. apply andb_prop in H as [H Hh_ne].
  apply andb_prop in H as [H Hd_ne]. apply andb_prop in H as [H Hc].
  apply andb_prop in H as [Hd Hh].
  destruct e as [d h c]. cbn [date headline context] in *. unfold task_line.
  cbn [date headline context].
  apply clean_field_spec in Hd as (Sd & Nd & Ld).
  apply clean_field_spec in Hh as (Sh & Nh & Lh).
  apply clean_field_spec in Hc as (Sc & Nc & Lc).
  destruct d as [|d0 d]; [discriminate|]. destruct h as [|h0 h]; [discriminate|].
  destruct (strip_fixed_ends _ Sd ltac:(discriminate)) as [Hd0 _].
  cbn [hd] in Hd0.
  assert (Hline : strip ((d0 :: d) ++ [59] ++ (h0 :: h) ++ [59] ++ c)
                  = (d0 :: d) ++ [59] ++ (h0 :: h) ++ [59] ++ c).
  { apply strip_ends; [exact Hd0|].
    rewrite !app_assoc. destruct c as [|c0 c1].
    - rewrite app_nil_r, last_last. reflexivity.
    - destruct (strip_fixed_ends _ Sc ltac:(discriminate)) as [_ Hl].
      destruct (exists_last (l := c0 :: c1) ltac:(discriminate)) as (c' & x & E).
      rewrite E in Hl |- *. rewrite app_assoc, last_last.
      now rewrite last_last in Hl. }
  split; [|split; [|split]].
  - unfold fields_of. rewrite Hline.
    change ((d0 :: d) ++ [59] ++ (h0 :: h) ++ [59] ++ c)
      with ((d0 :: d) ++ 59 :: ((h0 :: h) ++ 59 :: c)).
    rewrite split_on_app by exact Nd. rewrite split_on_app by exact Nh.
    rewrite split_on_single by exact Nc. cbn [List.map]. now rewrite Sd, Sh, Sc.
  - unfold is_task_line. rewrite Hline. cbn [app is_empty negb andb].
    cbn [u list_ascii_of_string List.map startswith] in Hhash |- *. exact Hhash.
  - rewrite !forallb_app.
    apply andb_true_intro; split; [exact Ld|].
    apply andb_true_intro; split; [reflexivity|].
    apply andb_true_intro; split; [exact Lh|].
    apply andb_true_intro; split; [reflexivity|exact Lc].
  - discriminate.
Qed.

Lemma parse_task_line (e : entry) :
  clean_entry e = true -> parse_tasks (task_line e) = [e].
Proof.
  intros H. destruct (task_line_fields e H) as (Hf & Ht & Hl & Hne).
  unfold parse_tasks. rewrite parse_tasks_fold. cbn [app].
  assert (Hlines : splitlines (task_line e) = [task_line e]).
  { unfold splitlines. rewrite <- (app_nil_r (task_line e)) at 1.
    rewrite splitlines_from_plain by exact Hl. cbn [splitlines_from].
    rewrite app_nil_r. destruct (rev (task_line e)) eqn:E.
    - apply (f_equal (@rev char)) in E. rewrite rev_involutive in E. contradiction.
    - rewrite <- E. now rewrite rev_involutive. }
  rewrite Hlines. cbn [List.filter]. rewrite Ht. cbn [List.map]. rewrite Hf.
  unfold clean_entry in H.
  apply andb_prop in H as [H _]. apply andb_prop in H as [H Hh_ne].
  apply andb_prop in H as [_ Hd_ne].
  destruct e as [d h c]. cbn [date headline context] in *.
  destruct d; [discriminate|]. destruct h; [discriminate|]. reflexivity.
Qed.

(** X2: what the parser returns can be written back and read again: for
    entries with clean fields (trimmed, without [;] and line boundaries, a
    date and a headline that are not empty, a date that does not start
    with [#]), the note made of their lines [date;headline;context]
    parses to exactly these entries, in order. *)
Theorem parse_tasks_of_lines (es : list entry) :
  forallb clean_entry es = true ->
  parse_tasks (join [LF] (List.map task_line es)) = es.
Proof.
  induction es as [|e es IH]; intros H; [reflexivity|].
  cbn [forallb] in H. apply andb_prop in H as [He Hes].
  destruct es as [|e' es].
  - cbn [List.map join]. now apply parse_task_line.
  - cbn [List.map]. rewrite join_cons2. cbn [app]. rewrite parse_tasks_after.
    rewrite parse_task_line by exact He.
    cbn [List.map] in IH. now rewrite IH.
Qed.

(** The theorem on two entries, one of them without context. *)
Lemma parse_tasks_of_lines_example :
  parse_tasks (join [LF] (List.map task_line
                 [Entry (u "2024-01-01") (u "Buy milk") [];
                  Entry (u "2024-01-02") (u "Call bank") (u "home")]))
  = [Entry (u "2024-01-01") (u "Buy milk") [];
     Entry (u "2024-01-02") (u "Call bank") (u "home")].
Proof.
  apply (parse_tasks_of_lines
           [Entry (u "2024-01-01") (u "Buy milk") [];
            Entry (u "2024-01-02") (u "Call bank") (u "home")]).
  vm_compute. reflexivity.
Defined.

End TaskLineFacts.

(* ===================================================================== *)
(** * The sync-item format: what a parse keeps *)
(* ===================================================================== *)

Module ItemShapeFacts.
Import Joplin Shapes StrFacts ItemFacts ClearFacts.

(** ** The id line and the two loops *)

Lemma find_id_line_split (ls : list str) :
  forall i : nat,
    match find_id_line i ls with
    | Some k =>
        exists (pre : list str) (l : str) (rest : list str),
          ls = pre ++ l :: rest /\ k = (i + length pre)%nat
          /\ Forall (fun l => is_id_line l = false) pre /\ is_id_line l = true
    | None => Forall (fun l => is_id_line l = false) ls
    end.
Proof.
  induction ls as [|l ls IH]; intros i; cbn [find_id_line]; [constructor|].
  destruct (is_id_line l) eqn:E.
  - exists [], l, ls. repeat split; [cbn [length]; lia|constructor|exact E].
  - specialize (IH (S i)). destruct (find_id_line (S i) ls) as [k|].
    + destruct IH as (pre & l' & rest & -> & -> & Hpre & Hl').
      exists (l :: pre), l', rest. repeat split; [cbn [length]; lia| |exact Hl'].
      now constructor.
    + now constructor.
Qed.

Lemma body_start_loop_inv (n : nat) (lines : list str) (ms : nat) :
  forall bs : nat,
    (bs <= ms)%nat ->
    let r := body_start_loop n lines ms bs in
    (bs <= r <= ms)%nat
    /\ forall j, (bs <= j < r)%nat -> blank (nth j lines []) = true.
Proof.
  induction n as [|n IH]; intros bs Hbs; cbn zeta.
  - cbn [body_start_loop]. split; [lia|]. intros j Hj. lia.
  - rewrite body_start_loop_step.
    destruct ((bs <? ms)%nat && is_empty (strip (nth bs lines []))) eqn:Hc.
    + apply andb_prop in Hc as [Hlt Hblank]. apply Nat.ltb_lt in Hlt.
      destruct (IH (bs + 1)%nat ltac:(lia)) as [Hr Hall]. split; [lia|].
      intros j Hj. destruct (Nat.eq_dec j bs) as [->|Hne]; [exact Hblank|].
      apply Hall. lia.
    + split; [lia|]. intros j Hj. lia.
Qed.

Lemma body_end_loop_inv (n : nat) (lines : list str) (bs : nat) :
  forall be : nat,
    (bs <= be)%nat ->
    let r := body_end_loop n lines bs be in
    (bs <= r <= be)%nat
    /\ forall j, (r <= j < be)%nat -> blank (nth j lines []) = true.
Proof.
  induction n as [|n IH]; intros be Hbe; cbn zeta.
  - cbn [body_end_loop]. split; [lia|]. intros j Hj. lia.
  - rewrite body_end_loop_step.
    destruct ((bs <? be)%nat && is_empty (strip (nth (be - 1) lines []))) eqn:Hc.
    + apply andb_prop in Hc as [Hlt Hblank]. apply Nat.ltb_lt in Hlt.
      destruct (IH (be - 1)%nat ltac:(lia)) as [Hr Hall]. split; [lia|].
      intros j Hj. destruct (Nat.eq_dec j (be - 1)%nat) as [->|Hne]; [exact Hblank|].
      apply Hall. lia.
    + split; [lia|]. intros j Hj. lia.
Qed.

(** ** Segments of a list *)

Lemma segment_split {A} (l : list A) (a b : nat) :
  (a <= b)%nat -> drop a l = take (b - a) (drop a l) ++ drop b l.
Proof.
  intros H. rewrite <- (take_drop (b - a) (drop a l)) at 1.
  rewrite drop_drop. do 2 f_equal. lia.
Qed.

Lemma segment_Forall {A} (P : A -> Prop) (d : A) (l : list A) (a b : nat) :
  (b <= length l)%nat ->
  (forall j, (a <= j < b)%nat -> P (nth j l d)) ->
  Forall P (take (b - a) (drop a l)).
Proof.
  intros Hb H. apply Forall_lookup. intros i x Hi.
  apply lookup_take_Some in Hi as [Hi Hlt]. rewrite lookup_drop in Hi.
  specialize (H (a + i)%nat ltac:(lia)). rewrite nth_lookup, Hi in H. exact H.
Qed.

Lemma single_lines_segment (lines : list str) (a k : nat) :
  forallb single_line lines = true ->
  forallb single_line (take k (drop a lines)) = true.
Proof.
  intros H. rewrite <- (take_drop a lines), forallb_app in H.
  apply andb_prop in H as [_ H].
  rewrite <- (take_drop k (drop a lines)), forallb_app in H.
  now apply andb_prop in H as [H _].
Qed.

(** X3: a parse loses nothing but blank lines around the body and line
    feeds at the end.  The lines of the content, once the final line feeds
    are dropped, are the title, blank lines, the lines of the body, blank
    lines, and the metadata lines; no id line stands before the metadata
    lines, which, unless there are none, begin with the id line; and a
    body that is not empty begins and ends with a line that is not
    blank. *)
Theorem parse_item_keeps_lines (content : str) (it : item) :
  _parse_joplin_item content = Ret it ->
  exists pre post : list str,
    split_on LF (rstrip_by (N.eqb LF) content)
    = title it :: pre ++ body_lines (body it) ++ post ++ metadata_lines it
    /\ Forall (fun l => blank l = true) pre
    /\ Forall (fun l => blank l = true) post
    /\ Forall (fun l => is_id_line l = false) (pre ++ body_lines (body it) ++ post)
    /\ (metadata_lines it = [] \/ is_id_line (hd [] (metadata_lines it)) = true)
    /\ (body it = []
        \/ (blank (hd [] (body_lines (body it))) = false
            /\ blank (List.last (body_lines (body it)) []) = false)).
Proof.
  unfold _parse_joplin_item.
  pose proof (split_on_lines LF (rstrip_by (N.eqb LF) content)) as Hsingle.
  destruct (split_on_cons LF (rstrip_by (N.eqb LF) content)) as (t & tl & E).
  rewrite E in Hsingle |- *. set (lines := t :: tl) in *.
  (* the metadata block *)
  assert (Hmeta : exists pre0 meta : list str,
    tl = pre0 ++ meta /\ find_metadata_start lines = S (length pre0)
    /\ Forall (fun l => is_id_line l = false) pre0
    /\ (meta = [] \/ is_id_line (hd [] meta) = true)).
  { unfold find_metadata_start, lines. cbn [tail length].
    pose proof (find_id_line_split tl 1) as H.
    destruct (find_id_line 1 tl) as [k|]; cbn [default].
    - destruct H as (pre0 & l & rest & -> & -> & Hpre & Hl).
      exists pre0, (l :: rest). repeat split; [exact Hpre|now right].
    - exists tl, []. rewrite app_nil_r. repeat split; [exact H|now left]. }
  destruct Hmeta as (pre0 & meta & Etl & Hms & Hnoid & Hid).
  rewrite Hms. set (ms := S (length pre0)) in *.
  assert (Hlen : length lines = (ms + length meta)%nat).
  { unfold lines, ms. cbn [length]. rewrite Etl, length_app. lia. }
  assert (Hdrop : drop ms lines = meta).
  { unfold lines, ms. cbn [drop]. rewrite Etl. now rewrite drop_app_length. }
  rewrite Hdrop.
  (* the two loops *)
  destruct (body_start_loop_inv (length lines) lines ms 1 ltac:(unfold ms; lia))
    as [Hbs Hpre].
  pose proof (body_start_loop_exit (length lines) lines ms 1 ltac:(lia)) as Hbs_exit.
  cbn zeta in Hbs, Hpre, Hbs_exit.
  set (bs := body_start_loop (length lines) lines ms 1) in *.
  destruct (body_end_loop_inv (length lines) lines bs ms ltac:(lia)) as [Hbe Hpost].
  pose proof (body_end_loop_exit (length lines) lines bs ms ltac:(lia)) as Hbe_exit.
  cbn zeta in Hbe, Hpost, Hbe_exit.
  set (be := body_end_loop (length lines) lines bs ms) in *.
  destruct (py_int (type_field (metadata_of meta))) as [ty|]; [|discriminate].
  intros [= <-]. cbn [title body metadata_lines].
  set (mid := take (be - bs) (drop bs lines)).
  exists (take (bs - 1) (drop 1 lines)), (take (ms - be) (drop be lines)).
  assert (Hshape : lines = t :: take (bs - 1) (drop 1 lines) ++ mid
                             ++ take (ms - be) (drop be lines) ++ meta).
  { unfold mid. rewrite <- Hdrop.
    rewrite <- (segment_split lines be ms) by lia.
    rewrite <- (segment_split lines bs be) by lia.
    rewrite <- (segment_split lines 1 bs) by lia. reflexivity. }
  assert (Hmid_blank : (bs < be)%nat ->
            blank (hd [] mid) = false /\ blank (List.last mid []) = false).
  { intros Hlt. unfold mid. split.
    - replace (hd [] (take (be - bs) (drop bs lines))) with (nth bs lines []).
      + replace (bs <? ms)%nat with true in Hbs_exit
          by (symmetry; apply Nat.ltb_lt; lia).
        exact Hbs_exit.
      + rewrite nth_lookup. destruct (be - bs)%nat as [|k] eqn:Ek; [lia|].
        rewrite <- (Nat.add_0_r bs) at 1. rewrite <- lookup_drop.
        destruct (drop bs lines) as [|x r]; reflexivity.
    - replace (List.last (take (be - bs) (drop bs lines)) [])
        with (nth (be - 1) lines []).
      + replace (bs <? be)%nat with true in Hbe_exit
          by (symmetry; apply Nat.ltb_lt; lia).
        exact Hbe_exit.
      + rewrite nth_lookup.
        assert (Hl : length (take (be - bs) (drop bs lines)) = (be - bs)%nat).
        { rewrite length_take, length_drop. lia. }
        destruct (exists_last (l := take (be - bs) (drop bs lines))) as (m & x & Em).
        { intros Enil. rewrite Enil in Hl. cbn [length] in Hl. lia. }
        rewrite Em, last_last.
        assert (Hx : take (be - bs) (drop bs lines) !! (be - bs - 1)%nat = Some x).
        { rewrite Em. rewrite Em, length_app in Hl. cbn [length] in Hl.
          apply list_lookup_middle. lia. }
        apply lookup_take_Some in Hx as [Hx _]. rewrite lookup_drop in Hx.
        replace (bs + (be - bs - 1))%nat with (be - 1)%nat in Hx by lia.
        now rewrite Hx. }
  assert (Hbody : body_lines (if (bs <? be)%nat then join [LF] mid else []) = mid).
  { destruct (bs <? be)%nat eqn:Hlt.
    - apply Nat.ltb_lt in Hlt. destruct (Hmid_blank Hlt) as [Hfirst _].
      unfold body_lines.
      assert (Hne : mid <> []).
      { intros Enil. rewrite Enil in Hfirst. discriminate. }
      destruct mid as [|m0 mr] eqn:Em; [congruence|]. cbn [hd] in Hfirst.
      rewrite join_nonempty by (now apply strip_nonempty).
      apply split_on_join; [discriminate|].
      rewrite <- Em. unfold mid. now apply single_lines_segment.
    - apply Nat.ltb_ge in Hlt. unfold mid.
      replace (be - bs)%nat with 0%nat by lia. reflexivity. }
  fold mid. rewrite Hbody.
  split; [exact Hshape|].
  split.
  { apply (segment_Forall _ [] lines 1 bs); [change (bs <= length lines)%nat; lia|].
    intros j Hj. apply Hpre. lia. }
  split.
  { apply (segment_Forall _ [] lines be ms); [change (ms <= length lines)%nat; lia|].
    intros j Hj. apply Hpost. lia. }
  split.
  { assert (Epre0 : pre0 = take (bs - 1) (drop 1 lines) ++ mid
                          ++ take (ms - be) (drop be lines)).
    { apply (f_equal (drop 1)) in Hshape. cbn [drop] in Hshape.
      unfold lines in Hshape at 1. cbn [drop] in Hshape. rewrite Etl in Hshape.
      rewrite !app_assoc in Hshape. apply app_inv_tail in Hshape.
      now rewrite <- !app_assoc in Hshape. }
    now rewrite <- Epre0. }
  split; [exact Hid|].
  destruct (bs <? be)%nat eqn:Hlt; [right|now left].
  apply Nat.ltb_lt in Hlt. now apply Hmid_blank.
Qed.

(** The theorem on the example text. *)
Lemma parse_item_keeps_lines_example :
  exists pre post : list str,
    split_on LF (rstrip_by (N.eqb LF) example_item_text)
    = title example_item
      :: pre ++ body_lines (body example_item) ++ post ++ metadata_lines example_item
    /\ Forall (fun l => blank l = true) pre
    /\ Forall (fun l => blank l = true) post
    /\ Forall (fun l => is_id_line l = false)
         (pre ++ body_lines (body example_item) ++ post)
    /\ (metadata_lines example_item = []
        \/ is_id_line (hd [] (metadata_lines example_item)) = true)
    /\ (body example_item = []
        \/ (blank (hd [] (body_lines (body example_item))) = false
            /\ blank (List.last (body_lines (body example_item)) []) = false)).
Proof.
  apply (parse_item_keeps_lines example_item_text example_item).
  vm_compute. reflexivity.
Defined.

(** ** Rebuilding, then parsing *)

(** The lines of a text that ends with one line feed after a last line
    that is not empty. *)
Lemma lines_of_closed_text (lines : list str) :
  lines <> [] -> forallb single_line lines = true ->
  is_empty (List.last lines []) = false ->
  split_on LF (rstrip_by (N.eqb LF) (join [LF] lines ++ [LF])) = lines.
Proof.
  intros Hne Hsingle Hlast.
  destruct (join_ends lines) as (t & c & Ejoin & Hc).
  - exact Hne.
  - intros E. now rewrite E in Hlast.
  - destruct (exists_last Hne) as (pre & l & E). rewrite E in Hsingle |- *.
    rewrite last_last. now apply forallb_last in Hsingle.
  - rewrite rstrip_by_drop by reflexivity. rewrite Ejoin.
    rewrite rstrip_by_keep by exact Hc. rewrite <- Ejoin.
    now apply split_on_join.
Qed.

Lemma parse_of_lines_no_body (content title : str) (meta_lines : list str) (ty : Z) :
  split_on LF (rstrip_by (N.eqb LF) content) = title :: [] :: [] :: meta_lines ->
  is_id_line (hd [] meta_lines) = true ->
  py_int (type_field (metadata_of meta_lines)) = Some ty ->
  _parse_joplin_item content
  = Ret {| Joplin.title := title;
           body := [];
           item_type := ty;
           item_id := meta_get (metadata_of meta_lines) "id" "";
           parent_id := meta_get (metadata_of meta_lines) "parent_id" "";
           metadata_lines := meta_lines |}.
Proof.
  intros Hlines Hid Hty.
  destruct meta_lines as [|idl ml]; [discriminate|]. cbn [hd] in Hid.
  unfold _parse_joplin_item. rewrite Hlines.
  assert (Hms : find_metadata_start (title :: [] :: [] :: idl :: ml) = 3%nat).
  { unfold find_metadata_start. cbn [tail find_id_line].
    now rewrite is_id_line_nil, Hid. }
  rewrite Hms. cbn [drop]. rewrite Hty.
  cbn [length]. rewrite !body_start_loop_step. cbn [nth Nat.ltb Nat.leb Nat.add].
  rewrite strip_nil. cbn [is_empty andb].
  rewrite body_end_loop_step. reflexivity.
Qed.

(** X4: what [_rebuild_joplin_item] writes, [_parse_joplin_item] reads
    back.  For a one-line title, a body that is empty or else begins and
    ends with a line that is not blank and holds no id line, and metadata
    lines that begin with the id line and end with a line that is not
    empty, the parse of the rebuilt text has this title, this body and
    these metadata lines. *)
Theorem rebuild_then_parse (title body : str) (meta_lines : list str) (ty : Z) :
  single_line title = true ->
  forallb single_line meta_lines = true ->
  is_id_line (hd [] meta_lines) = true ->
  is_empty (List.last meta_lines []) = false ->
  py_int (type_field (metadata_of meta_lines)) = Some ty ->
  body = []
  \/ (blank (hd [] (split_on LF body)) = false
      /\ blank (List.last (split_on LF body) []) = false
      /\ forallb (fun l => negb (is_id_line l)) (split_on LF body) = true) ->
  _parse_joplin_item (_rebuild_joplin_item title body meta_lines)
  = Ret {| Joplin.title := title;
           body := body;
           item_type := ty;
           item_id := meta_get (metadata_of meta_lines) "id" "";
           parent_id := meta_get (metadata_of meta_lines) "parent_id" "";
           metadata_lines := meta_lines |}.
Proof.
  intros Ht Hm Hid Hend Hty Hbody.
  assert (Hmeta_ne : meta_lines <> []) by (intros ->; discriminate).
  unfold _rebuild_joplin_item. destruct Hbody as [-> | (Hfirst & Hlast & Hnoid)].
  - cbn [is_empty negb]. apply parse_of_lines_no_body; [|exact Hid|exact Hty].
    apply lines_of_closed_text; [discriminate| |].
    + cbn [app forallb]. now rewrite Ht, Hm.
    + destruct meta_lines as [|m0 ml]; [congruence|]. exact Hend.
  - assert (Hb : is_empty body = false).
    { destruct body; [discriminate|reflexivity]. }
    rewrite Hb. cbn [negb].
    pose proof (split_on_lines LF body) as Hsingle.
    pose proof (join_split_on LF body) as Hjoin.
    destruct (split_on_cons LF body) as (b0 & bl & Eb).
    rewrite Eb in Hfirst, Hlast, Hnoid, Hsingle, Hjoin.
    assert (Elines : join [LF] ([title; []; body; []] ++ meta_lines)
                     = join [LF] (title :: [] :: (b0 :: bl) ++ [] :: meta_lines)).
    { rewrite <- Hjoin. cbn [app]. apply join_body_inline. discriminate. }
    rewrite Elines, <- Hjoin.
    apply parse_of_lines; try assumption.
    apply lines_of_closed_text; [discriminate| |].
    + change (forallb single_line (b0 :: bl) = true) in Hsingle.
      change (forallb single_line
                ([title; []] ++ (b0 :: bl) ++ [[]] ++ meta_lines) = true).
      rewrite !forallb_app.
      apply andb_true_intro; split; [cbn [forallb]; now rewrite Ht|].
      apply andb_true_intro; split; [exact Hsingle|].
      apply andb_true_intro; split; [reflexivity|exact Hm].
    + destruct meta_lines as [|m0 ml]; [congruence|].
      etransitivity; [|exact Hend]. f_equal.
      exact (last_app_cons (title :: [] :: b0 :: bl) [] [] (m0 :: ml)).
Qed.

(** The theorem on the example item, and on the same item without body. *)
Lemma rebuild_then_parse_example :
  _parse_joplin_item
    (_rebuild_joplin_item (u "Title") (u "Body line") (metadata_lines example_item))
  = Ret example_item
  /\ _parse_joplin_item
       (_rebuild_joplin_item (u "Title") [] (metadata_lines example_item))
     = Ret {| Joplin.title := u "Title";
              body := [];
              item_type := 0;
              item_id := u "0123456789abcdef0123456789abcdef";
              parent_id := [];
              metadata_lines := metadata_lines example_item |}.
Proof.
  split.
  - apply (rebuild_then_parse (u "Title") (u "Body line")
             (metadata_lines example_item) 0);
      try (vm_compute; reflexivity).
    right. vm_compute. repeat split; reflexivity.
  - apply (rebuild_then_parse (u "Title") [] (metadata_lines example_item) 0);
      try (vm_compute; reflexivity).
    now left.
Defined.

End ItemShapeFacts.

(* ===================================================================== *)
(** * Clearing a note: what is left *)
(* ===================================================================== *)

Module ClearedFacts.
Import Joplin Shapes StrFacts ItemFacts ClearFacts ItemShapeFacts SortFacts.

(** ** The cut, on a text that is already cut *)

Lemma cut_body_places (text c : str) :
  cut_body text = Ret c ->
  exists i m : nat,
    first_place (startswith [LF; LF]) text i
    /\ first_place meta_boundary_here text m
    /\ c = take (i + 2) text ++ drop m text.
Proof.
  unfold cut_body, str_index. intros H.
  destruct (search_from (startswith [LF; LF]) text 0) as [i|] eqn:Hi; [|discriminate].
  destruct (search_from meta_boundary_here text 0) as [m|] eqn:Hm; [|discriminate].
  injection H as <-. exists i, m.
  split; [now apply search_from_place|]. split; [now apply search_from_place|reflexivity].
Qed.

Lemma boundary_starts_blank (s : str) :
  meta_boundary_here s = true -> exists r, s = LF :: LF :: 105 :: r.
Proof.
  unfold meta_boundary_here. intros H. apply andb_prop in H as [H _].
  destruct s as [|a [|b [|c r]]];
    cbn [u list_ascii_of_string List.map startswith] in H;
    try (rewrite ?andb_false_r in H; discriminate H).
  apply andb_prop in H as [Ha H]. apply andb_prop in H as [Hb H].
  apply andb_prop in H as [Hc _].
  apply N.eqb_eq in Ha, Hb, Hc. subst. now exists r.
Qed.

Lemma boundary_needs_blank (s : str) :
  startswith [LF; LF] s = false -> meta_boundary_here s = false.
Proof.
  intros H. unfold meta_boundary_here.
  destruct (startswith (LF :: LF :: u "id: ") s) eqn:E; [|reflexivity].
  change (LF :: LF :: u "id: ") with ([LF; LF] ++ u "id: ") in E.
  apply startswith_app_l in E. congruence.
Qed.

(** Whether a blank-line pair starts inside [p] does not depend on what
    follows the line feed after [p]. *)
Lemma pair_inside (p x y : str) :
  p <> [] -> startswith [LF; LF] (p ++ LF :: x) = startswith [LF; LF] (p ++ LF :: y).
Proof. intros Hp. destruct p as [|a [|b p]]; [congruence|reflexivity|reflexivity]. Qed.

(** X5: cutting the body out of a text that is already cut changes
    nothing: the first blank-line pair and the metadata boundary of a cut
    text are where the cut put them. *)
Theorem cut_body_idempotent (text c : str) :
  cut_body text = Ret c -> cut_body c = Ret c.
Proof.
  intros H. destruct (cut_body_places text c H) as (i & m & Hi & Hm & ->).
  destruct Hi as (Hi & Hilen & Hibefore). destruct Hm as (Hm & Hmlen & _).
  destruct (occurrence_split [LF; LF] text i Hi) as [Htake Hdropi].
  cbn [length] in Htake, Hdropi. rewrite Htake.
  destruct (boundary_starts_blank _ Hm) as (r & Er).
  set (B := drop m text) in *. set (T := take i text) in *.
  assert (HT : length T = i) by (unfold T; rewrite length_take; lia).
  assert (Hdrop_lt : forall j, (j < i)%nat ->
            drop j ((T ++ [LF; LF]) ++ B) = drop j T ++ LF :: LF :: B
            /\ drop j T <> []).
  { intros j Hj. rewrite <- app_assoc. rewrite drop_app_le by lia. split; [reflexivity|].
    intros E. apply (f_equal (@length char)) in E. rewrite length_drop in E.
    cbn [length] in E. lia. }
  assert (Hpairs : forall j, (j < i)%nat ->
            startswith [LF; LF] (drop j ((T ++ [LF; LF]) ++ B)) = false).
  { intros j Hj. destruct (Hdrop_lt j Hj) as [-> Hne].
    rewrite <- (Hibefore j Hj).
    replace (drop j text) with (drop j T ++ LF :: LF :: drop (i + 2) text).
    - now apply pair_inside.
    - rewrite <- (take_drop i text) at 2. fold T.
      rewrite drop_app_le by lia. now rewrite Hdropi. }
  assert (Hdrop_i : drop i ((T ++ [LF; LF]) ++ B) = LF :: LF :: B).
  { rewrite <- app_assoc. rewrite <- HT at 1. now rewrite drop_app_length. }
  assert (Hfirst : first_place (startswith [LF; LF]) ((T ++ [LF; LF]) ++ B) i).
  { split; [now rewrite Hdrop_i|]. split; [|exact Hpairs].
    rewrite !length_app. lia. }
  assert (Hbound : first_place meta_boundary_here ((T ++ [LF; LF]) ++ B) (i + 2)).
  { split.
    { replace (i + 2)%nat with (length (T ++ [LF; LF]))
        by (rewrite length_app; cbn [length]; lia).
      now rewrite drop_app_length. }
    split. { rewrite !length_app. cbn [length]. lia. }
    intros j Hj. destruct (Nat.lt_ge_cases j i) as [Hlt|Hge].
    - now apply boundary_needs_blank, Hpairs.
    - destruct (Nat.eq_dec j i) as [->|Hne].
      + rewrite Hdrop_i, Er. reflexivity.
      + replace j with (i + 1)%nat by lia.
        rewrite <- drop_drop, Hdrop_i, Er. reflexivity. }
  unfold cut_body, str_index.
  rewrite (search_from_first _ i _ 0 Hfirst).
  rewrite (search_from_first _ (i + 2) _ 0 Hbound).
  cbn [Nat.add]. now rewrite take_drop.
Qed.

Lemma cut_body_idempotent_example :
  cut_body (u "Title" ++ [LF; LF; LF; LF]
            ++ u "id: 0123456789abcdef0123456789abcdef" ++ [LF] ++ u "updated_time: X")
  = Ret (u "Title" ++ [LF; LF; LF; LF]
         ++ u "id: 0123456789abcdef0123456789abcdef" ++ [LF] ++ u "updated_time: X").
Proof.
  apply (cut_body_idempotent example_item_text). vm_compute. reflexivity.
Defined.

(** ** The cleared text, read again *)






(** ** The metadata of stamped lines *)

Lemma metadata_step_empty (md : gmap str str) : metadata_step md [] = md.
Proof. reflexivity. Qed.




(** ** Parsing a text without body *)




End ClearedFacts.

(* ===================================================================== *)
(** * The requests of the pipeline *)
(* ===================================================================== *)

Module RequestFacts.
Import Joplin Traces StrFacts SortFacts PipelineFacts.

(** ** The note path *)

Lemma break_at_first (sep : char) (a b : str) :
  forallb (fun c => negb (c =? sep)) a = true ->
  break_at sep (a ++ sep :: b) = Some (a, b).
Proof.
  induction a as [|c a IH]; cbn [forallb app break_at]; intros H.
  - now rewrite N.eqb_refl.
  - apply andb_prop in H as [Hc Ha]. destruct (c =? sep); [discriminate|].
    now rewrite IH.
Qed.

Lemma break_at_none (sep : char) (a : str) :
  forallb (fun c => negb (c =? sep)) a = true -> break_at sep a = None.
Proof.
  induction a as [|c a IH]; cbn [forallb break_at]; intros H; [reflexivity|].
  apply andb_prop in H as [Hc Ha]. destruct (c =? sep); [discriminate|].
  now rewrite IH.
Qed.

Lemma forallb_rev {A} (p : A -> bool) (l : list A) :
  forallb p (rev l) = forallb p l.
Proof.
  induction l as [|x l IH]; [reflexivity|]. cbn [rev forallb].
  rewrite forallb_app, IH. cbn [forallb]. rewrite andb_true_r. apply andb_comm.
Qed.

Section WithPlatform.
Context {W : Type} {P : Platform W}.

(** X7: the note path is split at its last slash.  For a title without
    slash, the path [notebook/title] is resolved as that notebook and that
    title, whatever slashes the notebook name holds, and the path [title]
    alone as that title in no notebook. *)
Theorem resolve_note_item_splits_at_last_slash
    (fuel : nat) (base_url token host : json) (data_dir : list str)
    (notebook_name note_title : str) :
  forallb (fun c => negb (c =? 47)) note_title = true ->
  _resolve_note_item fuel base_url token
    (JStr (notebook_name ++ u "/" ++ note_title)) data_dir host
  = _find_note_item fuel base_url token notebook_name note_title host
  /\ _resolve_note_item fuel base_url token (JStr note_title) data_dir host
     = _find_note_item fuel base_url token [] note_title host.
Proof.
  intros H. unfold _resolve_note_item, rbreak_at. split.
  - rewrite rev_app_distr. change (u "/" ++ note_title) with (47 :: note_title).
    cbn [rev]. rewrite <- app_assoc. cbn [app].
    rewrite break_at_first by (now rewrite forallb_rev).
    now rewrite !rev_involutive.
  - rewrite break_at_none by (now rewrite forallb_rev). reflexivity.
Qed.

(** ** Composing runs *)

Lemma emits_bind {A B} (Q1 Q2 Q : list event -> Prop)
    (m : M (W := W) A) (k : A -> M (W := W) B) :
  emits Q1 m -> (forall a, emits Q2 (k a)) ->
  (forall e1, Q1 e1 -> Q e1) ->
  (forall e1 e2, Q1 e1 -> Q2 e2 -> Q (e1 ++ e2)) ->
  emits Q (bind m k).
Proof.
  intros Hm Hk Hstop Hgo st st' o H. unfold bind in H.
  destruct (m st) as [[a|e|] st1] eqn:E; apply Hm in E as (e1 & E1 & H1).
  - apply Hk in H as (e2 & E2 & H2). exists (e1 ++ e2).
    split; [now rewrite E2, E1, app_assoc|now apply Hgo].
  - injection H as <- <-. exists e1. split; [exact E1|now apply Hstop].
  - injection H as <- <-. exists e1. split; [exact E1|now apply Hstop].
Qed.

Lemma emits_try {A} (Q : list event -> Prop) (m : M (W := W) A) :
  emits Q m -> emits Q (try_ m).
Proof.
  intros Hm st st' o H. unfold try_ in H.
  destruct (m st) as [[a|e|] st1] eqn:E; apply Hm in E; now injection H as <- <-.
Qed.

Lemma emits_pure {A} (Q : list event -> Prop) (m : M (W := W) A) :
  (forall st, snd (m st) = st) -> Q [] -> emits Q m.
Proof.
  intros Hm HQ st st' o H. exists []. rewrite app_nil_r. split; [|exact HQ].
  pose proof (Hm st) as E. rewrite H in E. cbn [snd] in E. now subst.
Qed.

Lemma emits_weaken {A} (Q Q' : list event -> Prop) (m : M (W := W) A) :
  emits Q m -> (forall evs, Q evs -> Q' evs) -> emits Q' m.
Proof.
  intros Hm HQ st st' o H. apply Hm in H as (evs & E & Hevs). eauto.
Qed.

Lemma emits_api_request (url : str) (method : string) (data : option bytes)
    (headers : list (str * str)) (host : json) :
  emits (fun evs => exists r, evs = [Sent r]
                              /\ Joplin.method r = u method /\ Joplin.url r = url)
    (_api_request url method data headers host).
Proof.
  intros st st' o H. unfold _api_request, bind, send, ret in H.
  destruct (urlopen _ (world st)) as [[e|resp] w]; injection H as <- <-;
    cbn [trace]; eexists; (split; [reflexivity|]); eexists; now repeat split.
Qed.

(** ** Reading *)

Lemma reads_only_nil : reads_only [].
Proof. constructor. Qed.

Lemma reads_only_app (e1 e2 : list event) :
  reads_only e1 -> reads_only e2 -> reads_only (e1 ++ e2).
Proof. intros H1 H2. apply Forall_app. now split. Qed.

Lemma reads_bind {A B} (m : M (W := W) A) (k : A -> M (W := W) B) :
  emits reads_only m -> (forall a, emits reads_only (k a)) ->
  emits reads_only (bind m k).
Proof.
  intros Hm Hk. apply (emits_bind reads_only reads_only); auto using reads_only_app.
Qed.

Lemma reads_pure {A} (m : M (W := W) A) :
  (forall st, snd (m st) = st) -> emits reads_only m.
Proof. intros H. apply emits_pure; [exact H|apply reads_only_nil]. Qed.

Lemma reads_get (url : str) (data : option bytes) (headers : list (str * str))
    (host : json) :
  emits reads_only (_api_request url "GET" data headers host).
Proof.
  eapply emits_weaken; [apply emits_api_request|].
  intros evs (r & -> & Hm & _). constructor; [exact Hm|constructor].
Qed.

Lemma reads_print (m : message) : emits reads_only (print (W := W) m).
Proof.
  intros st st' o H. unfold print in H. injection H as <- <-. cbn [trace].
  eexists. split; [reflexivity|]. now repeat constructor.
Qed.

(** A run made of reads, pure steps and messages. *)
Ltac reads :=
  repeat first
    [ apply reads_get
    | apply reads_print
    | apply reads_pure; reflexivity
    | apply emits_try
    | apply reads_bind; [|intros ?]
    | match goal with
      | |- emits _ (match ?x with _ => _ end) => destruct x
      | |- emits _ (if ?b then _ else _) => destruct b
      end ].

Lemma reads_list_all_items (fuel : nat) (base_url token host : json) :
  forall (items : list json) (cursor : json),
    emits reads_only (_list_all_items_loop fuel base_url token host items cursor).
Proof.
  induction fuel as [|fuel IH]; intros items cursor; cbn [_list_all_items_loop].
  - now apply reads_pure.
  - reads. apply IH.
Qed.

Lemma reads_scan_items (base_url token host : json) (nb nt : str) (items : list json) :
  forall acc, emits reads_only (scan_items base_url token host nb nt acc items).
Proof.
  induction items as [|it items IH]; intros acc; cbn [scan_items].
  - now apply reads_pure.
  - apply reads_bind; [|intros acc'; apply IH]. unfold scan_item. reads.
Qed.

Lemma reads_find_note_item (fuel : nat) (base_url token : json) (nb nt : str)
    (host : json) :
  emits reads_only (_find_note_item fuel base_url token nb nt host).
Proof.
  unfold _find_note_item, _list_all_items.
  apply reads_bind; [apply reads_list_all_items|intros items].
  apply reads_bind; [apply reads_scan_items|intros found]. now apply reads_pure.
Qed.

Lemma reads_resolve_note_item (fuel : nat) (base_url token note_path : json)
    (data_dir : list str) (host : json) :
  emits reads_only (_resolve_note_item fuel base_url token note_path data_dir host).
Proof.
  unfold _resolve_note_item.
  destruct note_path; try (now apply reads_pure).
  destruct (rbreak_at 47 s) as [[nb nt]|]; apply reads_find_note_item.
Qed.

Lemma reads_fetch_note (base_url token : json) (item_name : str) (host : json) :
  emits reads_only (fetch_note base_url token item_name host).
Proof. unfold fetch_note. reads. Qed.

(** ** The three phases *)

Lemma requests_app (e1 e2 : list event) :
  requests (e1 ++ e2) = requests e1 ++ requests e2.
Proof. apply omap_app. Qed.

Lemma endswith_app (p s : str) : endswith p (s ++ p) = true.
Proof. unfold endswith. rewrite rev_app_distr. apply ClearFacts.startswith_app. Qed.

Lemma emits_login (base_url email password host : json) :
  emits (fun evs => exists login, evs = [Sent login]
                                  /\ method login = u "POST"
                                  /\ endswith (u "/api/sessions") (url login) = true)
    (fetch_session_token base_url email password host).
Proof.
  unfold fetch_session_token.
  eapply (emits_bind _ (fun evs => evs = [])).
  - apply emits_api_request.
  - intros resp. apply (emits_bind (fun evs => evs = []) (fun evs => evs = []));
      [now apply emits_pure|intros v; now apply emits_pure|auto|].
    now intros e1 e2 -> ->.
  - intros e1 (r & -> & Hm & Hu). exists r. repeat split; [exact Hm|].
    rewrite Hu. apply endswith_app.
  - intros e1 e2 (r & -> & Hm & Hu) ->. exists r. repeat split; [exact Hm|].
    rewrite Hu. apply endswith_app.
Qed.

Lemma emits_after_login {A} (m : M (W := W) A) (login : request) :
  emits reads_only m ->
  forall (st st' : state (W := W)) (o : outcome A) (st0 : state (W := W)),
    trace st = trace st0 ++ [Sent login] ->
    method login = u "POST" -> endswith (u "/api/sessions") (url login) = true ->
    m st = (o, st') ->
    exists evs, trace st' = trace st0 ++ evs /\ login_then_reads evs.
Proof.
  intros Hm st st' o st0 Hst Hmeth Hurl H.
  apply Hm in H as (evs & E & Hevs). exists (Sent login :: evs). split.
  - rewrite E, Hst, <- app_assoc. reflexivity.
  - right. now exists login, evs.
Qed.

Lemma emits_locate_and_fetch (fuel : nat) (data_dir : list str) :
  emits login_then_reads (locate_and_fetch fuel data_dir).
Proof.
  intros st st' o H. unfold locate_and_fetch in H. unfold bind at 1 in H.
  assert (Hconfig : forall st, snd (_load_joplin_config data_dir st) = st).
  { intros s. unfold _load_joplin_config.
    destruct (read_text _ (world s)) as [[e|text]|]; try reflexivity.
    now destruct (json_loads text). }
  assert (Hquiet : forall A (m : M (W := W) A) st st' o,
            emits (fun evs => requests evs = []) m -> m st = (o, st') ->
            exists evs, trace st' = trace st ++ evs /\ login_then_reads evs).
  { intros A m s s' o' Hm Hrun. apply Hm in Hrun as (evs & E & Hevs).
    exists evs. split; [exact E|now left]. }
  assert (Hprint : forall (msg : message) (st st' : state (W := W)) o,
            bind (print msg) (fun _ => ret (@None (json * json * str * json * str))) st
            = (o, st') ->
            exists evs, trace st' = trace st ++ evs /\ login_then_reads evs).
  { intros msg s s' o' Hrun. eapply Hquiet; [|exact Hrun].
    intros x x' y Hx. unfold bind, print, ret in Hx. injection Hx as <- <-.
    cbn [trace]. eexists. split; reflexivity. }
  pose proof (Hconfig st) as Hst.
  destruct (_load_joplin_config data_dir st) as [[config|e|] st1];
    cbn [snd] in Hst; subst st1;
    [|injection H as <- <-; exists []; rewrite app_nil_r; split; [reflexivity|now left]..].
  destruct (negb (truthy config)); [now apply Hprint in H|].
  repeat (unfold bind at 1, lift at 1 in H;
          match type of H with
          | context [dict_get ?c ?k ?d] =>
              destruct (dict_get c k d) as [?v|?e|];
              [|injection H as <- <-; exists []; rewrite app_nil_r;
                split; [reflexivity|now left]..]
          end).
  destruct (negb (truthy v) || negb (truthy v0) || negb (truthy v1));
    [now apply Hprint in H|].
  unfold bind at 1, try_ at 1 in H.
  destruct (fetch_session_token v v0 v1 v3 st) as [[token|e|] st1] eqn:Elogin;
    apply emits_login in Elogin as (e1 & E1 & (login & -> & Hmeth & Hurl)).
  2:{ assert (Hone : exists evs, trace st1 = trace st ++ evs
                                 /\ login_then_reads evs).
      { exists [Sent login]. split; [exact E1|]. right.
        exists login, []. repeat split; [exact Hmeth|exact Hurl|constructor]. }
      destruct (caught_fetching e).
      - unfold bind, print, ret in H. injection H as <- <-. cbn [trace].
        exists ([Sent login] ++ [Printed (AuthFailed e)]).
        split; [now rewrite E1, <- app_assoc|]. right.
        exists login, [Printed (AuthFailed e)].
        repeat split; [exact Hmeth|exact Hurl|now repeat constructor].
      - unfold raise in H. now injection H as <- <-. }
  2:{ injection H as <- <-. exists [Sent login]. split; [exact E1|]. right.
      exists login, []. repeat split; [exact Hmeth|exact Hurl|constructor]. }
  revert H. apply (emits_after_login _ login); [|exact E1|exact Hmeth|exact Hurl].
  apply reads_bind; [apply emits_try, reads_resolve_note_item|intros r].
  destruct r as [exc|[item_name|]]; reads.
Qed.

Lemma posts_only_app (api_base : str) (e1 e2 : list event) :
  posts_only api_base e1 -> posts_only api_base e2 -> posts_only api_base (e1 ++ e2).
Proof. intros H1 H2. apply Forall_app. now split. Qed.

Lemma emits_post_tasks (api_base : str) (tasks : list entry) :
  forall count, emits (posts_only api_base) (post_tasks api_base count tasks).
Proof.
  induction tasks as [|task tasks IH]; intros count; cbn [post_tasks].
  - apply emits_pure; [reflexivity|constructor].
  - apply (emits_bind (posts_only api_base) (posts_only api_base));
      [|intros c; apply IH|auto|apply posts_only_app].
    intros st st' o H. unfold post_task, bind, try_, send, print, ret in H.
    destruct (urlopen _ (world st)) as [[e|resp] w]; injection H as <- <-;
      cbn [trace]; rewrite <- ?app_assoc; eexists; (split; [reflexivity|]);
      repeat constructor.
Qed.

Lemma emits_clear_note (base_url token : json) (item_name : str) (host : json) :
  emits read_then_write (clear_note base_url token item_name host).
Proof.
  unfold clear_note.
  set (R := fun evs : list event =>
              evs = [] \/ exists p, evs = [Sent p] /\ method p = u "PUT"
                                    /\ url p = content_url base_url item_name).
  assert (Hskip : forall e1 e2 : list event, e1 = [] -> R e2 -> R (e1 ++ e2)).
  { now intros e1 e2 -> H. }
  assert (Hstop : forall e1 : list event, e1 = [] -> R e1).
  { intros e1 ->. now left. }
  eapply (emits_bind _ R).
  - apply (emits_api_request (content_url base_url item_name) "GET").
  - intros raw.
    apply (emits_bind (fun evs => evs = []) R R); [now apply emits_pure| |exact Hstop|exact Hskip].
    intros text.
    apply (emits_bind (fun evs => evs = []) R R); [now apply emits_pure| |exact Hstop|exact Hskip].
    intros cleared.
    apply (emits_bind (fun evs => evs = []) R R); [now apply emits_pure| |exact Hstop|exact Hskip].
    intros now.
    eapply (emits_bind _ (fun evs => evs = []) R).
    + apply (emits_api_request (content_url base_url item_name) "PUT").
    + intros x. now apply emits_pure.
    + intros e1 (p & -> & Hp). right. now exists p.
    + intros e1 e2 (p & -> & Hp) ->. right. now exists p.
  - intros e1 (g & -> & Hg & _). left. now exists g.
  - intros e1 e2 (g & -> & Hg & Hgu) [-> | (p & -> & Hp & Hpu)].
    + left. now exists g.
    + right. exists g, p. repeat split; [exact Hg|exact Hp|congruence].
Qed.

(** X8: the requests of a run of [load_from_joplin], in order: first the
    login and reads of the note server (or nothing at all), then the POST
    requests to the task list of the API, one kind only, and last the
    clearing of the note, which reads one place and, at most once, writes
    to that same place.  No other request changes anything on the note
    server, and nothing is sent after the PUT. *)
Theorem load_from_joplin_requests
    (fuel : nat) (data_dir : list str) (api_base : str)
    (st st' : state (W := W)) (o : outcome Z) :
  load_from_joplin fuel data_dir api_base st = (o, st') ->
  exists (evs : list event) (reads posts clearing : list request),
    trace st' = trace st ++ evs
    /\ requests evs = reads ++ posts ++ clearing
    /\ (reads = []
        \/ exists login gets,
             reads = login :: gets
             /\ method login = u "POST"
             /\ endswith (u "/api/sessions") (url login) = true
             /\ Forall (fun r => method r = u "GET") gets)
    /\ Forall (fun r => method r = u "POST" /\ url r = api_base ++ u "/tasks") posts
    /\ (clearing = []
        \/ (exists g, clearing = [g] /\ method g = u "GET")
        \/ (exists g p, clearing = [g; p] /\ method g = u "GET"
                        /\ method p = u "PUT" /\ url p = url g)).
Proof.
  intros H.
  assert (Hreads : forall evs, login_then_reads evs ->
            requests evs = []
            \/ exists login gets,
                 requests evs = login :: gets
                 /\ method login = u "POST"
                 /\ endswith (u "/api/sessions") (url login) = true
                 /\ Forall (fun r => method r = u "GET") gets).
  { intros evs [Hnone|(login & rest & -> & Hm & Hu & Hrest)]; [now left|right].
    exists login, (requests rest). repeat split; [exact Hm|exact Hu|].
    clear - Hrest. induction Hrest as [|[r|m] rest Hr _ IH]; [constructor| |exact IH].
    change (requests (Sent r :: rest)) with (r :: requests rest). now constructor. }
  assert (Hposts : forall evs, posts_only api_base evs ->
            Forall (fun r => method r = u "POST" /\ url r = api_base ++ u "/tasks")
              (requests evs)).
  { intros evs Hevs. induction Hevs as [|[r|m] rest Hr _ IH]; [constructor| |exact IH].
    change (requests (Sent r :: rest)) with (r :: requests rest). now constructor. }
  unfold load_from_joplin, bind at 1 in H.
  destruct (locate_and_fetch fuel data_dir st) as [[found|e|] st1] eqn:Efetch;
    apply emits_locate_and_fetch in Efetch as (e1 & E1 & H1).
  2,3: injection H as <- <-; exists e1, (requests e1), [], [];
       rewrite !app_nil_r; repeat split; [exact E1|now apply Hreads|constructor|now left].
  destruct found as [[[[[base_url token] item_name] host] text]|].
  2:{ unfold ret in H. injection H as <- <-. exists e1, (requests e1), [], [].
      rewrite !app_nil_r. repeat split; [exact E1|now apply Hreads|constructor|now left]. }
  unfold ingest in H. destruct (is_empty_list (parse_tasks text)).
  { unfold bind, print, ret in H. injection H as <- <-. cbn [trace].
    exists (e1 ++ [Printed NoTasksFound]), (requests e1), [], [].
    rewrite requests_app. cbn [requests omap list_omap]. rewrite !app_nil_r.
    repeat split; [now rewrite E1, app_assoc|now apply Hreads|constructor|now left]. }
  unfold bind at 1 in H.
  destruct (post_tasks api_base 0 (parse_tasks text) st1) as [[count|e|] st2] eqn:Epost;
    apply emits_post_tasks in Epost as (e2 & E2 & H2).
  2,3: injection H as <- <-; exists (e1 ++ e2), (requests e1), (requests e2), [];
       rewrite requests_app, !app_nil_r;
       repeat split; [now rewrite E2, E1, app_assoc|now apply Hreads
                     |now apply Hposts|now left].
  unfold bind at 1, try_ at 1 in H.
  assert (Hclear : forall e3, read_then_write e3 ->
            forall tail, requests tail = [] ->
            requests (e3 ++ tail) = []
            \/ (exists g, requests (e3 ++ tail) = [g] /\ method g = u "GET")
            \/ (exists g p, requests (e3 ++ tail) = [g; p] /\ method g = u "GET"
                            /\ method p = u "PUT" /\ url p = url g)).
  { intros e3 [(g & -> & Hg)|(g & p & -> & Hg & Hp & Hu)] tail Htail;
      rewrite requests_app, Htail, app_nil_r; right; [left|right].
    - now exists g.
    - now exists g, p. }
  destruct (clear_note base_url token item_name host st2) as [[[]|e|] st3] eqn:Eclear;
    apply emits_clear_note in Eclear as (e3 & E3 & H3).
  - unfold bind, print, ret in H. injection H as <- <-. cbn [trace].
    exists (e1 ++ e2 ++ e3 ++ [Printed (Ingested count)]),
      (requests e1), (requests e2), (requests (e3 ++ [Printed (Ingested count)])).
    rewrite !requests_app.
    repeat split; [now rewrite E3, E2, E1, <- !app_assoc|now apply Hreads
                  |now apply Hposts|].
    rewrite <- requests_app. now apply Hclear.
  - destruct (is_OSError e).
    + unfold bind, print, ret in H. injection H as <- <-. cbn [trace].
      exists (e1 ++ e2 ++ e3 ++ [Printed (Ingested count)]),
        (requests e1), (requests e2), (requests (e3 ++ [Printed (Ingested count)])).
      rewrite !requests_app.
      repeat split; [now rewrite E3, E2, E1, <- !app_assoc|now apply Hreads
                    |now apply Hposts|].
      rewrite <- requests_app. now apply Hclear.
    + unfold raise in H. injection H as <- <-.
      exists (e1 ++ e2 ++ e3), (requests e1), (requests e2), (requests (e3 ++ [])).
      rewrite app_nil_r, !requests_app.
      repeat split; [now rewrite E3, E2, E1, <- !app_assoc|now apply Hreads
                    |now apply Hposts|].
      rewrite <- (app_nil_r e3). now apply Hclear.
  - injection H as <- <-.
    exists (e1 ++ e2 ++ e3), (requests e1), (requests e2), (requests (e3 ++ [])).
    rewrite app_nil_r, !requests_app.
    repeat split; [now rewrite E3, E2, E1, <- !app_assoc|now apply Hreads
                  |now apply Hposts|].
    rewrite <- (app_nil_r e3). now apply Hclear.
Qed.

(** X9: the posting loop sends one POST request for every task, in the
    order of the tasks and whatever the answers to the earlier ones were,
    and always ends with a count: the count it started with, raised by at
    most one for each task. *)
Theorem post_tasks_posts_each_task (api_base : str) (tasks : list entry) :
  forall (count : Z) (st : state (W := W)),
    exists (count' : Z) (st' : state (W := W)) (evs : list event),
      post_tasks api_base count tasks st = (Ret count', st')
      /\ trace st' = trace st ++ evs
      /\ requests evs = List.map (task_request api_base) tasks
      /\ (count <= count' <= count + Z.of_nat (length tasks))%Z.
Proof.
  induction tasks as [|task tasks IH]; intros count st.
  - exists count, st, []. rewrite app_nil_r. repeat split; cbn [length]; lia.
  - cbn [post_tasks]. unfold bind at 1.
    assert (Hone : exists c st1 evs,
              post_task api_base count task st = (Ret c, st1)
              /\ trace st1 = trace st ++ evs
              /\ requests evs = [task_request api_base task]
              /\ (count <= c <= count + 1)%Z).
    { unfold post_task, bind, try_, send, print, ret, task_request.
      destruct (urlopen _ (world st)) as [[e|resp] w]; cbn [trace].
      - eexists _, _, [Sent _; Printed _]. rewrite <- app_assoc.
        repeat split; lia.
      - eexists _, _, [Sent _]. repeat split; destruct (status resp =? 201)%Z; lia. }
    destruct Hone as (c & st1 & e1 & -> & E1 & R1 & Hc).
    destruct (IH c st1) as (count' & st' & e2 & -> & E2 & R2 & Hcount).
    exists count', st', (e1 ++ e2). split; [reflexivity|].
    split; [now rewrite E2, E1, app_assoc|].
    split; [now rewrite requests_app, R1, R2|].
    cbn [length]. lia.
Qed.

End WithPlatform.

(** The requests of a run on the small note server: the login, the
    listing, the two notes, the fetch, one task, and the clearing. *)
Lemma load_from_joplin_requests_example :
  exists (evs : list event) (reads posts clearing : list request),
    trace (snd good_run) = trace (Demo.start Demo.good_world) ++ evs
    /\ requests evs = reads ++ posts ++ clearing
    /\ (reads = []
        \/ exists login gets,
             reads = login :: gets
             /\ method login = u "POST"
             /\ endswith (u "/api/sessions") (url login) = true
             /\ Forall (fun r => method r = u "GET") gets)
    /\ Forall (fun r => method r = u "POST" /\ url r = Demo.api ++ u "/tasks") posts
    /\ (clearing = []
        \/ (exists g, clearing = [g] /\ method g = u "GET")
        \/ (exists g p, clearing = [g; p] /\ method g = u "GET"
                        /\ method p = u "PUT" /\ url p = url g)).
Proof.
  apply (load_from_joplin_requests (P := Demo.platform Demo.good_world)
           5 [u "data"] Demo.api (Demo.start Demo.good_world)
           (snd good_run) (fst good_run)).
  vm_compute. reflexivity.
Defined.

Example good_run_requests :
  List.map (fun r => (method r, url r)) (requests (trace (snd good_run)))
  = [(u "POST", u "http://notes.example/api/sessions");
     (u "GET", u "http://notes.example/api/items/root:/:/children");
     (u "GET", u "http://notes.example/api/items/root:/z.md:/content");
     (u "GET", u "http://notes.example/api/items/root:/a.md:/content");
     (u "GET", u "http://notes.example/api/items/root:/a.md:/content");
     (u "POST", u "http://127.0.0.1:8001/tasks");
     (u "GET", u "http://notes.example/api/items/root:/a.md:/content");
     (u "PUT", u "http://notes.example/api/items/root:/a.md:/content")].
Proof. vm_compute. reflexivity. Qed.

(** The theorem on the default note path, [ingest/todo.txt]. *)
Lemma resolve_note_item_example :
  _resolve_note_item (P := Demo.platform Demo.good_world) 5 (JStr Demo.base) Demo.tok
    (JStr (u "ingest" ++ u "/" ++ u "todo.txt")) [u "data"] (JStr [])
  = _find_note_item (P := Demo.platform Demo.good_world) 5 (JStr Demo.base) Demo.tok
      (u "ingest") (u "todo.txt") (JStr [])
  /\ _resolve_note_item (P := Demo.platform Demo.good_world) 5 (JStr Demo.base) Demo.tok
       (JStr (u "todo.txt")) [u "data"] (JStr [])
     = _find_note_item (P := Demo.platform Demo.good_world) 5 (JStr Demo.base) Demo.tok
         [] (u "todo.txt") (JStr []).
Proof.
  apply (resolve_note_item_splits_at_last_slash (P := Demo.platform Demo.good_world)
           5 (JStr Demo.base) Demo.tok (JStr []) [u "data"] (u "ingest") (u "todo.txt")).
  reflexivity.
Defined.

End RequestFacts.

(* ===================================================================== *)
(** * The task API: listing and creating *)
(* ===================================================================== *)

Module TableFacts.
Import Api Db SortFacts ApiFacts.

(** ** Listing *)

(** X10: the task list holds every stored row, each once, in ascending
    order of the date strings; and whatever the window query returns is
    part of that list. *)
Theorem get_tasks_lists_every_row (tbl : table) :
  exists result : list TaskOut,
    get_tasks tbl = Ok 200 result
    /\ NoDup result
    /\ (forall r, In r result <-> tbl !! id r = Some (task r))
    /\ length result = size tbl
    /\ StronglySorted
         (fun a b => str_ltb (date (task b)) (date (task a)) = false) result
    /\ (forall (today : pydate) (days : Z) (window : list TaskOut),
          get_tasks_window today days tbl = Ok 200 window ->
          forall r, In r window -> In r result).
Proof.
  set (ltb := fun a b : TaskOut => str_ltb (date (task a)) (date (task b))).
  exists (sort_by ltb (rows tbl)).
  pose proof (sort_by_perm ltb (rows tbl)) as Hperm.
  assert (Hmem : forall r, In r (sort_by ltb (rows tbl)) <-> tbl !! id r = Some (task r)).
  { intros r. rewrite <- rows_spec. split; apply Permutation_in;
      [exact Hperm|now apply Permutation_sym]. }
  split; [reflexivity|].
  split. { rewrite Hperm. apply rows_NoDup. }
  split; [exact Hmem|].
  split. { rewrite (Permutation_length Hperm). unfold rows.
           now rewrite length_fmap, length_map_to_list. }
  split. { apply sort_by_sorted; [apply date_ltb_asym|apply date_leb_trans]. }
  intros today days window H r Hr. apply Hmem.
  unfold get_tasks_window in H.
  destruct (add_days today (- days)) as [from_day|]; [|discriminate].
  destruct (add_days today days) as [to_day|]; [|discriminate].
  injection H as <-.
  apply (Permutation_in _ (sort_by_perm _ _)) in Hr.
  apply filter_In in Hr as [Hr _]. now apply rows_spec.
Qed.

(** ** The window and the number of days *)

Lemma forward_further (n k : nat) (today a b : pydate) :
  valid_date today ->
  Nat.iter n (fun o => o ≫= tomorrow) (Some today) = Some a ->
  Nat.iter (k + n) (fun o => o ≫= tomorrow) (Some today) = Some b ->
  valid_date a /\ valid_date b /\ date_le a b.
Proof.
  intros Hv Ha Hb. destruct (forward_later n today a Hv Ha) as [Hav _].
  rewrite Nat.iter_add, Ha in Hb.
  destruct (forward_later k a b Hav Hb) as [Hbv Hle].
  split; [exact Hav|]. split; [exact Hbv|exact Hle].
Qed.

Lemma backward_further (n k : nat) (today a b : pydate) :
  valid_date today ->
  Nat.iter n (fun o => o ≫= yesterday) (Some today) = Some a ->
  Nat.iter (k + n) (fun o => o ≫= yesterday) (Some today) = Some b ->
  valid_date a /\ valid_date b /\ date_le b a.
Proof.
  intros Hv Ha Hb. destruct (backward_earlier n today a Hv Ha) as [Hav _].
  rewrite Nat.iter_add, Ha in Hb.
  destruct (backward_earlier k a b Hav Hb) as [Hbv Hle].
  split; [exact Hav|]. split; [exact Hbv|exact Hle].
Qed.

(** X11: a wider window never loses a task.  For a valid date [today] and
    [0 <= days <= more], every task the window query returns for [days]
    it also returns for [more]; and every stored task dated [today] is
    returned for any number of days that is not negative. *)
Theorem window_grows_with_days
    (tbl : table) (today : pydate) (days more : Z) (narrow wide : list TaskOut) :
  valid_date today ->
  (0 <= days <= more)%Z ->
  get_tasks_window today days tbl = Ok 200 narrow ->
  get_tasks_window today more tbl = Ok 200 wide ->
  (forall r, In r narrow -> In r wide)
  /\ (forall r, tbl !! id r = Some (task r) ->
                date (task r) = isoformat today -> In r narrow).
Proof.
  intros Hv Hdays Hnarrow Hwide. unfold get_tasks_window in Hnarrow, Hwide.
  destruct (add_days today (- days)) as [f1|] eqn:Hf1; [|discriminate].
  destruct (add_days today days) as [t1|] eqn:Ht1; [|discriminate].
  destruct (add_days today (- more)) as [f2|] eqn:Hf2; [|discriminate].
  destruct (add_days today more) as [t2|] eqn:Ht2; [|discriminate].
  injection Hnarrow as <-. injection Hwide as <-.
  rewrite add_days_nonpos in Hf1, Hf2 by lia.
  rewrite add_days_nonneg in Ht1, Ht2 by lia.
  replace (Z.to_nat more) with (Z.to_nat (more - days) + Z.to_nat days)%nat
    in Hf2, Ht2 by lia.
  destruct (forward_further _ _ _ _ _ Hv Ht1 Ht2) as (Ht1v & Ht2v & Htle).
  destruct (backward_further _ _ _ _ _ Hv Hf1 Hf2) as (Hf1v & Hf2v & Hfle).
  destruct (forward_later _ _ _ Hv Ht1) as [_ Htoday_t].
  destruct (backward_earlier _ _ _ Hv Hf1) as [_ Hf_today].
  pose proof (isoformat_le _ _ Hf2v Hf1v Hfle) as Hlow.
  pose proof (isoformat_le _ _ Ht1v Ht2v Htle) as Hhigh.
  unfold str_leb in Hlow, Hhigh. apply negb_true_iff in Hlow, Hhigh.
  split.
  - intros r Hr.
    apply (Permutation_in _ (sort_by_perm _ _)) in Hr.
    apply (Permutation_in _ (Permutation_sym (sort_by_perm _ _))).
    apply filter_In in Hr as [Hr Hk]. apply filter_In. split; [exact Hr|].
    unfold in_window, str_leb in Hk |- *.
    apply andb_prop in Hk as [H1 H2]. apply negb_true_iff in H1, H2.
    apply andb_true_intro. split; apply negb_true_iff.
    + exact (str_leb_trans _ _ _ Hlow H1).
    + exact (str_leb_trans _ _ _ H2 Hhigh).
  - intros r Hr Hdate.
    apply (Permutation_in _ (Permutation_sym (sort_by_perm _ _))).
    apply filter_In. split; [now apply rows_spec|].
    unfold in_window. rewrite Hdate.
    now rewrite (isoformat_le _ _ Hf1v Hv Hf_today), (isoformat_le _ _ Hv Ht1v Htoday_t).
Qed.

(** The theorem on the sample table, for 3 and 7 days around 2024-06-15. *)
Lemma window_grows_example :
  (forall r, In r (order_by_date
                     (List.filter (in_window (u "2024-06-12") (u "2024-06-18"))
                        (rows sample_table))) ->
             In r (order_by_date
                     (List.filter (in_window (u "2024-06-08") (u "2024-06-22"))
                        (rows sample_table))))
  /\ (forall r, sample_table !! id r = Some (task r) ->
                date (task r) = isoformat sample_day ->
                In r (order_by_date
                        (List.filter (in_window (u "2024-06-12") (u "2024-06-18"))
                           (rows sample_table)))).
Proof.
  apply (window_grows_with_days sample_table sample_day 3 7).
  - unfold valid_date. vm_compute. repeat split; discriminate.
  - lia.
  - vm_compute. reflexivity.
  - vm_compute. reflexivity.
Defined.

(** ** Windows that leave the calendar *)

(** A count that grows with every day: months of 31 days. *)
Local Abbreviation day_count d := ((year d * 12 + month d) * 31 + day d).

Lemma tomorrow_counts (d d' : pydate) :
  valid_date d -> tomorrow d = Some d' -> day_count d + 1 <= day_count d'.
Proof.
  intros (Hy & Hm & Hd) H. unfold tomorrow in H.
  pose proof (days_in_month_bounds (year d) (month d)) as Hdim.
  destruct (N.ltb_spec (day d) (days_in_month (year d) (month d))).
  { injection H as <-. cbn [year month day]. lia. }
  destruct (N.ltb_spec (month d) 12).
  { injection H as <-. cbn [year month day]. lia. }
  destruct (N.ltb_spec (year d) 9999); [|discriminate].
  injection H as <-. cbn [year month day]. lia.
Qed.

Lemma yesterday_counts (d d' : pydate) :
  valid_date d -> yesterday d = Some d' -> day_count d' + 1 <= day_count d.
Proof.
  intros (Hy & Hm & Hd) H. unfold yesterday in H.
  destruct (N.ltb_spec 1 (day d)).
  { injection H as <-. cbn [year month day]. lia. }
  destruct (N.ltb_spec 1 (month d)).
  { injection H as <-. cbn [year month day].
    pose proof (days_in_month_bounds (year d) (month d - 1)) as Hdim. lia. }
  destruct (N.ltb_spec 1 (year d)); [|discriminate].
  injection H as <-. cbn [year month day]. lia.
Qed.

Lemma forward_counts (n : nat) (today d : pydate) :
  valid_date today ->
  Nat.iter n (fun o => o ≫= tomorrow) (Some today) = Some d ->
  day_count today + N.of_nat n <= day_count d.
Proof.
  intros Hv. revert d; induction n as [|n IH]; intros d H.
  - injection H as <-. lia.
  - rewrite Nat.iter_succ in H.
    destruct (Nat.iter n (fun o => o ≫= tomorrow) (Some today)) as [p|] eqn:E;
      unfold mbind, option_bind in H; [|discriminate].
    destruct (forward_later n today p Hv E) as [Hp _].
    pose proof (tomorrow_counts p d Hp H). specialize (IH p eq_refl). lia.
Qed.

Lemma backward_counts (n : nat) (today d : pydate) :
  valid_date today ->
  Nat.iter n (fun o => o ≫= yesterday) (Some today) = Some d ->
  day_count d + N.of_nat n <= day_count today.
Proof.
  intros Hv. revert d; induction n as [|n IH]; intros d H.
  - injection H as <-. lia.
  - rewrite Nat.iter_succ in H.
    destruct (Nat.iter n (fun o => o ≫= yesterday) (Some today)) as [p|] eqn:E;
      unfold mbind, option_bind in H; [|discriminate].
    destruct (backward_earlier n today p Hv E) as [Hp _].
    pose proof (yesterday_counts p d Hp H). specialize (IH p eq_refl). lia.
Qed.

Lemma day_count_bounds (d : pydate) : valid_date d -> 404 <= day_count d <= 3720031.
Proof.
  intros (Hy & Hm & Hd).
  pose proof (days_in_month_bounds (year d) (month d)) as Hdim. lia.
Qed.

(** X12: a window that leaves the calendar is not answered.  For a valid
    date [today] and 3720000 days or more in either direction, more than
    the days between 0001-01-01 and 9999-12-31, the window
    query ends with the OverflowError of the date arithmetic, which the
    handler does not catch, whatever the table holds. *)
Theorem window_beyond_calendar_overflows (tbl : table) (today : pydate) (days : Z) :
  valid_date today ->
  (3720000 <= Z.abs days)%Z ->
  get_tasks_window today days tbl = Escapes OverflowError.
Proof.
  intros Hv Hdays. unfold get_tasks_window.
  pose proof (day_count_bounds today Hv) as Htoday.
  assert (Hfwd : forall n, (3720000 <= Z.of_nat n)%Z ->
            Nat.iter n (fun o => o ≫= tomorrow) (Some today) = None).
  { intros n Hn.
    destruct (Nat.iter n (fun o => o ≫= tomorrow) (Some today)) as [d|] eqn:E;
      [|reflexivity].
    pose proof (forward_counts n today d Hv E) as Hc.
    destruct (forward_later n today d Hv E) as [Hd _].
    pose proof (day_count_bounds d Hd). lia. }
  assert (Hbwd : forall n, (3720000 <= Z.of_nat n)%Z ->
            Nat.iter n (fun o => o ≫= yesterday) (Some today) = None).
  { intros n Hn.
    destruct (Nat.iter n (fun o => o ≫= yesterday) (Some today)) as [d|] eqn:E;
      [|reflexivity].
    pose proof (backward_counts n today d Hv E) as Hc.
    destruct (backward_earlier n today d Hv E) as [Hd _].
    pose proof (day_count_bounds d Hd). lia. }
  destruct (Z.le_gt_cases 0 days) as [Hpos|Hneg].
  - rewrite add_days_nonpos by exact Hpos. rewrite Hbwd by lia. reflexivity.
  - rewrite (add_days_nonneg today (- days)) by lia.
    rewrite Hfwd by lia. reflexivity.
Qed.

(** Four million days around 2024-06-15. *)
Lemma window_beyond_calendar_example :
  get_tasks_window sample_day 4000000 sample_table = Escapes OverflowError.
Proof.
  apply (window_beyond_calendar_overflows sample_table sample_day 4000000).
  - unfold valid_date. vm_compute. repeat split; discriminate.
  - lia.
Defined.

(** ** Creating *)

Lemma foldr_max_ge (l : list Z) (x : Z) : In x l -> (x <= foldr Z.max 0 l)%Z.
Proof.
  induction l as [|y l IH]; cbn [In foldr]; [tauto|].
  intros [->|H]; [lia|]. specialize (IH H). lia.
Qed.

Lemma largest_id_ge (tbl : table) (k : Z) (t : TaskIn) :
  tbl !! k = Some t -> (k <= largest_id tbl)%Z.
Proof.
  intros H. apply foldr_max_ge. apply list_elem_of_In, list_elem_of_fmap.
  exists (k, t). split; [reflexivity|]. now apply elem_of_map_to_list.
Qed.

Lemma create_task_run (task : TaskIn) (d : db) :
  (Z.max (seq d) (largest_id (tasks d)) < max_rowid)%Z ->
  create_task task d
  = (Created 201 {| id := Z.max (seq d) (largest_id (tasks d)) + 1; task := task |},
     {| tasks := <[(Z.max (seq d) (largest_id (tasks d)) + 1)%Z := task]> (tasks d);
        seq := Z.max (seq d) (largest_id (tasks d)) + 1 |}).
Proof.
  intros H. unfold create_task.
  destruct (Z.leb_spec max_rowid (Z.max (seq d) (largest_id (tasks d)))) as [Hfull|_];
    [lia|].
  now rewrite lookup_insert_eq.
Qed.

(** X13: creating a task adds one row under an id that is new.  Unless
    the row ids are used up, [create_task] answers 201 with the task as
    given under an id above the recorded sequence and above every id in
    the table; afterwards the table holds the task under that id, every
    other row is as before, and the task list is the old one with the new
    row. *)
Theorem create_task_adds_a_new_row (task : TaskIn) (d : db) :
  (Z.max (seq d) (largest_id (tasks d)) < max_rowid)%Z ->
  exists (row : TaskOut) (d' : db),
    create_task task d = (Created 201 row, d')
    /\ Api.task row = task
    /\ (seq d < id row)%Z
    /\ (forall k t, tasks d !! k = Some t -> (k < id row)%Z)
    /\ tasks d !! id row = None
    /\ tasks d' !! id row = Some task
    /\ (forall k, k <> id row -> tasks d' !! k = tasks d !! k)
    /\ seq d' = id row
    /\ (forall r, In r (rows (tasks d')) <-> r = row \/ In r (rows (tasks d))).
Proof.
  intros H. rewrite (create_task_run task d H).
  set (new := (Z.max (seq d) (largest_id (tasks d)) + 1)%Z).
  assert (Hkeys : forall k t, tasks d !! k = Some t -> (k < new)%Z).
  { intros k t Hk. apply largest_id_ge in Hk. unfold new. lia. }
  assert (Hnew : tasks d !! new = None).
  { destruct (tasks d !! new) as [t|] eqn:E; [|reflexivity].
    apply Hkeys in E. lia. }
  eexists _, _. split; [reflexivity|]. cbn [id Api.task tasks seq]. fold new.
  split; [reflexivity|]. split; [unfold new; lia|]. split; [exact Hkeys|].
  split; [exact Hnew|]. split; [apply lookup_insert_eq|].
  split. { intros k Hk. now apply lookup_insert_ne. }
  split; [reflexivity|].
  intros r. rewrite !rows_spec. destruct r as [i t]. cbn [id Api.task].
  destruct (decide (i = new)) as [->|Hne].
  - rewrite lookup_insert_eq, Hnew. split.
    + intros [= ->]. now left.
    + intros [[= ->]|Hold]; [reflexivity|discriminate].
  - rewrite lookup_insert_ne by congruence. split; [now right|].
    intros [[= -> _]|Hold]; [congruence|exact Hold].
Qed.

(** The first task of a new database gets the id 1. *)
Lemma create_task_example :
  exists (row : TaskOut) (d' : db),
    create_task (sample_task "2024-06-15" "today") new_db = (Created 201 row, d')
    /\ Api.task row = sample_task "2024-06-15" "today"
    /\ (seq new_db < id row)%Z
    /\ (forall k t, tasks new_db !! k = Some t -> (k < id row)%Z)
    /\ tasks new_db !! id row = None
    /\ tasks d' !! id row = Some (sample_task "2024-06-15" "today")
    /\ (forall k, k <> id row -> tasks d' !! k = tasks new_db !! k)
    /\ seq d' = id row
    /\ (forall r, In r (rows (tasks d')) <-> r = row \/ In r (rows (tasks new_db))).
Proof.
  apply (create_task_adds_a_new_row (sample_task "2024-06-15" "today") new_db).
  vm_compute. reflexivity.
Defined.

Example create_task_first_id :
  fst (create_task (sample_task "2024-06-15" "today") new_db)
  = Created 201 {| id := 1; task := sample_task "2024-06-15" "today" |}.
Proof. vm_compute. reflexivity. Qed.

(** ** Row ids over a sequence of requests *)

Lemma handle_step (c : change) (d : db) :
  consistent d ->
  (seq d <= seq (snd (handle c d)))%Z
  /\ consistent (snd (handle c d))
  /\ (forall i, fst (handle c d) = Some i ->
                (seq d < i)%Z /\ seq (snd (handle c d)) = i).
Proof.
  intros Hd. destruct c as [task|task_id task|task_id]; cbn [handle].
  - unfold create_task.
    set (top := Z.max (seq d) (largest_id (tasks d))).
    destruct (max_rowid <=? top)%Z.
    { cbn [fst snd]. split; [lia|]. split; [exact Hd|]. intros i [=]. }
    rewrite lookup_insert_eq. cbn [fst snd seq id].
    split; [unfold top; lia|]. split.
    + intros k t. cbn [tasks seq]. destruct (decide (k = (top + 1)%Z)) as [->|Hne].
      * lia.
      * rewrite lookup_insert_ne by congruence. intros Hk. apply Hd in Hk.
        unfold top. lia.
    + intros i [= <-]. split; [unfold top; lia|reflexivity].
  - cbn [fst snd seq]. split; [lia|]. split; [|intros i [=]].
    intros k t. cbn [tasks seq]. unfold update_task.
    destruct (tasks d !! task_id) as [old|] eqn:E; [|apply Hd].
    rewrite lookup_insert_eq. cbn [snd].
    destruct (decide (k = task_id)) as [->|Hne].
    + intros _. now apply (Hd task_id old).
    + rewrite lookup_insert_ne by congruence. apply Hd.
  - cbn [fst snd seq]. split; [lia|]. split; [|intros i [=]].
    intros k t. cbn [tasks seq]. unfold delete_task.
    destruct (tasks d !! task_id) as [old|] eqn:E; [|apply Hd]. cbn [snd].
    intros Hk. apply lookup_delete_Some in Hk as [_ Hk]. now apply (Hd k t).
Qed.

Lemma handle_all_step (cs : list change) :
  forall d : db,
    consistent d ->
    StronglySorted Z.lt (fst (handle_all cs d))
    /\ Forall (fun i => (seq d < i)%Z) (fst (handle_all cs d))
    /\ consistent (snd (handle_all cs d)).
Proof.
  induction cs as [|c cs IH]; intros d Hd; cbn [handle_all].
  - cbn [fst snd]. repeat split; try constructor; exact Hd.
  - destruct (handle_step c d Hd) as (Hseq & Hd1 & Hnew).
    destruct (handle c d) as [new d1]. cbn [fst snd] in Hseq, Hd1, Hnew.
    destruct (IH d1 Hd1) as (Hsorted & Hall & Hd').
    destruct (handle_all cs d1) as [ids d']. cbn [fst snd] in *.
    assert (Hall' : Forall (fun i => (seq d < i)%Z) ids).
    { eapply Forall_impl; [exact Hall|]. intros i Hi. cbn beta in Hi. lia. }
    destruct new as [i|]; cbn [option_list app].
    + destruct (Hnew i eq_refl) as [Hi Ei]. repeat split; [|now constructor|exact Hd'].
      constructor; [exact Hsorted|].
      eapply Forall_impl; [exact Hall|]. intros j Hj. cbn beta in Hj. lia.
    + now repeat split.
Qed.

(** X14: row ids are never used again.  On a database as SQLite keeps
    it, whatever requests create, update and delete tasks, in whatever
    order, the ids given to the created tasks are strictly increasing,
    each above the recorded sequence and none the id of a row that was in
    the table at the start, deleted since or not. *)
Theorem created_ids_are_never_reused (cs : list change) (d : db) :
  consistent d ->
  StronglySorted Z.lt (fst (handle_all cs d))
  /\ Forall (fun i => (seq d < i)%Z /\ tasks d !! i = None) (fst (handle_all cs d))
  /\ consistent (snd (handle_all cs d)).
Proof.
  intros Hd. destruct (handle_all_step cs d Hd) as (Hsorted & Hall & Hd').
  split; [exact Hsorted|]. split; [|exact Hd'].
  eapply Forall_impl; [exact Hall|]. intros i Hi. cbn beta in Hi. split; [exact Hi|].
  destruct (tasks d !! i) as [t|] eqn:E; [|reflexivity].
  apply Hd in E. lia.
Qed.

(** Two tasks created, the second deleted, a third created: ids 1, 2, 3. *)
Lemma created_ids_example :
  StronglySorted Z.lt
    (fst (handle_all [Create (sample_task "2024-06-15" "a");
                      Create (sample_task "2024-06-16" "b");
                      Delete 2;
                      Create (sample_task "2024-06-17" "c")] new_db))
  /\ Forall (fun i => (seq new_db < i)%Z /\ tasks new_db !! i = None)
       (fst (handle_all [Create (sample_task "2024-06-15" "a");
                         Create (sample_task "2024-06-16" "b");
                         Delete 2;
                         Create (sample_task "2024-06-17" "c")] new_db))
  /\ consistent
       (snd (handle_all [Create (sample_task "2024-06-15" "a");
                         Create (sample_task "2024-06-16" "b");
                         Delete 2;
                         Create (sample_task "2024-06-17" "c")] new_db)).
Proof.
  apply (created_ids_are_never_reused
           [Create (sample_task "2024-06-15" "a");
            Create (sample_task "2024-06-16" "b");
            Delete 2;
            Create (sample_task "2024-06-17" "c")] new_db).
  intros k t H. discriminate H.
Defined.

Example created_ids_example_run :
  fst (handle_all [Create (sample_task "2024-06-15" "a");
                   Create (sample_task "2024-06-16" "b");
                   Delete 2;
                   Create (sample_task "2024-06-17" "c")] new_db)
  = [1; 2; 3]%Z.
Proof. vm_compute. reflexivity. Qed.

(** ** Requests that are repeated or undone *)


End TableFacts.

(* ===================================================================== *)
(** * Process ids as text *)
(* ===================================================================== *)

Module NumberFacts.
Import TaskLineFacts.

(** The characters of a decimal numeral. *)
Local Abbreviation chars d :=
  (List.map N_of_ascii (list_ascii_of_string (NilEmpty.string_of_uint d))).

Lemma int_digits_step (c : char) (k acc : Z) (r : str) :
  digit_val c = Some k ->
  int_digits acc true (c :: r) = int_digits (10 * acc + k) true r.
Proof.
  intros H. cbn [int_digits]. destruct (c =? 95) eqn:E.
  - apply N.eqb_eq in E. subst c. discriminate H.
  - now rewrite H.
Qed.

Lemma int_digits_acc (d : Decimal.uint) :
  forall acc : positive,
    int_digits (Z.pos acc) true (chars d) = Some (Z.pos (Pos.of_uint_acc d acc)).
Proof.
  induction d as [|d IH|d IH|d IH|d IH|d IH|d IH|d IH|d IH|d IH|d IH]; intros acc;
    [reflexivity|..];
    cbn [NilEmpty.string_of_uint list_ascii_of_string List.map Pos.of_uint_acc];
    erewrite int_digits_step by reflexivity;
    rewrite <- IH; f_equal; cbn; lia.
Qed.

Lemma int_digits_uint (d : Decimal.uint) :
  forall b : bool,
    d <> Decimal.Nil \/ b = true ->
    int_digits 0 b (chars d) = Some (Z.of_N (Pos.of_uint d)).
Proof.
  induction d as [|d IH|d IH|d IH|d IH|d IH|d IH|d IH|d IH|d IH|d IH]; intros b Hb;
    cbn [NilEmpty.string_of_uint list_ascii_of_string List.map Pos.of_uint];
    try (exact (int_digits_acc d _)).
  - destruct Hb as [Hb | ->]; [congruence|reflexivity].
  - change (int_digits 0 true (chars d) = Some (Z.of_N (Pos.of_uint d))).
    apply IH. now right.
Qed.

Lemma chars_are_digits (d : Decimal.uint) : forallb is_digit (chars d) = true.
Proof.
  induction d as [|d IH|d IH|d IH|d IH|d IH|d IH|d IH|d IH|d IH|d IH];
    [reflexivity|..];
    cbn [NilEmpty.string_of_uint list_ascii_of_string List.map forallb];
    rewrite IH; reflexivity.
Qed.

Lemma strip_no_space (s : str) :
  forallb (fun c => negb (is_space c)) s = true -> strip s = s.
Proof.
  intros H. apply strip_ends.
  - destruct s as [|c s]; [reflexivity|]. cbn [hd forallb] in *.
    apply andb_prop in H as [H _]. now apply negb_true_iff.
  - destruct s as [|c s] using rev_ind; [reflexivity|].
    rewrite last_last. rewrite forallb_app in H. apply andb_prop in H as [_ H].
    cbn [forallb] in H. apply andb_prop in H as [H _]. now apply negb_true_iff.
Qed.

Lemma digits_no_space (s : str) :
  forallb is_digit s = true -> forallb (fun c => negb (is_space c)) s = true.
Proof.
  induction s as [|c s IH]; [reflexivity|]. cbn [forallb]. intros H.
  apply andb_prop in H as [Hc Hs]. rewrite (IH Hs), andb_true_r.
  unfold is_digit in Hc. apply andb_prop in Hc as [H1 H2].
  apply N.leb_le in H1, H2. unfold is_space.
  repeat match goal with
         | |- context [(?a <=? ?b)] => destruct (N.leb_spec a b); try lia
         | |- context [(?a =? ?b)] => destruct (N.eqb_spec a b); try lia
         end; reflexivity.
Qed.

(** [int(str(n))] is [n]. *)
Lemma py_int_str_of_Z (z : Z) : py_int (str_of_Z z) = Some z.
Proof.
  rewrite <- (DecimalZ.of_to z) at 2. unfold str_of_Z, py_int.
  destruct z as [|p|p]; cbn [Z.to_int NilEmpty.string_of_int Z.of_int];
    unfold Z.of_uint.
  - reflexivity.
  - pose proof (DecimalPos.Unsigned.to_uint_nonnil p) as Hnil.
    rewrite strip_no_space by apply digits_no_space, chars_are_digits.
    rewrite <- (int_digits_uint (Pos.to_uint p) false (or_introl Hnil)).
    destruct (Pos.to_uint p); [congruence|reflexivity..].
  - pose proof (DecimalPos.Unsigned.to_uint_nonnil p) as Hnil.
    cbn [list_ascii_of_string List.map].
    rewrite strip_no_space.
    + change (N_of_ascii "-" =? 43) with false. change (N_of_ascii "-" =? 45) with true.
      cbv iota. rewrite (int_digits_uint (Pos.to_uint p) false (or_introl Hnil)).
      reflexivity.
    + cbn [forallb]. rewrite digits_no_space by apply chars_are_digits. reflexivity.
Qed.

Lemma str_of_Z_no_space (z : Z) : strip (str_of_Z z) = str_of_Z z.
Proof.
  unfold str_of_Z. destruct z as [|p|p];
    cbn [Z.to_int NilEmpty.string_of_int]; [reflexivity| |].
  - apply strip_no_space, digits_no_space, chars_are_digits.
  - cbn [list_ascii_of_string List.map]. apply strip_no_space. cbn [forallb].
    rewrite digits_no_space by apply chars_are_digits. reflexivity.
Qed.

End NumberFacts.

(* ===================================================================== *)
(** * The server lifecycle: PID file, start and stop *)
(* ===================================================================== *)

Module LifecycleFacts.
Import Cli Lifecycle NumberFacts.

Section WithSystem.
Context {Sys : System}.

(** ** Reading the PID file *)

Lemma read_pid_cases (st : state) :
  _read_pid st
  = match pid_file (sys st) with
    | None => (Ret None, st)
    | Some text =>
        match py_int (strip text) with
        | Some pid =>
            match process (sys st) pid with
            | Delivered => (Ret (Some pid), st)
            | _ => (Ret None, State (without_pid_file (sys st))
                                (trace st ++ [PidFileRemoved]))
            end
        | None => (Ret None, State (without_pid_file (sys st))
                               (trace st ++ [PidFileRemoved]))
        end
    end.
Proof.
  unfold _read_pid, bind, get_os. cbn beta iota.
  destruct (pid_file (sys st)) as [text|]; [|reflexivity].
  destruct (py_int (strip text)) as [pid|]; [|reflexivity].
  unfold os_kill, bind, get_os. cbn beta iota.
  destruct (process (sys st) pid); reflexivity.
Qed.


(** ** Starting *)

(** X17: start refuses when the PID file names a live process.  Both the
    start action and the start half of a restart then only report that
    the server is already running, with that pid: no PID file is written,
    no process is spawned, nothing is served, and the system is as it
    was. *)
Theorem start_refuses_live_pid_file (a : args) (st : state) (text : str) (p : Z) :
  pid_file (sys st) = Some text ->
  py_int (strip text) = Some p ->
  process (sys st) p = Delivered ->
  (act a = Start ->
   _handle_serve a st
   = (Ret tt, State (sys st) (trace st ++ [Printed (AlreadyRunning (Some p))])))
  /\ _start_server a st
     = (Ret tt, State (sys st) (trace st ++ [Printed (AlreadyRunning (Some p))])).
Proof.
  intros Hfile Hint Hproc.
  assert (Hread : _read_pid st = (Ret (Some p), st)).
  { rewrite read_pid_cases, Hfile, Hint, Hproc. reflexivity. }
  split.
  - intros Hact. unfold _handle_serve. rewrite Hact.
    unfold bind at 1. rewrite Hread. unfold bind at 1. rewrite Hread.
    destruct st; reflexivity.
  - unfold _start_server. unfold bind at 1. rewrite Hread.
    unfold bind at 1. rewrite Hread. destruct st; reflexivity.
Qed.

(** X18: the PID file that the start action writes is the one
    [_read_pid] reads.  When [_read_pid] finds no server, the start action
    writes the numeral of its own pid, serves, and removes the file when
    the server returns; and as long as the file is there and the manager
    lives, [_read_pid] answers that pid and changes nothing. *)
Theorem start_writes_a_readable_pid_file (a : args) (st st1 : state) :
  act a = Start ->
  _read_pid st = (Ret None, st1) ->
  process (sys st1) (own_pid (sys st1)) = Delivered ->
  _handle_serve a st
  = (Ret tt,
     State (without_pid_file (serve (host a) (port a) (with_own_pid_file (sys st1))))
       (trace st1 ++ [PidFileWritten (str_of_Z (own_pid (sys st1)));
                      Served (host a) (port a); PidFileRemoved]))
  /\ (forall tr : list event,
        _read_pid (State (with_own_pid_file (sys st1)) tr)
        = (Ret (Some (own_pid (sys st1))), State (with_own_pid_file (sys st1)) tr)).
Proof.
  intros Hact Hread Halive. split.
  - unfold _handle_serve. rewrite Hact. unfold bind at 1. rewrite Hread.
    unfold write_pid_file, unlink_pid_file, bind, get_os, set_os, emit.
    cbn [sys trace]. unfold without_pid_file, with_own_pid_file.
    now rewrite <- !app_assoc.
  - intros tr. rewrite read_pid_cases.
    cbn [sys with_own_pid_file pid_file process].
    now rewrite str_of_Z_no_space, py_int_str_of_Z, Halive.
Qed.

(** ** Stopping *)













(** ** Looking up the port *)









End WithSystem.

(** ** On small systems *)



(** X17 there. *)
Lemma start_refuses_example :
  (act (Args Start (u "127.0.0.1") 8001) = Start ->
   _handle_serve (Sys := obedient) (Args Start (u "127.0.0.1") 8001)
     (State tracked_server [])
   = (Ret tt, State (sys (State tracked_server []))
                (trace (State tracked_server [])
                 ++ [Printed (AlreadyRunning (Some 4242%Z))])))
  /\ _start_server (Sys := obedient) (Args Start (u "127.0.0.1") 8001)
       (State tracked_server [])
     = (Ret tt, State (sys (State tracked_server []))
                  (trace (State tracked_server [])
                   ++ [Printed (AlreadyRunning (Some 4242%Z))])).
Proof.
  apply (start_refuses_live_pid_file (Sys := obedient)
           (Args Start (u "127.0.0.1") 8001) (State tracked_server []) (u "4242") 4242);
    reflexivity.
Defined.

(** X18 on a system without PID file and without server. *)
Lemma start_writes_example :
  _handle_serve (Sys := obedient) (Args Start (u "127.0.0.1") 8001) (State idle [])
  = (Ret tt,
     State (without_pid_file
              (serve (System := obedient) (host (Args Start (u "127.0.0.1") 8001))
                 (port (Args Start (u "127.0.0.1") 8001))
                 (with_own_pid_file (sys (State idle [])))))
       (trace (State idle [])
        ++ [PidFileWritten (str_of_Z (own_pid (sys (State idle []))));
            Served (host (Args Start (u "127.0.0.1") 8001))
              (port (Args Start (u "127.0.0.1") 8001));
            PidFileRemoved]))
  /\ (forall tr : list event,
        _read_pid (Sys := obedient) (State (with_own_pid_file (sys (State idle []))) tr)
        = (Ret (Some (own_pid (sys (State idle [])))),
           State (with_own_pid_file (sys (State idle []))) tr)).
Proof.
  apply (start_writes_a_readable_pid_file (Sys := obedient)
           (Args Start (u "127.0.0.1") 8001) (State idle []) (State idle []));
    reflexivity.
Defined.


Example stop_server_example_run :
  _stop_server (Sys := stubborn) (Args Stop (u "127.0.0.1") 8001)
    (State tracked_server [])
  = (Ret true,
     State (without_pid_file
              (Os (Some (u "4242")) (fun _ => NoSuchProcess)
                 (ss_output tracked_server) 777))
       (Signalled 4242 SIGTERM :: replicate 10 Slept
        ++ [Signalled 4242 SIGKILL; PidFileRemoved; Printed (Killed 4242)])).
Proof. reflexivity. Qed.

End LifecycleFacts.

(* ===================================================================== *)
(** * Failures on the way to the note *)
(* ===================================================================== *)

Module FailureFacts.
Import Joplin Traces StrFacts SortFacts PipelineFacts.

Section WithPlatform.
Context {W : Type} {P : Platform W}.


(** ** The listing *)




(** X22: a listing that announces more pages without a cursor is asked
    for again and again.  When the server answers the request for the
    listing, whatever its state, with a page whose [has_more] is true and
    whose [cursor] is missing or empty, [_list_all_items] asks for the same
    page in every iteration: however many iterations it is given, it has
    not returned after them, and it has sent the same request in each. *)
Theorem listing_without_cursor_never_ends (base_url token host : json) :
  more_without_cursor base_url token host ->
  forall (fuel : nat) (st : state (W := W)),
    exists st' : state,
      _list_all_items fuel base_url token host st = (OutOfFuel, st')
      /\ trace st'
         = trace st ++ List.repeat (Sent (listing_request base_url token host)) fuel.
Proof.
  intros Hserver fuel. unfold _list_all_items.
  assert (Hloop : forall (items : list json) (cursor : json) (st : state (W := W)),
             truthy cursor = false ->
             exists st' : state,
               _list_all_items_loop fuel base_url token host items cursor st
               = (OutOfFuel, st')
               /\ trace st'
                  = trace st
                    ++ List.repeat (Sent (listing_request base_url token host)) fuel).
  { induction fuel as [|fuel IH]; intros items cursor st Hcursor.
    - exists st. split; [reflexivity|]. cbn [List.repeat]. now rewrite app_nil_r.
    - cbn [_list_all_items_loop]. rewrite Hcursor.
      destruct (Hserver (world st)) as (resp & w' & data & page & Hopen & Hdata
                                        & Hpage & Hmore & Hnone).
      unfold bind at 1, _api_request at 1, bind at 1, send at 1.
      change (Request (fstr base_url ++ u "/api/items/root:/:/children") (u "GET") None
                (if truthy host
                 then dict_set (u "Host") (fstr host) (_cookie_headers token)
                 else _cookie_headers token) 15)
        with (listing_request base_url token host).
      rewrite Hopen. cbn [ret].
      unfold bind at 1, lift at 1. rewrite Hdata.
      unfold bind at 1, lift at 1, dict_get at 1.
      unfold bind at 1, lift at 1. rewrite Hpage.
      unfold bind at 1, lift at 1, dict_get at 1. rewrite Hmore. cbn [negb].
      unfold bind at 1, lift at 1, dict_get at 1.
      destruct (IH (items ++ page) (default (JStr []) (assoc (u "cursor") data))
                  {| world := w';
                     trace := trace st ++ [Sent (listing_request base_url token host)] |}
                  Hnone) as (st' & -> & Htrace).
      exists st'. split; [reflexivity|].
      rewrite Htrace. cbn [trace List.repeat]. now rewrite <- app_assoc. }
  intros st. now apply Hloop.
Qed.

(** ** The scan *)

(** Decoding and parsing are not loops of the model: they return or
    raise. *)
Lemma decode_returns_or_raises (raw : bytes) : decode raw <> OutOfFuel.
Proof. unfold decode. now destruct (utf8_decode raw). Qed.

Lemma parse_returns_or_raises (text : str) : _parse_joplin_item text <> OutOfFuel.
Proof.
  unfold _parse_joplin_item.
  now destruct (py_int (type_field (metadata_of (drop _ _)))).
Qed.

(** One step of the scan on an item that is a dict with a string for a
    name: it ends well, sends the request for the content when the name
    ends in [.md] and nothing otherwise, and keeps the candidates or adds
    one under that name. *)
Lemma scan_item_named (base_url token host : json) (notebook_name note_title : str)
    (acc : option str * list (str * item)) (it : json) (st : state (W := W)) :
  named_item it = true ->
  exists found st',
    scan_item base_url token host notebook_name note_title acc it st = (Ret found, st')
    /\ trace st'
       = trace st
         ++ (if endswith (u ".md") (item_name_of it)
             then [Sent (content_request base_url token host (item_name_of it))]
             else [])
    /\ (snd found = snd acc
        \/ exists parsed,
             snd found = snd acc ++ [(item_name_of it, parsed)]
             /\ endswith (u ".md") (item_name_of it) = true).
Proof.
  intros Hnamed.
  assert (Hget : dict_get it "name" (JStr []) = Ret (JStr (item_name_of it))).
  { destruct it as [| | | | | |d]; try discriminate Hnamed.
    unfold named_item in Hnamed. unfold dict_get, item_name_of.
    destruct (assoc (u "name") d) as [[]|]; try discriminate Hnamed; reflexivity. }
  unfold scan_item. unfold bind at 1, lift at 1. rewrite Hget.
  destruct (endswith (u ".md") (item_name_of it)) eqn:Hmd; cbn [negb].
  2:{ exists acc, st. split; [reflexivity|]. split; [now rewrite app_nil_r|now left]. }
  unfold bind at 1, try_ at 1, bind at 1, _api_request at 1, bind at 1, send at 1.
  change (Request (content_url base_url (item_name_of it)) (u "GET") None
            (if truthy host then dict_set (u "Host") (fstr host) (_cookie_headers token)
             else _cookie_headers token) 15)
    with (content_request base_url token host (item_name_of it)).
  destruct (urlopen (content_request base_url token host (item_name_of it)) (world st))
    as [[exc|resp] w].
  { eexists _, _. split; [reflexivity|]. split; [reflexivity|now left]. }
  unfold ret, bind, lift.
  destruct (decode (content resp)) as [text| |] eqn:Hdecoded.
  2:{ eexists _, _. split; [reflexivity|]. split; [reflexivity|now left]. }
  2:{ now destruct (decode_returns_or_raises (content resp)). }
  destruct (_parse_joplin_item text) as [parsed| |] eqn:Hparsed.
  2:{ eexists _, _. split; [reflexivity|]. split; [reflexivity|now left]. }
  2:{ now destruct (parse_returns_or_raises text). }
  eexists _, _. split; [reflexivity|]. split; [reflexivity|]. cbn [snd].
  destruct ((item_type parsed =? 1)%Z && str_eqb (title parsed) note_title);
    [right; now exists parsed|now left].
Qed.

(** One step of the scan on anything else. *)
Lemma scan_item_unnamed (base_url token host : json) (notebook_name note_title : str)
    (acc : option str * list (str * item)) (it : json) (st : state (W := W)) :
  named_item it = false ->
  scan_item base_url token host notebook_name note_title acc it st
  = (Raise AttributeError, st).
Proof.
  intros Hnamed. unfold scan_item, bind, lift.
  destruct it as [| | | | | |d]; try reflexivity.
  unfold named_item in Hnamed. unfold dict_get.
  destruct (assoc (u "name") d) as [[]|]; try discriminate Hnamed; reflexivity.
Qed.

(** X23: the scan of [_find_note_item] asks for the content of the items
    named [*.md] and skips what it cannot read.  On a listing whose items
    are dicts with a string for a name (or without a name), the loop always
    ends well, whatever the answers are; it sends exactly one GET for the
    content of each item whose name ends in [.md], in the order of the
    listing, and nothing else; and every candidate it has added has the
    name of such an item.  On any other listing it raises AttributeError. *)
Theorem scan_reads_each_md_item (base_url token host : json)
    (notebook_name note_title : str) (items : list json)
    (acc : option str * list (str * item)) (st : state (W := W)) :
  (forallb named_item items = true ->
   exists found st',
     scan_items base_url token host notebook_name note_title acc items st
     = (Ret found, st')
     /\ trace st'
        = trace st
          ++ List.map (fun name => Sent (content_request base_url token host name))
               (md_names items)
     /\ exists added,
          snd found = snd acc ++ added
          /\ Forall (fun c => In (fst c) (md_names items)) added)
  /\ (forallb named_item items = false ->
      exists st',
        scan_items base_url token host notebook_name note_title acc items st
        = (Raise AttributeError, st')).
Proof.
  revert acc st. induction items as [|it rest IH]; intros acc st.
  { split; [|discriminate]. intros _. exists acc, st.
    split; [reflexivity|]. split; [now rewrite app_nil_r|].
    exists []. split; [now rewrite app_nil_r|constructor]. }
  cbn [forallb scan_items]. unfold bind at 1 2.
  destruct (named_item it) eqn:Hnamed; cbn [andb].
  2:{ split; [discriminate|]. intros _.
      rewrite (scan_item_unnamed _ _ _ _ _ _ _ _ Hnamed). now exists st. }
  destruct (scan_item_named base_url token host notebook_name note_title acc it st Hnamed)
    as (found1 & st1 & -> & Htrace1 & Hfound1).
  destruct (IH found1 st1) as [IHgood IHbad].
  split.
  - intros Hrest. destruct (IHgood Hrest) as (found & st' & -> & Htrace & added & Hsnd & Hadded).
    exists found, st'. split; [reflexivity|]. split.
    + rewrite Htrace, Htrace1, <- app_assoc. f_equal.
      unfold md_names. cbn [List.map List.filter].
      destruct (endswith (u ".md") (item_name_of it)); reflexivity.
    + assert (Hweak : Forall (fun c : str * item => In (fst c) (md_names (it :: rest))) added).
      { eapply Forall_impl; [exact Hadded|]. intros c Hc.
        unfold md_names in *. cbn [List.map List.filter].
        destruct (endswith (u ".md") (item_name_of it)); [now right|exact Hc]. }
      destruct Hfound1 as [Hsame | (parsed & Hmore & Hmd)].
      * exists added. split; [now rewrite Hsnd, Hsame|exact Hweak].
      * exists ((item_name_of it, parsed) :: added). split.
        -- rewrite Hsnd, Hmore, <- app_assoc. reflexivity.
        -- constructor; [|exact Hweak].
           unfold md_names. cbn [List.map List.filter fst]. rewrite Hmd. now left.
  - intros Hrest. destruct (IHbad Hrest) as (st' & ->). now exists st'.
Qed.

End WithPlatform.


(** X22 on a server that answers every request with the same page: after
    seven iterations the listing has not returned, and has asked seven
    times. *)
Lemma listing_without_cursor_example :
  exists st' : state (W := unit),
    _list_all_items (P := endless_server) 7 (JStr Demo.base) Demo.tok (JStr [])
      (State tt [])
    = (OutOfFuel, st')
    /\ trace st'
       = [] ++ List.repeat
                 (Sent (listing_request (P := endless_server)
                          (JStr Demo.base) Demo.tok (JStr []))) 7.
Proof.
  refine (listing_without_cursor_never_ends (P := endless_server)
            (JStr Demo.base) Demo.tok (JStr []) _ 7 (State tt [])).
  intros w.
  exists (Response 200 (Demo.dumps endless_page)), w,
    [(u "items", JArr [JObj [(u "name", JStr (u "a.md"))]]); (u "has_more", JBool true)],
    [JObj [(u "name", JStr (u "a.md"))]].
  repeat split; reflexivity.
Defined.

End FailureFacts.

(* ===================================================================== *)
(** * The settings that are loaded *)
(* ===================================================================== *)

Module MergeFacts.
Import Settings Documents SettingsFacts.

(** ** Values and the documents they stand for *)

(** [v] stands for the document [d] in the store [h]. *)
Local Abbreviation rep h v d := (exists F : nat, structure F h v = Some d).

(** Items and members with the same keys in the same order, whose values
    are related by [R]. *)
Local Abbreviation related R :=
  (Forall2 (fun (kv : str * value) (kd : str * json) =>
              fst kv = fst kd /\ R (fst kv) (snd kv) (snd kd))).

(** Items that stand, key by key, for the members of an object. *)
Local Abbreviation entries h := (related (fun (_ : str) v d => rep h v d)).

(** The same but for the value under the key [k]. *)
Local Abbreviation entries_but k h :=
  (related (fun (k' : str) v d => k' <> k -> rep h v d)).

(** [d[k] = v] for all the items [(k, v)] in turn. *)
Local Abbreviation set_all items d :=
  (fold_left (fun acc kv => dict_set (fst kv) (snd kv) acc) items d).

(** The part of the store from address [n] on. *)
Local Abbreviation upper n h :=
  {| objs := filter (fun kv : loc * list (str * value) => (n <= fst kv)%nat) (objs h);
     next := next h |}.

Lemma structure_weaken (F : nat) :
  forall (F' : nat) (h h' : heap) (v : value) (d : json),
    (F <= F')%nat -> objs h ⊆ objs h' ->
    structure F h v = Some d -> structure F' h' v = Some d.
Proof.
  induction F as [|F IH]; intros F' h h' v d HF Hsub H; [discriminate|].
  destruct F' as [|F']; [lia|]. cbn [structure] in *.
  destruct v as [| b | z | nz lit | s | l | l]; try exact H.
  - destruct (mapM (structure F h) l) as [ds|] eqn:E; [|discriminate].
    apply mapM_Some in E.
    assert (E' : mapM (structure F' h') l = Some ds).
    { apply mapM_Some. eapply Forall2_impl; [exact E|].
      intros x y Hxy. apply (IH F' h h'); [lia|exact Hsub|exact Hxy]. }
    now rewrite E'.
  - destruct (objs h !! l) as [items|] eqn:El; [|discriminate].
    rewrite (lookup_weaken _ _ _ _ El Hsub). cbn in H |- *.
    destruct (mapM (fun kv => pair (fst kv) <$> structure F h (snd kv)) items)
      as [m|] eqn:E; [|discriminate].
    apply mapM_Some in E.
    assert (E' : mapM (fun kv => pair (fst kv) <$> structure F' h' (snd kv)) items
                 = Some m).
    { apply mapM_Some. eapply Forall2_impl; [exact E|].
      intros x y Hxy. cbn in Hxy |- *.
      destruct (structure F h x.2) as [dx|] eqn:Ex; [|discriminate].
      now rewrite (IH F' h h' _ _ ltac:(lia) Hsub Ex). }
    now rewrite E'.
Qed.

Lemma rep_weaken (h h' : heap) (v : value) (d : json) :
  objs h ⊆ objs h' -> rep h v d -> rep h' v d.
Proof.
  intros Hsub [F H]. exists F. now apply (structure_weaken F F h h').
Qed.

Lemma entries_weaken (h h' : heap) (items : list (str * value))
    (m : list (str * json)) :
  objs h ⊆ objs h' -> entries h items m -> entries h' items m.
Proof.
  intros Hsub H. eapply Forall2_impl; [exact H|].
  intros kv kd [Hk Hv]. split; [exact Hk|now apply (rep_weaken h)].
Qed.

(** One depth is enough for all the elements of a list. *)
Lemma common_fuel {A B : Type} (Q : nat -> A -> B -> Prop) (l : list A) (k : list B) :
  (forall F F' a b, (F <= F')%nat -> Q F a b -> Q F' a b) ->
  Forall2 (fun a b => exists F, Q F a b) l k ->
  exists F, Forall2 (Q F) l k.
Proof.
  intros Hmono H. induction H as [|a b l k [F1 H1] _ [F2 H2]].
  - exists 0%nat. constructor.
  - exists (Nat.max F1 F2). constructor.
    + apply (Hmono F1); [lia|exact H1].
    + eapply Forall2_impl; [exact H2|]. intros x y. apply Hmono. lia.
Qed.

Lemma rep_list (h : heap) (vs : list value) (ds : list json) :
  Forall2 (fun v d => rep h v d) vs ds -> rep h (VList vs) (JArr ds).
Proof.
  intros H.
  apply (common_fuel (fun F v d => structure F h v = Some d)) in H as [F H].
  2:{ intros F F' a b HF. now apply structure_weaken. }
  exists (S F). cbn [structure].
  apply mapM_Some in H. now rewrite H.
Qed.

Lemma rep_dict (h : heap) (l : loc) (items : list (str * value))
    (m : list (str * json)) :
  objs h !! l = Some items -> entries h items m -> rep h (VDict l) (JObj m).
Proof.
  intros Hl H.
  assert (H' : Forall2 (fun (kv : str * value) (kd : str * json) =>
                          exists F, fst kv = fst kd
                                    /\ structure F h (snd kv) = Some (snd kd)) items m).
  { eapply Forall2_impl; [exact H|]. intros kv kd [Hk [F Hv]]. now exists F. }
  apply (common_fuel (fun F (kv : str * value) (kd : str * json) =>
                        fst kv = fst kd /\ structure F h (snd kv) = Some (snd kd)))
    in H' as [F H'].
  2:{ intros F F' a b HF [Hk Hv]. split; [exact Hk|].
      now apply (structure_weaken F F' h h). }
  clear H. rename H' into H.
  exists (S F). cbn [structure]. rewrite Hl. cbn.
  assert (E : mapM (fun kv => pair (fst kv) <$> structure F h (snd kv)) items = Some m).
  { apply mapM_Some. eapply Forall2_impl; [exact H|].
    intros [k v] [k' d] [Hk Hv]. cbn in *. rewrite Hv, Hk. reflexivity. }
  now rewrite E.
Qed.

Lemma rep_dict_inv (h : heap) (l : loc) (d : json) :
  rep h (VDict l) d ->
  exists items m, d = JObj m /\ objs h !! l = Some items /\ entries h items m.
Proof.
  intros [[|F] H]; [discriminate|]. cbn [structure] in H.
  destruct (objs h !! l) as [items|] eqn:El; [|discriminate]. cbn in H.
  destruct (mapM (fun kv => pair (fst kv) <$> structure F h (snd kv)) items)
    as [m|] eqn:E; [|discriminate].
  injection H as <-. exists items, m. split; [reflexivity|]. split; [reflexivity|].
  apply mapM_Some in E. eapply Forall2_impl; [exact E|].
  intros [k v] [k' d] Hkv. cbn in *.
  destruct (structure F h v) as [dv|] eqn:Ev; [|discriminate].
  injection Hkv as <- <-. split; [reflexivity|now exists F].
Qed.

Lemma rep_obj_inv (h : heap) (v : value) (m : list (str * json)) :
  rep h v (JObj m) -> exists l, v = VDict l.
Proof.
  intros [[|F] H]; [discriminate|]. cbn [structure] in H.
  destruct v as [| b | z | nz lit | s | l | l]; try discriminate H.
  - destruct (mapM (structure F h) l); discriminate H.
  - now exists l.
Qed.

(** ** Dictionaries as association lists *)

Lemma assoc_dict_set_eq {V : Type} (k : str) (v : V) (d : list (str * V)) :
  assoc k (dict_set k v d) = Some v.
Proof.
  induction d as [|[k0 v0] d IH]; cbn [dict_set assoc].
  - now rewrite (proj2 (SortFacts.str_eqb_eq k k) eq_refl).
  - destruct (str_eqb k0 k) eqn:E; cbn [assoc].
    + now rewrite (proj2 (SortFacts.str_eqb_eq k k) eq_refl).
    + now rewrite E.
Qed.

Lemma assoc_dict_set_ne {V : Type} (k k' : str) (v : V) (d : list (str * V)) :
  k <> k' -> assoc k' (dict_set k v d) = assoc k' d.
Proof.
  intros Hne. induction d as [|[k0 v0] d IH]; cbn [dict_set assoc].
  - destruct (str_eqb k k') eqn:E; [|reflexivity].
    apply SortFacts.str_eqb_eq in E. contradiction.
  - destruct (str_eqb k0 k) eqn:E; cbn [assoc].
    + apply SortFacts.str_eqb_eq in E. subst k0.
      destruct (str_eqb k k') eqn:E'; [|reflexivity].
      apply SortFacts.str_eqb_eq in E'. contradiction.
    + now rewrite IH.
Qed.

Lemma assoc_none {V : Type} (k : str) (d : list (str * V)) :
  assoc k d = None <-> ~ In k (List.map fst d).
Proof.
  induction d as [|[k0 v0] d IH]; cbn [assoc List.map In fst]; [easy|].
  destruct (str_eqb k0 k) eqn:E.
  - apply SortFacts.str_eqb_eq in E. split; [discriminate|]. intros H. destruct H. now left.
  - rewrite IH. split; [|tauto]. intros H [->|Hin]; [|tauto].
    now rewrite (proj2 (SortFacts.str_eqb_eq k k) eq_refl) in E.
Qed.

Lemma assoc_some_in {V : Type} (k : str) (v : V) (d : list (str * V)) :
  assoc k d = Some v -> In (k, v) d.
Proof.
  induction d as [|[k0 v0] d IH]; cbn [assoc]; [discriminate|].
  destruct (str_eqb k0 k) eqn:E.
  - apply SortFacts.str_eqb_eq in E. intros [= ->]. left. now subst.
  - intros H. right. now apply IH.
Qed.

Lemma in_assoc_nodup {V : Type} (k : str) (v : V) (d : list (str * V)) :
  List.NoDup (List.map fst d) -> In (k, v) d -> assoc k d = Some v.
Proof.
  induction d as [|[k0 v0] d IH]; cbn [assoc List.map In fst]; [easy|].
  intros Hnd [[= -> ->]|Hin].
  - now rewrite (proj2 (SortFacts.str_eqb_eq k k) eq_refl).
  - inversion Hnd as [|? ? Hk0 Hd]; subst.
    destruct (str_eqb k0 k) eqn:E; [|now apply IH].
    apply SortFacts.str_eqb_eq in E. subst k0. destruct Hk0.
    apply in_map_iff. now exists (k, v).
Qed.

Lemma keys_dict_set {V : Type} (k : str) (v : V) (d : list (str * V)) :
  List.map fst (dict_set k v d)
  = match assoc k d with
    | Some _ => List.map fst d
    | None => List.map fst d ++ [k]
    end.
Proof.
  induction d as [|[k0 v0] d IH]; cbn [dict_set assoc List.map fst]; [reflexivity|].
  destruct (str_eqb k0 k) eqn:E; cbn [List.map fst].
  - apply SortFacts.str_eqb_eq in E. now subst.
  - rewrite IH. now destruct (assoc k d).
Qed.

Lemma nodup_dict_set {V : Type} (k : str) (v : V) (d : list (str * V)) :
  List.NoDup (List.map fst d) -> List.NoDup (List.map fst (dict_set k v d)).
Proof.
  intros Hnd. rewrite keys_dict_set. destruct (assoc k d) eqn:E; [exact Hnd|].
  apply assoc_none in E.
  apply NoDup_ListNoDup, NoDup_app. apply NoDup_ListNoDup in Hnd.
  split; [exact Hnd|]. split; [|apply NoDup_singleton].
  intros x Hx Hk. apply list_elem_of_In in Hx. apply list_elem_of_In in Hk.
  destruct Hk as [<-|[]]. contradiction.
Qed.

Lemma related_dict_set (R : str -> value -> json -> Prop) (k : str) (v : value)
    (d : json) (items : list (str * value)) (m : list (str * json)) :
  related R items m -> R k v d -> related R (dict_set k v items) (dict_set k d m).
Proof.
  intros H Hv. induction H as [|[k0 v0] [k1 d1] items m [Hk H0] Hrest IH];
    cbn [dict_set].
  - constructor; [|constructor]. now split.
  - cbn in Hk. subst k1. destruct (str_eqb k0 k).
    + constructor; [now split|exact Hrest].
    + constructor; [now split|exact IH].
Qed.

Lemma entries_dict_set (h : heap) (k : str) (v : value) (d : json)
    (items : list (str * value)) (m : list (str * json)) :
  entries h items m -> rep h v d ->
  entries h (dict_set k v items) (dict_set k d m).
Proof. intros H Hv. now apply related_dict_set. Qed.

Lemma related_set_all (R : str -> value -> json -> Prop)
    (items : list (str * value)) (m : list (str * json)) :
  related R items m ->
  forall (b : list (str * value)) (bd : list (str * json)),
    related R b bd -> related R (set_all items b) (set_all m bd).
Proof.
  intros H. induction H as [|[k0 v0] [k1 d1] items m [Hk H0] Hrest IH];
    intros b bd Hb; cbn [fold_left fst snd]; [exact Hb|].
  cbn in Hk, H0. subst k1. apply IH. now apply related_dict_set.
Qed.

Lemma related_in (R : str -> value -> json -> Prop) (k : str) (v : value)
    (items : list (str * value)) (m : list (str * json)) :
  related R items m -> In (k, v) items -> exists d, In (k, d) m /\ R k v d.
Proof.
  intros H. induction H as [|[k0 v0] [k1 d1] items m [Hk H0] Hrest IH];
    cbn [In]; [easy|].
  cbn in Hk, H0. subst k1. intros [[= -> ->]|Hin].
  - exists d1. split; [now left|exact H0].
  - destruct (IH Hin) as (d & Hd & HR). exists d. split; [now right|exact HR].
Qed.

Lemma nodup_set_all {V : Type} (items b : list (str * V)) :
  List.NoDup (List.map fst b) -> List.NoDup (List.map fst (set_all items b)).
Proof.
  revert b. induction items as [|[k v] items IH]; intros b Hb; [exact Hb|].
  cbn [fold_left fst snd]. apply IH. now apply nodup_dict_set.
Qed.

Lemma assoc_set_all_ne {V : Type} (k : str) (items b : list (str * V)) :
  ~ In k (List.map fst items) -> assoc k (set_all items b) = assoc k b.
Proof.
  revert b. induction items as [|[k0 v0] items IH]; intros b Hk; [reflexivity|].
  cbn [fold_left fst snd List.map In] in *.
  rewrite IH by tauto. apply assoc_dict_set_ne. tauto.
Qed.

Lemma entries_keys (h : heap) (items : list (str * value)) (m : list (str * json)) :
  entries h items m -> List.map fst items = List.map fst m.
Proof.
  intros H. induction H as [|[k0 v0] [k1 d1] items m [Hk H0] _ IH]; [reflexivity|].
  cbn in *. now rewrite Hk, IH.
Qed.

Lemma entries_assoc (h : heap) (k : str) (items : list (str * value))
    (m : list (str * json)) :
  entries h items m ->
  match assoc k items, assoc k m with
  | Some v, Some d => rep h v d
  | None, None => True
  | _, _ => False
  end.
Proof.
  intros H. induction H as [|[k0 v0] [k1 d1] items m [Hk H0] _ IH];
    cbn [assoc]; [exact I|].
  cbn in Hk. subst k1. destruct (str_eqb k0 k); [exact H0|exact IH].
Qed.

(** ** Loading the file *)

Lemma alloc_fresh (items : list (str * value)) (h : heap) :
  wf h ->
  wf (snd (alloc items h))
  /\ objs h ⊆ objs (snd (alloc items h))
  /\ objs (snd (alloc items h)) !! next h = Some items
  /\ next (snd (alloc items h)) = S (next h)
  /\ fst (alloc items h) = next h.
Proof.
  intros Hwf. unfold alloc. cbn [fst snd objs next].
  split; [|split; [|split; [|split]]]; try reflexivity.
  - intros l its. cbn [objs next].
    destruct (decide (next h = l)) as [<-|Hne]; [lia|].
    rewrite lookup_insert_ne by exact Hne. intros H. apply Hwf in H. lia.
  - apply insert_subseteq.
    destruct (objs h !! next h) as [its|] eqn:E; [|reflexivity].
    apply Hwf in E. lia.
  - apply lookup_insert_eq.
Qed.

Lemma upper_mono (n : loc) (h h' : heap) :
  objs h ⊆ objs h' -> objs (upper n h) ⊆ objs (upper n h').
Proof. cbn [objs]. apply map_filter_subseteq_mono. Qed.

(** Loading a document gives a value that stands for the decoded document
    in the new part of the store. *)
Lemma load_json_rep (n : loc) (j : json) :
  forall h, wf h -> (n <= next h)%nat ->
    wf (snd (load_json j h))
    /\ (next h <= next (snd (load_json j h)))%nat
    /\ objs h ⊆ objs (snd (load_json j h))
    /\ rep (upper n (snd (load_json j h))) (fst (load_json j h)) (decoded j).
Proof.
  induction j as [| b | z | nz lit | s | l IHl | d IHd] using json_nested_ind;
    intros h Hwf Hn; cbn [load_json decoded fst snd];
    try (split; [exact Hwf|]; split; [lia|]; split; [reflexivity|];
         now exists 1%nat).
  - assert (Hlist : forall h, wf h -> (n <= next h)%nat ->
              wf (snd (load_list load_json l h))
              /\ (next h <= next (snd (load_list load_json l h)))%nat
              /\ objs h ⊆ objs (snd (load_list load_json l h))
              /\ Forall2 (fun v d => rep (upper n (snd (load_list load_json l h))) v d)
                   (fst (load_list load_json l h)) (List.map decoded l)).
    { clear h Hwf Hn. induction IHl as [|x l Hx _ IH]; intros h Hwf Hn.
      - cbn. split; [exact Hwf|]. split; [lia|]. split; [reflexivity|constructor].
      - rewrite load_list_cons.
        destruct (Hx h Hwf Hn) as (W1 & N1 & S1 & R1).
        destruct (load_json x h) as [v h1]. cbn [fst snd] in *.
        destruct (IH h1 W1 ltac:(lia)) as (W2 & N2 & S2 & R2).
        destruct (load_list load_json l h1) as [vs h2]. cbn [fst snd List.map] in *.
        split; [exact W2|]. split; [lia|]. split; [now transitivity (objs h1)|].
        constructor; [|exact R2].
        apply (rep_weaken (upper n h1)); [now apply upper_mono|exact R1]. }
    destruct (Hlist h Hwf Hn) as (W & N & S & R).
    destruct (load_list load_json l h) as [vs h1]. cbn [fst snd] in *.
    split; [exact W|]. split; [exact N|]. split; [exact S|]. now apply rep_list.
  - assert (Hitems : forall acc accd h, wf h -> (n <= next h)%nat ->
              entries (upper n h) acc accd ->
              wf (snd (load_items load_json d acc h))
              /\ (next h <= next (snd (load_items load_json d acc h)))%nat
              /\ objs h ⊆ objs (snd (load_items load_json d acc h))
              /\ entries (upper n (snd (load_items load_json d acc h)))
                   (fst (load_items load_json d acc h))
                   (fold_left (fun acc kx => dict_set (fst kx) (decoded (snd kx)) acc)
                      d accd)).
    { clear h Hwf Hn. induction IHd as [|[k x] d Hx _ IH];
        intros acc accd h Hwf Hn Hacc.
      - cbn. split; [exact Hwf|]. split; [lia|]. split; [reflexivity|exact Hacc].
      - rewrite load_items_cons. cbn [snd] in Hx.
        destruct (Hx h Hwf Hn) as (W1 & N1 & S1 & R1).
        destruct (load_json x h) as [v h1]. cbn [fst snd] in *.
        destruct (IH (dict_set k v acc) (dict_set k (decoded x) accd) h1 W1 ltac:(lia))
          as (W2 & N2 & S2 & R2).
        { apply entries_dict_set; [|exact R1].
          apply (entries_weaken (upper n h)); [now apply upper_mono|exact Hacc]. }
        cbn [fold_left fst snd].
        split; [exact W2|]. split; [lia|]. split; [now transitivity (objs h1)|exact R2]. }
    destruct (Hitems [] [] h Hwf Hn ltac:(constructor)) as (W1 & N1 & S1 & R1).
    destruct (load_items load_json d [] h) as [items h1]. cbn [fst snd] in *.
    destruct (alloc_fresh items h1 W1) as (W2 & S2 & L2 & N2 & F2).
    destruct (alloc items h1) as [l h2]. cbn [fst snd] in *. subst l.
    split; [exact W2|]. split; [lia|]. split; [now transitivity (objs h1)|].
    apply (rep_dict _ (next h1) items).
    + cbn [objs]. apply map_lookup_filter_Some. split; [exact L2|]. cbn. lia.
    + apply (entries_weaken (upper n h1)); [now apply upper_mono|exact R1].
Qed.

(** ** What a loaded document looks like *)

(** An object has each key once. *)
Local Abbreviation keyed d :=
  (forall m : list (str * json), d = JObj m -> List.NoDup (List.map fst m)).

Lemma decoded_members (d acc : list (str * json)) :
  List.NoDup (List.map fst acc) ->
  List.NoDup
    (List.map fst
       (fold_left (fun acc kx => dict_set (fst kx) (decoded (snd kx)) acc) d acc)).
Proof.
  revert acc. induction d as [|[k x] d IH]; intros acc Hacc; [exact Hacc|].
  cbn [fold_left]. apply IH. now apply nodup_dict_set.
Qed.

Lemma decoded_keyed (j : json) : keyed (decoded j).
Proof.
  destruct j as [| b | z | nz lit | s | l | d]; cbn [decoded]; try discriminate.
  intros m [= <-]. apply decoded_members. constructor.
Qed.

Lemma dict_set_forall {V : Type} (Q : str * V -> Prop) (k : str) (v : V)
    (d : list (str * V)) :
  List.Forall Q d -> Q (k, v) -> List.Forall Q (dict_set k v d).
Proof.
  intros H Hv. induction H as [|[k0 v0] d H0 Hrest IH]; cbn [dict_set].
  - now constructor.
  - destruct (str_eqb k0 k); constructor; assumption.
Qed.

Lemma decoded_members_keyed (d acc : list (str * json)) :
  List.Forall (fun kd => keyed (snd kd)) acc ->
  List.Forall (fun kd => keyed (snd kd))
    (fold_left (fun acc kx => dict_set (fst kx) (decoded (snd kx)) acc) d acc).
Proof.
  revert acc. induction d as [|[k x] d IH]; intros acc Hacc; [exact Hacc|].
  cbn [fold_left]. apply IH. apply dict_set_forall; [exact Hacc|].
  apply decoded_keyed.
Qed.

(** ** The loop of [_deep_merge] when no dict meets a dict *)

Lemma store_same (s : loc) (b : list (str * value)) (h : heap) :
  objs h !! s = Some b -> store s b h = h.
Proof.
  intros H. destruct h as [o n]. unfold store. cbn [objs next] in *.
  now rewrite insert_id.
Qed.

Lemma store_store (s : loc) (b b' : list (str * value)) (h : heap) :
  store s b' (store s b h) = store s b' h.
Proof. unfold store. cbn [objs next]. now rewrite insert_insert_eq. Qed.

(** A step of the loop for a key under which [base] has no dict, or for a
    value that is no dict. *)
Lemma merge_step_plain (merge : loc -> value -> heap -> outcome unit * heap)
    (s : loc) (k : str) (v : value) (rest b : list (str * value)) (h : heap) :
  objs h !! s = Some b ->
  (forall l l', v = VDict l -> assoc k b <> Some (VDict l')) ->
  merge_items merge s ((k, v) :: rest) h
  = merge_items merge s rest (store s (dict_set k v b) h).
Proof.
  intros Hs Hplain. rewrite merge_items_cons, Hs.
  destruct (assoc k b) as [[| | | | | |bk]|]; try reflexivity;
    destruct v as [| | | | | |l]; try reflexivity.
  now destruct (Hplain l bk eq_refl).
Qed.

Lemma merge_items_plain (merge : loc -> value -> heap -> outcome unit * heap)
    (s : loc) (rest : list (str * value)) :
  forall (items b : list (str * value)) (h : heap),
    objs h !! s = Some b ->
    List.NoDup (List.map fst items) ->
    (forall k l l', In (k, VDict l) items -> assoc k b <> Some (VDict l')) ->
    merge_items merge s (items ++ rest) h
    = merge_items merge s rest (store s (set_all items b) h).
Proof.
  induction items as [|[k v] items IH]; intros b h Hs Hnd Hplain.
  - cbn [app fold_left]. now rewrite store_same.
  - cbn [app fold_left fst snd List.map] in *.
    inversion Hnd as [|? ? Hk Hnd']; subst.
    rewrite (merge_step_plain merge s k v _ b h Hs).
    2:{ intros l l' ->. apply (Hplain k l l'). now left. }
    rewrite (IH (dict_set k v b) (store s (dict_set k v b) h)).
    + now rewrite store_store.
    + unfold store. cbn [objs]. apply lookup_insert_eq.
    + exact Hnd'.
    + intros k' l l' Hin. rewrite assoc_dict_set_ne.
      * apply (Hplain k' l l'). now right.
      * intros <-. apply Hk. apply in_map_iff. now exists (k, VDict l).
Qed.

(** The same on documents. *)
Lemma deep_merged_app (pre rest b : list (str * json)) :
  deep_merged (JObj (pre ++ rest)) b
  = deep_merged (JObj rest) (deep_merged (JObj pre) b).
Proof. cbn [deep_merged]. apply fold_left_app. Qed.

Lemma deep_merged_plain :
  forall (items b : list (str * json)),
    List.NoDup (List.map fst items) ->
    (forall k m m', In (k, JObj m) items -> assoc k b <> Some (JObj m')) ->
    deep_merged (JObj items) b = set_all items b.
Proof.
  induction items as [|[k v] items IH]; intros b Hnd Hplain; [reflexivity|].
  change (deep_merged (JObj ((k, v) :: items)) b)
    with (deep_merged (JObj items)
            (match assoc k b, v with
             | Some (JObj bk), JObj _ => dict_set k (JObj (deep_merged v bk)) b
             | _, _ => dict_set k v b
             end)).
  cbn [fold_left fst snd List.map] in *.
  inversion Hnd as [|? ? Hk Hnd']; subst.
  assert (Hstep : match assoc k b, v with
                  | Some (JObj bk), JObj _ => dict_set k (JObj (deep_merged v bk)) b
                  | _, _ => dict_set k v b
                  end = dict_set k v b).
  { destruct (assoc k b) as [[| | | | | |bk]|] eqn:E; try reflexivity;
      destruct v as [| | | | | |m]; try reflexivity.
    destruct (Hplain k m bk); [now left|exact E]. }
  rewrite Hstep. apply IH; [exact Hnd'|].
  intros k' m m' Hin. rewrite assoc_dict_set_ne.
  - apply (Hplain k' m m'). now right.
  - intros <-. apply Hk. apply in_map_iff. now exists (k, JObj m).
Qed.

(** ** The member for ["server"] *)

Lemma find_member_dict (k : str) (m : list (str * json)) :
  (exists pre o post, m = pre ++ (k, JObj o) :: post)
  \/ (forall o, ~ In (k, JObj o) m).
Proof.
  induction m as [|[k0 d0] m IH]; [right; now intros o []|].
  destruct IH as [(pre & o & post & ->)|Hno].
  - left. now exists ((k0, d0) :: pre), o, post.
  - destruct (decide (k0 = k)) as [->|Hne].
    + destruct d0 as [| | | | | |o];
        try (right; intros o [[=]|Hin]; now apply (Hno o)).
      left. now exists [], o, m.
    + right. intros o [[= ? ?]|Hin]; [contradiction|now apply (Hno o)].
Qed.

Lemma nodup_middle {A : Type} (x : A) (l l' : list A) :
  List.NoDup (l ++ x :: l') ->
  List.NoDup l /\ List.NoDup l' /\ ~ In x l /\ ~ In x l'
  /\ (forall y, In y l' -> ~ In y l).
Proof.
  intros H. apply List.NoDup_remove in H as [H Hx].
  rewrite in_app_iff in Hx.
  split; [now apply List.NoDup_app_remove_r in H|].
  split; [now apply List.NoDup_app_remove_l in H|].
  split; [tauto|]. split; [tauto|].
  intros y Hy' Hy. apply in_split in Hy as (l1 & l2 & ->).
  rewrite <- app_assoc in H. cbn [app] in H.
  apply List.NoDup_remove in H as [_ H]. apply H.
  rewrite !in_app_iff. tauto.
Qed.

Lemma assoc_single {V : Type} (k k0 : str) (x y : V) :
  assoc k [(k0, x)] = Some y -> k0 = k /\ x = y.
Proof.
  cbn [assoc]. destruct (str_eqb k0 k) eqn:E; [|discriminate].
  apply SortFacts.str_eqb_eq in E. now intros [= ->].
Qed.

Lemma but_to_entries (h : heap) (k : str) (items : list (str * value))
    (m : list (str * json)) :
  entries_but k h items m -> ~ In k (List.map fst items) -> entries h items m.
Proof.
  intros H. induction H as [|[k0 v0] [k1 d1] items m [Hk H0] _ IH]; intros Hin;
    constructor.
  - cbn in *. split; [exact Hk|]. apply H0. intros ->. tauto.
  - apply IH. cbn in Hin. tauto.
Qed.

Lemma entries_to_but (h : heap) (k : str) (items : list (str * value))
    (m : list (str * json)) :
  entries h items m -> entries_but k h items m.
Proof.
  intros H. eapply Forall2_impl; [exact H|]. intros kv kd [Hk Hv]. now split.
Qed.

(** The value under [k] is the one that may not stand for its member:
    with the right member in its place, all items stand for theirs. *)
Lemma entries_replace (h : heap) (k : str) (v : value) (y : json)
    (items : list (str * value)) (m : list (str * json)) :
  entries_but k h items m -> List.NoDup (List.map fst items) ->
  assoc k items = Some v -> rep h v y ->
  entries h items (dict_set k y m).
Proof.
  intros H Hnd Hassoc Hv.
  induction H as [|[k0 v0] [k1 d1] items m [Hk H0] Hrest IH]; [discriminate|].
  cbn in Hk, H0. subst k1. cbn [dict_set assoc List.map fst] in *.
  inversion Hnd as [|? ? Hk0 Hnd']; subst.
  destruct (str_eqb k0 k) eqn:E.
  - apply SortFacts.str_eqb_eq in E. subst k0. injection Hassoc as ->.
    constructor; [now split|]. now apply (but_to_entries h k).
  - constructor; [|now apply IH]. split; [reflexivity|]. apply H0.
    intros ->. now rewrite (proj2 (SortFacts.str_eqb_eq k k) eq_refl) in E.
Qed.

Lemma merge_items_plain_all (merge : loc -> value -> heap -> outcome unit * heap)
    (s : loc) (items b : list (str * value)) (h : heap) :
  objs h !! s = Some b ->
  List.NoDup (List.map fst items) ->
  (forall k l l', In (k, VDict l) items -> assoc k b <> Some (VDict l')) ->
  merge_items merge s items h = (Ret tt, store s (set_all items b) h).
Proof.
  intros Hs Hnd Hplain.
  rewrite <- (app_nil_r items) at 1.
  now rewrite (merge_items_plain merge s [] items b h Hs Hnd Hplain).
Qed.

Lemma deep_merged_cons (k : str) (v : json) (rest b : list (str * json)) :
  deep_merged (JObj ((k, v) :: rest)) b
  = deep_merged (JObj rest)
      (match assoc k b, v with
       | Some (JObj bk), JObj _ => dict_set k (JObj (deep_merged v bk)) b
       | _, _ => dict_set k v b
       end).
Proof. reflexivity. Qed.

(** ** Merging into the copy of the defaults *)

Local Abbreviation server_document :=
  [(u "host", JStr (u "0.0.0.0")); (u "port", JInt 8001)].

Lemma server_defaults_plain (k : str) (l : loc) :
  assoc k server_defaults <> Some (VDict l).
Proof.
  unfold server_defaults. cbn [assoc].
  destruct (str_eqb (u "host") k); [discriminate|].
  destruct (str_eqb (u "port") k); discriminate.
Qed.

Lemma server_document_plain (k : str) (m : list (str * json)) :
  assoc k server_document <> Some (JObj m).
Proof.
  cbn [assoc].
  destruct (str_eqb (u "host") k); [discriminate|].
  destruct (str_eqb (u "port") k); discriminate.
Qed.

Lemma server_defaults_entries (h : heap) :
  entries h server_defaults server_document.
Proof.
  unfold server_defaults.
  constructor; [split; [reflexivity|now exists 1%nat]|].
  constructor; [split; [reflexivity|now exists 1%nat]|]. constructor.
Qed.

Lemma upper_sub (n : loc) (h : heap) : objs (upper n h) ⊆ objs h.
Proof. cbn [objs]. apply map_filter_subseteq. Qed.

Lemma upper_sub_store (n s : loc) (b : list (str * value)) (h0 h : heap) :
  (s < n)%nat -> objs (upper n h0) ⊆ objs h -> objs (upper n h0) ⊆ objs (store s b h).
Proof.
  intros Hs Hsub. apply map_subseteq_spec. intros l x Hl.
  assert (Hge : (n <= l)%nat).
  { cbn [objs] in Hl. apply map_lookup_filter_Some in Hl as [_ Hge]. exact Hge. }
  unfold store. cbn [objs]. rewrite lookup_insert_ne by lia.
  exact (lookup_weaken _ _ _ _ Hl Hsub).
Qed.

(** [_deep_merge] of a loaded object into the fresh copy of the defaults:
    [s] is the copy, [c] its dictionary for ["server"], and the object
    lies from address [n] on, above both. *)
Lemma merge_into_defaults (f : nat) (n s c o : loc) (h : heap)
    (m : list (str * json)) :
  (s < n)%nat -> (c < n)%nat -> s <> c ->
  objs h !! s = Some [(u "server", VDict c)] ->
  objs h !! c = Some server_defaults ->
  rep (upper n h) (VDict o) (JObj m) ->
  List.NoDup (List.map fst m) ->
  List.Forall (fun kd => keyed (snd kd)) m ->
  exists h',
    _deep_merge (S (S f)) s (VDict o) h = (Ret tt, h')
    /\ rep h' (VDict s) (merged_document defaults_document (JObj m)).
Proof.
  intros Hsn Hcn Hsc Hs Hc Hrep Hnd Hkeyed.
  destruct (rep_dict_inv _ _ _ Hrep) as (items & m0 & [= <-] & Ho & Hent).
  rewrite deep_merge_succ, (lookup_weaken _ _ _ _ Ho (upper_sub n h)).
  unfold merged_document, defaults_document.
  destruct (find_member_dict (u "server") m) as [(pred & ovd & postd & ->)|Hno].
  - (* the file has a dict for "server" *)
    apply Forall2_app_inv_r in Hent as (pre & rest & Hpre & Hrest & ->).
    apply Forall2_cons_inv_r in Hrest as ([k' v'] & post & [Hk Hv] & Hpost & ->).
    cbn [fst snd] in Hk, Hv. subst k'.
    destruct (rep_obj_inv _ _ _ Hv) as [ov ->].
    destruct (rep_dict_inv _ _ _ Hv) as (ovitems & m0 & [= <-] & Hov & Hovent).
    rewrite map_app in Hnd. cbn [List.map fst] in Hnd.
    apply nodup_middle in Hnd as (Npred & Npostd & Spred & Spostd & Hdisj).
    assert (Kpre := entries_keys _ _ _ Hpre).
    assert (Kpost := entries_keys _ _ _ Hpost).
    assert (Kov := entries_keys _ _ _ Hovent).
    assert (Novd : List.NoDup (List.map fst ovd)).
    { rewrite Forall_forall in Hkeyed.
      apply (Hkeyed (u "server", JObj ovd)); [|reflexivity].
      apply list_elem_of_In, in_app_iff. right. now left. }
    (* the members before "server" *)
    rewrite (merge_items_plain _ s _ pre _ h Hs).
    2:{ now rewrite Kpre. }
    2:{ intros k l l' Hin E. apply assoc_single in E as [<- _].
        apply Spred. rewrite <- Kpre. apply in_map_iff. now exists (u "server", VDict l). }
    set (b1 := set_all pre [(u "server", VDict c)]).
    set (h1 := store s b1 h).
    assert (Hs1 : objs h1 !! s = Some b1) by apply lookup_insert_eq.
    assert (Hb1 : assoc (u "server") b1 = Some (VDict c)).
    { unfold b1. rewrite assoc_set_all_ne by now rewrite Kpre. reflexivity. }
    assert (Hsub1 : objs (upper n h) ⊆ objs h1).
    { apply upper_sub_store; [exact Hsn|apply upper_sub]. }
    (* the dict for "server" is merged into the copy of the default *)
    rewrite merge_items_cons, Hs1, Hb1, deep_merge_succ.
    rewrite (lookup_weaken _ _ _ _ Hov Hsub1).
    rewrite (merge_items_plain_all _ c ovitems server_defaults h1).
    2:{ unfold h1, store. cbn [objs]. now rewrite lookup_insert_ne. }
    2:{ now rewrite Kov. }
    2:{ intros k l l' _. apply server_defaults_plain. }
    set (c1 := set_all ovitems server_defaults).
    set (h2 := store c c1 h1).
    assert (Hs2 : objs h2 !! s = Some b1).
    { unfold h2, store. cbn [objs]. now rewrite lookup_insert_ne by congruence. }
    (* the members after "server" *)
    rewrite (merge_items_plain_all _ s post b1 h2 Hs2).
    2:{ now rewrite Kpost. }
    2:{ intros k l l' Hin E.
        assert (Hk : In k (List.map fst postd)).
        { rewrite <- Kpost. apply in_map_iff. now exists (k, VDict l). }
        unfold b1 in E. rewrite assoc_set_all_ne in E.
        - apply assoc_single in E as [<- _]. contradiction.
        - rewrite Kpre. now apply Hdisj. }
    set (h3 := store s (set_all post b1) h2).
    exists h3. split; [reflexivity|].
    assert (Hsub3 : objs (upper n h) ⊆ objs h3).
    { apply upper_sub_store; [exact Hsn|].
      apply upper_sub_store; [exact Hcn|exact Hsub1]. }
    assert (Hc3 : rep h3 (VDict c) (JObj (set_all ovd server_document))).
    { apply (rep_dict _ c c1).
      - unfold h3, h2, store. cbn [objs].
        rewrite lookup_insert_ne by congruence. apply lookup_insert_eq.
      - apply (related_set_all (fun _ v d => rep h3 v d));
          [|apply server_defaults_entries].
        now apply (entries_weaken (upper n h)). }
    (* the same on the documents *)
    rewrite deep_merged_app.
    rewrite (deep_merged_plain pred) by
      (try exact Npred; intros k o1 o2 Hin E; apply assoc_single in E as [<- _];
       apply Spred; apply in_map_iff; now exists (u "server", JObj o1)).
    set (b1d := set_all pred [(u "server", JObj server_document)]).
    assert (Hb1d : assoc (u "server") b1d = Some (JObj server_document)).
    { unfold b1d. now rewrite assoc_set_all_ne. }
    rewrite deep_merged_cons, Hb1d.
    rewrite (deep_merged_plain ovd) by
      (try exact Novd; intros k o1 o2 _; apply server_document_plain).
    rewrite (deep_merged_plain postd).
    2:{ exact Npostd. }
    2:{ intros k o1 o2 Hin E.
        assert (Hk : In k (List.map fst postd)).
        { apply in_map_iff. now exists (k, JObj o1). }
        rewrite assoc_dict_set_ne in E by (intros <-; contradiction).
        unfold b1d in E. rewrite assoc_set_all_ne in E by now apply Hdisj.
        apply assoc_single in E as [<- _]. contradiction. }
    apply (rep_dict _ s (set_all post b1)); [apply lookup_insert_eq|].
    apply (related_set_all (fun _ v d => rep h3 v d));
      [now apply (entries_weaken (upper n h))|].
    apply (entries_replace h3 (u "server") (VDict c)); [| |exact Hb1|exact Hc3].
    + unfold b1, b1d.
      apply (related_set_all (fun k' v d => k' <> u "server" -> rep h3 v d)).
      * apply entries_to_but. now apply (entries_weaken (upper n h)).
      * constructor; [|constructor]. split; [reflexivity|]. now intros [].
    + unfold b1. apply nodup_set_all. repeat constructor. now intros [].
  - (* the file has no dict for "server" *)
    assert (Kitems := entries_keys _ _ _ Hent).
    rewrite (merge_items_plain_all _ s items _ h Hs).
    2:{ now rewrite Kitems. }
    2:{ intros k l l' Hin E. apply assoc_single in E as [<- _].
        destruct (related_in (fun _ v d => rep (upper n h) v d) _ _ _ _ Hent Hin)
          as (d & Hd & Hv).
        destruct (rep_dict_inv _ _ _ Hv) as (? & o1 & -> & _).
        now apply (Hno o1). }
    set (h3 := store s (set_all items [(u "server", VDict c)]) h).
    exists h3. split; [reflexivity|].
    assert (Hsub3 : objs (upper n h) ⊆ objs h3).
    { apply upper_sub_store; [exact Hsn|apply upper_sub]. }
    rewrite (deep_merged_plain m).
    2:{ exact Hnd. }
    2:{ intros k o1 o2 Hin E. apply assoc_single in E as [<- _]. now apply (Hno o1). }
    apply (rep_dict _ s (set_all items [(u "server", VDict c)]));
      [apply lookup_insert_eq|].
    apply (related_set_all (fun _ v d => rep h3 v d));
      [now apply (entries_weaken (upper n h))|].
    constructor; [|constructor]. split; [reflexivity|].
    apply (rep_dict _ c server_defaults); [|apply server_defaults_entries].
    unfold h3, store. cbn [objs]. now rewrite lookup_insert_ne.
Qed.

(** ** The call *)

(** The copy of the defaults: two new dictionaries. *)
Lemma copy_of_defaults (fuel : nat) (h : heap) :
  defaults_intact h ->
  _deep_copy_dict (S (S fuel)) DEFAULTS h
  = (Ret (S (next h)),
     {| objs := <[S (next h) := [(u "server", VDict (next h))]]>
                  (<[next h := server_defaults]> (objs h));
        next := S (S (next h)) |}).
Proof.
  intros [Hd Hs].
  rewrite deep_copy_succ, Hd. cbn [copy_items].
  rewrite deep_copy_succ, Hs. reflexivity.
Qed.

(** X24: the settings that [load_settings] returns are the defaults with
    the file merged over them.  On a store where [DEFAULTS] is as the
    module defines it, for a settings file that holds a JSON object the
    call returns a dictionary that stands for
    [{"server": {"host": "0.0.0.0", "port": 8001}}] deep-merged with the
    decoded file: a dict under ["server"] is merged key by key into the
    default one, every other member of the file replaces the default under
    its key or is added after it.  For a file that holds any other JSON
    document the call raises AttributeError. *)
Theorem load_settings_merges_the_file (fuel : nat) (j : json) (h : heap) :
  wf h -> defaults_intact h ->
  match j with
  | JObj _ =>
      exists (settings : loc) (h' : heap),
        load_settings (S (S fuel)) (Some (inr j)) h = (Ret settings, h')
        /\ exists depth : nat,
             structure depth h' (VDict settings)
             = Some (merged_document defaults_document (decoded j))
  | _ =>
      exists h' : heap,
        load_settings (S (S fuel)) (Some (inr j)) h = (Raise AttributeError, h')
  end.
Proof.
  intros Hwf Hintact. unfold load_settings.
  rewrite (copy_of_defaults fuel h Hintact).
  set (h1 := {| objs := <[S (next h) := [(u "server", VDict (next h))]]>
                          (<[next h := server_defaults]> (objs h));
                next := S (S (next h)) |}).
  assert (Hwf1 : wf h1).
  { intros l its. unfold h1. cbn [objs next].
    destruct (decide (l = S (next h))) as [->|H1]; [lia|].
    destruct (decide (l = next h)) as [->|H0]; [lia|].
    rewrite !lookup_insert_ne by congruence. intros H. apply Hwf in H. lia. }
  destruct (load_json_rep (next h1) j h1 Hwf1 (Nat.le_refl _)) as (W2 & N2 & S2 & R2).
  destruct (load_json j h1) as [override h2] eqn:Eload. cbn [fst snd] in *.
  assert (Hs2 : objs h2 !! S (next h) = Some [(u "server", VDict (next h))]).
  { apply (lookup_weaken _ _ _ _ (lookup_insert_eq _ _ _) S2). }
  assert (Hc2 : objs h2 !! next h = Some server_defaults).
  { refine (lookup_weaken _ _ _ _ _ S2). unfold h1. cbn [objs].
    rewrite lookup_insert_ne by lia. apply lookup_insert_eq. }
  destruct j as [| b | z | nz lit | s | l | d];
    try (injection Eload as <- <-; eexists; reflexivity).
  - (* a list *)
    cbn [load_json] in Eload.
    destruct (load_list load_json l h1) as [vs h']. injection Eload as <- <-.
    eexists. reflexivity.
  - (* an object *)
    assert (Hov : exists o, override = VDict o).
    { cbn [load_json] in Eload.
      destruct (load_items load_json d [] h1) as [items h'].
      destruct (alloc items h') as [o h'']. injection Eload as <- <-. now exists o. }
    destruct Hov as [o ->].
    destruct (decoded (JObj d)) as [| | | | | |m] eqn:Ed; try discriminate Ed.
    destruct (merge_into_defaults fuel (next h1) (S (next h)) (next h) o h2 m)
      as (h3 & -> & Hrep); try assumption.
    + unfold h1. cbn [next]. lia.
    + unfold h1. cbn [next]. lia.
    + lia.
    + apply (decoded_keyed (JObj d)). exact Ed.
    + cbn [decoded] in Ed. injection Ed as <-.
      apply decoded_members_keyed. constructor.
    + exists (S (next h)), h3. split; [reflexivity|exact Hrep].
Qed.

(** X24 on the store of the module, for a file that moves the port and
    adds a key. *)
Lemma load_settings_merges_example :
  exists (settings : loc) (h' : heap),
    load_settings 2 (Some (inr sample_file)) initial_heap = (Ret settings, h')
    /\ exists depth : nat,
         structure depth h' (VDict settings)
         = Some (JObj [(u "server",
                        JObj [(u "host", JStr (u "0.0.0.0")); (u "port", JInt 9000)]);
                       (u "debug", JBool true)]).
Proof.
  refine (load_settings_merges_the_file 0 sample_file initial_heap _ _).
  - exact (proj1 initial_heap_settled).
  - exact (proj1 (proj2 initial_heap_settled)).
Defined.

End MergeFacts.
